(** * YNAB e-mail automation: classification, aggregation and report statistics

    A shallow embedding of [ynab_client.py] ([YNABDataProcessor]), of
    [report_generator.py] ([ReportGenerator]) and of the three jobs of
    [main.py], followed by the properties of the budgeting rules that the
    reports rely on.

    Conventions of the embedding.
    - A record coming from the YNAB API is a Python dict.  Each key the code
      reads becomes a record field of type [field A]: the key can be absent,
      present with the JSON value [null], or present with a value.
    - Milliunit amounts are Python ints ([Z]); a key holding an amount is either
      absent or an integer, as in the YNAB schema.
    - Every value obtained by [/ 1000] is a Python float.  The code is written
      once over a [Number] interface and run on two instances: [Binary64]
      (IEEE 754 double precision, what CPython executes) and [Exact]
      (rational arithmetic without rounding).
    - A Python dict used as an accumulator is an association list in insertion
      order, which is the iteration order of the dict.
    - Exceptions are values of [result]. *)

From Stdlib Require Import ZArith Lia Bool List Ascii String Setoid.
From Stdlib Require Import Floats QArith Qcanon.
From Stdlib Require Import Permutation Sorted.
From Stdlib Require OrderedTypeEx.
Import ListNotations.

Set Implicit Arguments.

Open Scope string_scope.
Open Scope list_scope.
Open Scope Z_scope.

(** ** Python strings *)

Module PyStr.

(** [str.lower()] on the ASCII range; other bytes are kept. *)
Definition lower_char (c : ascii) : ascii :=
  let n := nat_of_ascii c in
  if ((65 <=? n) && (n <=? 90))%nat then ascii_of_nat (n + 32) else c.

Fixpoint lower (s : string) : string :=
  match s with
  | EmptyString => EmptyString
  | String c s' => String (lower_char c) (lower s')
  end.

(** [needle in hay] *)
Fixpoint contains (needle hay : string) : bool :=
  if prefix needle hay then true
  else match hay with
       | EmptyString => false
       | String _ hay' => contains needle hay'
       end.

Definition is_empty (s : string) : bool :=
  match s with EmptyString => true | _ => false end.

End PyStr.

(** ** Dict fields *)

Inductive field (A : Type) : Type :=
| Absent : field A
| Null : field A
| Val : A -> field A.

Arguments Absent {A}.
Arguments Null {A}.
Arguments Val {A} _.

(** [bool(d.get(k))] for a string-valued key *)
Definition truthy (f : field string) : bool :=
  match f with
  | Val s => negb (PyStr.is_empty s)
  | _ => false
  end.

(** [d.get(k) or default] for a string-valued key *)
Definition get_or (f : field string) (default : string) : string :=
  match f with
  | Val s => if PyStr.is_empty s then default else s
  | _ => default
  end.

(** [d.get(k, 0)] for an integer-valued key *)
Definition get_int (f : option Z) : Z :=
  match f with
  | Some z => z
  | None => 0
  end.

(** [d.get(k, [])] for a list-valued key; [None] is as falsy as [[]] in the
    only place the code tests it. *)
Definition get_list {A : Type} (f : field (list A)) : list A :=
  match f with
  | Val l => l
  | _ => []
  end.

(** ** Exceptions *)

Inductive exn : Type :=
| KeyError
| TypeError
| ValueError
| ZeroDivisionError.

Inductive result (A : Type) : Type :=
| Ok : A -> result A
| Raise : exn -> result A.

Arguments Ok {A} _.
Arguments Raise {A} _.

Definition bind {A B : Type} (r : result A) (k : A -> result B) : result B :=
  match r with
  | Ok a => k a
  | Raise e => Raise e
  end.

Notation "x <- r ;; k" := (bind r (fun x => k))
  (at level 61, r at next level, right associativity).

(** A [for] loop whose body can raise. *)
Fixpoint for_each {S X : Type} (body : S -> X -> result S) (xs : list X) (s : S)
  : result S :=
  match xs with
  | [] => Ok s
  | x :: xs' => s' <- body s x ;; for_each body xs' s'
  end.

(** ** Numbers *)

(** The arithmetic of the values in major units.  An int met by a float in a
    product or a quotient is converted first ([of_int]), as CPython does; the
    ints met there, [0], [2], [100] and a number of days or of transactions,
    are held exactly.  An int compared with a float is compared by value,
    without conversion ([nleb_int]); for the int [0] this is the comparison
    with [of_int 0]. *)
Class Number (num : Type) : Type := {
  (** an int operand converted for mixed arithmetic *)
  of_int : Z -> num;
  (** [a / b] on two ints, [b] not zero *)
  int_truediv : Z -> Z -> num;
  nadd : num -> num -> num;
  nsub : num -> num -> num;
  nmul : num -> num -> num;
  ndiv : num -> num -> num;
  neqb : num -> num -> bool;
  nltb : num -> num -> bool;
  (** [x >= n] for an int [n]: the two compared by value *)
  nleb_int : Z -> num -> bool
}.

Definition Z2SF (z : Z) : spec_float :=
  match z with
  | Z0 => S754_zero false
  | Zpos p => S754_finite false p 0
  | Zneg p => S754_finite true p 0
  end.

(** [n <= x] for an integer and a binary64 value, without rounding: a finite
    [x] is [m * 2 ^ e]; every integer is below plus infinity and none below
    minus infinity; with a NaN the comparison is false. *)
Definition Z_leb_SF (n : Z) (x : spec_float) : bool :=
  match x with
  | S754_nan => false
  | S754_infinity s => negb s
  | S754_zero _ => n <=? 0
  | S754_finite s m e =>
      let v := if s then Zneg m else Zpos m in
      if 0 <=? e then n <=? v * 2 ^ e else n * 2 ^ (- e) <=? v
  end.

(** IEEE 754 binary64.  [int / int] is the correctly rounded quotient of the
    two integers, [float(int)] rounds to nearest even.  (Beyond the range of
    binary64, around 1.8e308, CPython raises [OverflowError] where these give
    an infinity; no amount of money is near.) *)
#[export] Instance Binary64 : Number float := {
  of_int z := SF2Prim (binary_normalize prec emax z 0 false);
  int_truediv a b := SF2Prim (SFdiv prec emax (Z2SF a) (Z2SF b));
  nadd := PrimFloat.add;
  nsub := PrimFloat.sub;
  nmul := PrimFloat.mul;
  ndiv := PrimFloat.div;
  neqb := PrimFloat.eqb;
  nltb := PrimFloat.ltb;
  nleb_int n x := Z_leb_SF n (Prim2SF x)
}.

Definition Qc_of_Z (z : Z) : Qc := Q2Qc (inject_Z z).

Definition Qc_cmp (c : comparison -> bool) (x y : Qc) : bool := c (Qccompare x y).

(** Rational arithmetic: the same operations without rounding. *)
#[export] Instance Exact : Number Qc := {
  of_int := Qc_of_Z;
  int_truediv a b := Qcdiv (Qc_of_Z a) (Qc_of_Z b);
  nadd := Qcplus;
  nsub := Qcminus;
  nmul := Qcmult;
  ndiv := Qcdiv;
  neqb := Qc_cmp (fun c => match c with Eq => true | _ => false end);
  nltb := Qc_cmp (fun c => match c with Lt => true | _ => false end);
  nleb_int n x :=
    Qc_cmp (fun c => match c with Gt => false | _ => true end) (Qc_of_Z n) x
}.

Section Arithmetic.
Context {num : Type} `{Number num}.

(** the int literal [0] *)
Definition zero : num := of_int 0.

(** [x / 1000]: milliunits to major currency units *)
Definition to_major (milli : Z) : num := int_truediv milli 1000.

(** [x / y] on floats *)
Definition truediv (x y : num) : result num :=
  if neqb y zero then Raise ZeroDivisionError else Ok (ndiv x y).

(** [x / n] with an int divisor *)
Definition truediv_int (x : num) (n : Z) : result num :=
  if n =? 0 then Raise ZeroDivisionError else Ok (ndiv x (of_int n)).

(** [sum(xs)]: the items added one after the other to the int [0].  (From
    CPython 3.12 on, [sum] compensates the rounding errors of a float sum;
    this changes the last bits of a binary64 sum and nothing in exact
    arithmetic.) *)
Definition py_sum (xs : list num) : num := fold_left nadd xs zero.

(** [max(xs)] on a non-empty sequence: the first largest item *)
Definition py_max (x : num) (xs : list num) : num :=
  fold_left (fun best y => if nltb best y then y else best) xs x.

End Arithmetic.

(** ** Records of the YNAB API *)

Record subtransaction : Type := {
  sub_amount : option Z;
  sub_category_name : field string
}.

Record transaction : Type := {
  date : field string;
  amount : option Z;
  payee_name : field string;
  category_id : field string;
  category_name : field string;
  transfer_account_id : field string;
  scheduled_transaction_id : field string;
  subtransactions : field (list subtransaction)
}.

Record category : Type := {
  name : field string;
  budgeted : option Z;
  activity : option Z;
  balance : option Z
}.

Record scheduled_transaction : Type := {
  date_next : field string;
  frequency : field string
}.

(** ** The exclusion tests repeated through [YNABDataProcessor] *)

(** [if t.get('transfer_account_id')] *)
Definition is_transfer (t : transaction) : bool :=
  truthy (transfer_account_id t).

(** ['reconciliation' in payee_name.lower() or 'balance adjustment' in payee_name.lower()] *)
Definition reconciliation_payee (payee : string) : bool :=
  PyStr.contains "reconciliation" (PyStr.lower payee)
  || PyStr.contains "balance adjustment" (PyStr.lower payee).

Definition is_reconciliation (t : transaction) : bool :=
  reconciliation_payee (get_or (payee_name t) "").

(** ['inflow' in cat_name.lower() or 'ready to assign' in cat_name.lower()] *)
Definition is_inflow (cat_name : string) : bool :=
  PyStr.contains "inflow" (PyStr.lower cat_name)
  || PyStr.contains "ready to assign" (PyStr.lower cat_name).

(** ** [YNABDataProcessor.get_uncategorized_transactions]

    The argument is the list returned by [client.get_transactions]. *)

Definition is_uncategorized (t : transaction) : bool :=
  negb (truthy (category_id t))
  || match category_name t with
     | Val s => String.eqb s "Uncategorized"
     | _ => false
     end.

Fixpoint get_uncategorized_transactions (transactions : list transaction)
  : list transaction :=
  match transactions with
  | [] => []
  | t :: rest =>
      if is_transfer t then get_uncategorized_transactions rest
      else if is_reconciliation t then get_uncategorized_transactions rest
      else if is_inflow (get_or (category_name t) "")
      then get_uncategorized_transactions rest
      else if is_uncategorized t
      then t :: get_uncategorized_transactions rest
      else get_uncategorized_transactions rest
  end.

(** ** [YNABDataProcessor.get_category_status] and [aggregate_by_category] *)

Section Processor.
Context {num : Type} `{Number num}.

(** One dict of the [overspent], [warning] or [underfunded] list; the
    [underfunded] dicts have no ["percent_used"] key. *)
Record status_entry : Type := {
  e_name : string;
  e_budgeted : num;
  e_activity : num;
  e_balance : num;
  e_percent_used : option num
}.

Record category_status : Type := {
  overspent : list status_entry;
  warning : list status_entry;
  underfunded : list status_entry
}.

Definition empty_status : category_status :=
  {| overspent := []; warning := []; underfunded := [] |}.

(** [(activity / budgeted * 100) if budgeted > 0 else 0] *)
Definition percent_used_of (activity_major budgeted_major : num) : result num :=
  if nltb zero budgeted_major
  then q <- truediv activity_major budgeted_major ;; Ok (nmul q (of_int 100))
  else Ok zero.

(** The body of the loop over the categories of the month. *)
Definition status_step (threshold_percent : Z) (res : category_status)
  (cat : category) : result category_status :=
  let b := to_major (get_int (budgeted cat)) in
  let a := to_major (Z.abs (get_int (activity cat))) in
  let bal := to_major (get_int (balance cat)) in
  let nm := get_or (name cat) "Unknown" in
  if is_inflow nm then Ok res
  else if neqb b zero then Ok res
  else
    percent_used <- percent_used_of a b ;;
    if nltb bal zero then
      Ok {| overspent := overspent res ++
              [{| e_name := nm; e_budgeted := b; e_activity := a;
                  e_balance := bal; e_percent_used := Some percent_used |}];
            warning := warning res;
            underfunded := underfunded res |}
    else if nleb_int threshold_percent percent_used then
      Ok {| overspent := overspent res;
            warning := warning res ++
              [{| e_name := nm; e_budgeted := b; e_activity := a;
                  e_balance := bal; e_percent_used := Some percent_used |}];
            underfunded := underfunded res |}
    else if nltb (nmul b (of_int 2)) bal then
      Ok {| overspent := overspent res;
            warning := warning res;
            underfunded := underfunded res ++
              [{| e_name := nm; e_budgeted := b; e_activity := a;
                  e_balance := bal; e_percent_used := None |}] |}
    else Ok res.

(** The argument [categories] is [month_data.get("categories", [])]. *)
Definition get_category_status (categories : list category)
  (threshold_percent : Z) : result category_status :=
  for_each (status_step threshold_percent) categories empty_status.

(** A value of the dict [category_totals]. *)
Record aggregate : Type := {
  total : num;
  count : nat;
  transactions : list transaction
}.

Definition totals : Type := list (string * aggregate).

(** [d.get(k)] *)
Fixpoint lookup (k : string) (m : totals) : option aggregate :=
  match m with
  | [] => None
  | (k', v) :: m' => if String.eqb k' k then Some v else lookup k m'
  end.

(** [k in d] *)
Definition has_key (k : string) (m : totals) : bool :=
  match lookup k m with
  | Some _ => true
  | None => false
  end.

(** [d[k] = f(d[k])] on a key that is present *)
Fixpoint update (k : string) (f : aggregate -> aggregate) (m : totals) : totals :=
  match m with
  | [] => []
  | (k', v) :: m' =>
      if String.eqb k' k then (k', f v) :: m' else (k', v) :: update k f m'
  end.

(** [if k not in d: d[k] = {"total": 0, "count": 0, "transactions": []}] *)
Definition ensure (k : string) (m : totals) : totals :=
  if has_key k m then m
  else m ++ [(k, {| total := zero; count := 0; transactions := [] |})].

(** The three updates of [category_totals[k]] that both paths end with. *)
Definition add_contribution (t : transaction) (k : string) (milli : Z)
  (m : totals) : totals :=
  update k
    (fun v => {| total := nsub (total v) (to_major milli);
                 count := S (count v);
                 transactions := transactions v ++ [t] |})
    (ensure k m).

(** The body of the loop over the subtransactions of a split [t]. *)
Definition aggregate_sub (t : transaction) (m : totals) (sub : subtransaction)
  : totals :=
  let sub_cat_name := get_or (sub_category_name sub) "Uncategorized" in
  if is_inflow sub_cat_name then m
  else add_contribution t sub_cat_name (get_int (sub_amount sub)) m.

(** The body of the loop over the transactions. *)
Definition aggregate_step (m : totals) (t : transaction) : totals :=
  if is_transfer t then m
  else if is_reconciliation t then m
  else
    match get_list (subtransactions t) with
    | (_ :: _) as subs => fold_left (aggregate_sub t) subs m
    | [] =>
        let cat_name := get_or (category_name t) "Uncategorized" in
        if is_inflow cat_name then m
        else add_contribution t cat_name (get_int (amount t)) m
    end.

Definition aggregate_by_category (txs : list transaction) : totals :=
  fold_left aggregate_step txs [].

End Processor.

Arguments status_entry num : clear implicits.
Arguments category_status num : clear implicits.
Arguments aggregate num : clear implicits.
Arguments totals num : clear implicits.

(** ** [datetime.strptime(s, "%Y-%m-%d")] and [strftime("%A")]

    The two library calls of the monthly report, after CPython's [_strptime]
    (the regular expression of the format) and [datetime] (the proleptic
    Gregorian ordinal).  The digits read are the ASCII digits: on a string
    of ASCII characters the parse is CPython's, and what parses here parses
    there to the same date.  CPython reads in addition the decimal digits of
    the other scripts in the year and in the second digit of the day, so a
    date written with such digits parses there and not here. *)

Module Calendar.

Definition digit_of (c : ascii) : option Z :=
  let n := nat_of_ascii c in
  if ((48 <=? n) && (n <=? 57))%nat then Some (Z.of_nat (n - 48)) else None.

Definition digit_in (lo hi : Z) (c : ascii) : option Z :=
  match digit_of c with
  | Some d => if (lo <=? d) && (d <=? hi) then Some d else None
  | None => None
  end.

(** [(?P<Y>\d\d\d\d)] *)
Definition year_group (s : string) : option (Z * string) :=
  match s with
  | String a (String b (String c (String d r))) =>
      match digit_of a, digit_of b, digit_of c, digit_of d with
      | Some x, Some y, Some z, Some w =>
          Some (1000 * x + 100 * y + 10 * z + w, r)
      | _, _, _, _ => None
      end
  | _ => None
  end.

(** One alternative made of a first character test and a following digit. *)
Definition two_chars (first : ascii -> option Z) (lo hi : Z) (s : string)
  : list (Z * string) :=
  match s with
  | String a (String b r) =>
      match first a, digit_in lo hi b with
      | Some x, Some y => [(10 * x + y, r)]
      | _, _ => []
      end
  | _ => []
  end.

Definition one_char (lo hi : Z) (s : string) : list (Z * string) :=
  match s with
  | String a r =>
      match digit_in lo hi a with
      | Some x => [(x, r)]
      | None => []
      end
  | _ => []
  end.

Definition space (c : ascii) : option Z :=
  if Ascii.eqb c " "%char then Some 0 else None.

(** [(?P<m>1[0-2]|0[1-9]|[1-9])], the alternatives in the order tried *)
Definition month_group (s : string) : list (Z * string) :=
  two_chars (digit_in 1 1) 0 2 s ++ two_chars (digit_in 0 0) 1 9 s
  ++ one_char 1 9 s.

(** [(?P<d>3[01]|[12]\d|0[1-9]|[1-9]| [1-9])] *)
Definition day_group (s : string) : list (Z * string) :=
  two_chars (digit_in 3 3) 0 1 s ++ two_chars (digit_in 1 2) 0 9 s
  ++ two_chars (digit_in 0 0) 1 9 s ++ one_char 1 9 s
  ++ two_chars space 1 9 s.

Definition dash (s : string) : option string :=
  match s with
  | String c r => if Ascii.eqb c "-"%char then Some r else None
  | _ => None
  end.

(** The first way to match the month that lets the rest of the expression
    match; the result carries what follows the match. *)
Fixpoint month_day (alts : list (Z * string)) : option (Z * Z * string) :=
  match alts with
  | [] => None
  | (m, r) :: alts' =>
      match dash r with
      | Some r' =>
          match day_group r' with
          | (d, rest) :: _ => Some (m, d, rest)
          | [] => month_day alts'
          end
      | None => month_day alts'
      end
  end.

Definition is_leap (y : Z) : bool :=
  (y mod 4 =? 0) && (negb (y mod 100 =? 0) || (y mod 400 =? 0)).

Definition month_length (y m : Z) : Z :=
  if m =? 2 then (if is_leap y then 29 else 28)
  else if (m =? 4) || (m =? 6) || (m =? 9) || (m =? 11) then 30
  else 31.

(** A date is kept as (year, month, day). *)
Definition strptime_ymd (s : string) : option (Z * Z * Z) :=
  match year_group s with
  | Some (y, r) =>
      match dash r with
      | Some r' =>
          match month_day (month_group r') with
          | Some (m, d, rest) =>
              if PyStr.is_empty rest && (1 <=? y) && (d <=? month_length y m)
              then Some (y, m, d)
              else None
          | None => None
          end
      | None => None
      end
  | None => None
  end.

Definition days_before_year (y : Z) : Z :=
  let p := y - 1 in p * 365 + p / 4 - p / 100 + p / 400.

Fixpoint days_before_month_aux (y : Z) (months : nat) : Z :=
  match months with
  | O => 0
  | S k => days_before_month_aux y k + month_length y (Z.of_nat (S k))
  end.

(** the days of the year before the first of month [m] *)
Definition days_before_month (y m : Z) : Z :=
  days_before_month_aux y (Z.to_nat (m - 1)).

Definition toordinal (d : Z * Z * Z) : Z :=
  let '(y, m, dd) := d in days_before_year y + days_before_month y m + dd.

(** Monday is 0 *)
Definition weekday (d : Z * Z * Z) : Z := (toordinal d + 6) mod 7.

Definition day_names : list string :=
  ["Monday"; "Tuesday"; "Wednesday"; "Thursday"; "Friday"; "Saturday"; "Sunday"].

(** [d.strftime("%A")] *)
Definition strftime_A (d : Z * Z * Z) : string :=
  nth (Z.to_nat (weekday d)) day_names "".

End Calendar.

(** ** [ReportGenerator]

    Each generator ends with [template.render(...)]; its model returns the
    keyword arguments handed to the template.  The labels built from the
    clock ([current_date], [week_start], [week_end]) are left out, and
    [days_in_month], which the monthly report reads from the clock, is an
    argument. *)

Section Reports.
Context {num : Type} `{Number num}.

(** [abs(t.get("amount", 0)) / 1000] *)
Definition spent (t : transaction) : num :=
  to_major (Z.abs (get_int (amount t))).

Record weekly_context : Type := {
  w_total_spent : num;
  w_transaction_count : nat;
  w_category_spending : totals num;
  w_upcoming_scheduled : list scheduled_transaction;
  w_category_status : category_status num
}.

Definition generate_weekly_recap (txs : list transaction)
  (category_spending : totals num)
  (upcoming_scheduled : list scheduled_transaction)
  (status : category_status num) : weekly_context :=
  {| w_total_spent := py_sum (map spent txs);
     w_transaction_count := List.length txs;
     w_category_spending := category_spending;
     w_upcoming_scheduled := upcoming_scheduled;
     w_category_status := status |}.

(** [total_spent / days_in_month if days_in_month > 0 else 0] *)
Definition avg_per_day_of (total_spent : num) (days_in_month : Z) : result num :=
  if 0 <? days_in_month then truediv_int total_spent days_in_month else Ok zero.

(** [total_spent / transaction_count if transaction_count > 0 else 0] *)
Definition avg_transaction_of (total_spent : num) (transaction_count : nat)
  : result num :=
  if (0 <? transaction_count)%nat
  then truediv_int total_spent (Z.of_nat transaction_count)
  else Ok zero.

(** [largest_transaction = 0], replaced by the [max] when the list is not empty *)
Definition largest_transaction_of (txs : list transaction) : num :=
  match map spent txs with
  | [] => zero
  | x :: xs => py_max x xs
  end.

(** [day_counts[k] += 1] on a [defaultdict(int)] *)
Fixpoint incr (k : string) (counts : list (string * nat)) : list (string * nat) :=
  match counts with
  | [] => [(k, 1%nat)]
  | (k', n) :: counts' =>
      if String.eqb k' k then (k', S n) :: counts' else (k', n) :: incr k counts'
  end.

(** [datetime.strptime(t["date"], "%Y-%m-%d").strftime("%A")] *)
Definition weekday_of (t : transaction) : result string :=
  match date t with
  | Absent => Raise KeyError
  | Null => Raise TypeError
  | Val s =>
      match Calendar.strptime_ymd s with
      | Some d => Ok (Calendar.strftime_A d)
      | None => Raise ValueError
      end
  end.

Definition day_counts_step (counts : list (string * nat)) (t : transaction)
  : result (list (string * nat)) :=
  day <- weekday_of t ;; Ok (incr day counts).

(** [max(day_counts.items(), key=lambda x: x[1])[0] if day_counts else "N/A"] *)
Definition most_active_day_of (counts : list (string * nat)) : string :=
  match counts with
  | [] => "N/A"
  | x :: xs =>
      fst (fold_left (fun best y => if (snd best <? snd y)%nat then y else best) xs x)
  end.

(** [sorted(category_spending.items(), key=lambda x: x[1]["total"], reverse=True)]:
    a stable sort, the larger totals first. *)
Fixpoint insert_desc (x : string * aggregate num) (l : totals num) : totals num :=
  match l with
  | [] => [x]
  | y :: l' =>
      if nltb (total (snd x)) (total (snd y)) then y :: insert_desc x l'
      else x :: l
  end.

Definition sorted_by_total (m : totals num) : totals num :=
  fold_right insert_desc [] m.

(** [{**data, "percentage": percentage}] *)
Record top_category : Type := {
  tc_total : num;
  tc_count : nat;
  tc_transactions : list transaction;
  tc_percentage : num
}.

(** [(data["total"] / total_spent * 100) if total_spent > 0 else 0] *)
Definition percentage_of (category_total total_spent : num) : result num :=
  if nltb zero total_spent
  then q <- truediv category_total total_spent ;; Ok (nmul q (of_int 100))
  else Ok zero.

Definition top_categories_step (total_spent : num)
  (acc : list (string * top_category)) (item : string * aggregate num)
  : result (list (string * top_category)) :=
  let '(cat_name, data) := item in
  percentage <- percentage_of (total data) total_spent ;;
  Ok (acc ++ [(cat_name, {| tc_total := total data;
                            tc_count := count data;
                            tc_transactions := transactions data;
                            tc_percentage := percentage |})]).

Record monthly_context : Type := {
  m_month_name : string;
  m_total_spent : num;
  m_transaction_count : nat;
  m_avg_per_day : num;
  m_avg_transaction : num;
  m_largest_transaction : num;
  m_most_active_day : string;
  m_categories_used : nat;
  m_top_categories : list (string * top_category);
  m_recurring_this_month : list scheduled_transaction
}.

Definition generate_monthly_recap (days_in_month : Z) (txs : list transaction)
  (category_spending : totals num)
  (recurring_this_month : list scheduled_transaction) (month_name : string)
  : result monthly_context :=
  let total_spent := py_sum (map spent txs) in
  let transaction_count := List.length txs in
  avg_per_day <- avg_per_day_of total_spent days_in_month ;;
  avg_transaction <- avg_transaction_of total_spent transaction_count ;;
  let largest_transaction := largest_transaction_of txs in
  day_counts <- for_each day_counts_step txs [] ;;
  let most_active_day := most_active_day_of day_counts in
  top_categories <- for_each (top_categories_step total_spent)
                      (sorted_by_total category_spending) [] ;;
  Ok {| m_month_name := month_name;
        m_total_spent := total_spent;
        m_transaction_count := transaction_count;
        m_avg_per_day := avg_per_day;
        m_avg_transaction := avg_transaction;
        m_largest_transaction := largest_transaction;
        m_most_active_day := most_active_day;
        m_categories_used := List.length category_spending;
        m_top_categories := top_categories;
        m_recurring_this_month := recurring_this_month |}.

End Reports.

Arguments weekly_context num : clear implicits.
Arguments top_category num : clear implicits.
Arguments monthly_context num : clear implicits.

(** ** The other loops of [YNABDataProcessor]

    As before the lists fetched from the API are arguments, and so is the
    clock: [today] is [datetime.now()] as (year, month, day). *)

(** The exceptions these loops add to [exn]. *)
Inductive error : Type :=
| Builtin (e : exn)
| AttributeError.

Inductive outcome (A : Type) : Type :=
| Returns : A -> outcome A
| Raises : error -> outcome A.

Arguments Returns {A} _.
Arguments Raises {A} _.

Definition lift {A : Type} (r : result A) : outcome A :=
  match r with
  | Ok a => Returns a
  | Raise e => Raises (Builtin e)
  end.

(** [d[k]] for a key known to hold a string *)
Definition str_value (f : field string) : string :=
  match f with
  | Val s => s
  | _ => EmptyString
  end.

(** [list.sort(key=...)]: a stable sort.  [goes_after x y] tells that [x] has
    to come after [y]; an item is inserted in front of the items sorted so
    far and moves behind those it has to come after. *)
Fixpoint stable_insert {A : Type} (goes_after : A -> A -> bool) (x : A)
  (l : list A) : list A :=
  match l with
  | [] => [x]
  | y :: l' =>
      if goes_after x y then y :: stable_insert goes_after x l' else x :: l
  end.

Definition stable_sort {A : Type} (goes_after : A -> A -> bool) (l : list A)
  : list A :=
  fold_right (stable_insert goes_after) [] l.

(** The loop of [get_last_week_transactions]. *)
Fixpoint actual_transactions (transactions : list transaction)
  : list transaction :=
  match transactions with
  | [] => []
  | t :: rest =>
      if truthy (scheduled_transaction_id t) then actual_transactions rest
      else if is_transfer t then actual_transactions rest
      else if is_reconciliation t then actual_transactions rest
      else if is_inflow (get_or (category_name t) "")
      then actual_transactions rest
      else t :: actual_transactions rest
  end.

(** [x["date"]], the sort key; [None] is the JSON null. *)
Definition date_key (t : transaction) : result (option string) :=
  match date t with
  | Absent => Raise KeyError
  | Null => Ok None
  | Val s => Ok (Some s)
  end.

(** The keys are computed for the whole list before anything is compared. *)
Fixpoint date_keys (txs : list transaction)
  : result (list (option string * transaction)) :=
  match txs with
  | [] => Ok []
  | t :: rest =>
      k <- date_key t ;;
      ks <- date_keys rest ;;
      Ok ((k, t) :: ks)
  end.

Definition is_none {A : Type} (o : option A) : bool :=
  match o with
  | None => true
  | Some _ => false
  end.

(** [a < b] on two keys that are strings *)
Definition key_ltb (a b : option string) : bool :=
  match a, b with
  | Some x, Some y => String.ltb x y
  | _, _ => false
  end.

(** [actual_transactions.sort(key=lambda x: x["date"], reverse=True)].
    Sorting two items or more compares every key with another one, and the
    comparison of [None] with a string or with [None] raises [TypeError]. *)
Definition sort_by_date_desc (txs : list transaction) : result (list transaction) :=
  keyed <- date_keys txs ;;
  if (2 <=? List.length keyed)%nat && existsb (fun kt => is_none (fst kt)) keyed
  then Raise TypeError
  else Ok (map snd (stable_sort (fun x y => key_ltb (fst x) (fst y)) keyed)).

Definition get_last_week_transactions (fetched : list transaction)
  : result (list transaction) :=
  sort_by_date_desc (actual_transactions fetched).

(** [today.replace(day=1) - timedelta(days=1)]: the last day of the month
    before (for January of the year 1 there is none, and Python raises
    [OverflowError]). *)
Definition last_month_of (today : Z * Z * Z) : Z * Z * Z :=
  let '(y, m, _) := today in
  if m =? 1 then (y - 1, 12, 31)
  else (y, m - 1, Calendar.month_length y (m - 1)).

Definition digit_char (d : Z) : ascii := ascii_of_nat (48 + Z.to_nat d).

(** [d.strftime("%Y-%m")], for the years of four digits *)
Definition strftime_Ym (d : Z * Z * Z) : string :=
  let '(y, m, _) := d in
  String (digit_char (y / 1000 mod 10))
    (String (digit_char (y / 100 mod 10))
       (String (digit_char (y / 10 mod 10))
          (String (digit_char (y mod 10))
             (String "-"%char
                (String (digit_char (m / 10 mod 10))
                   (String (digit_char (m mod 10)) EmptyString)))))).

(** The loop of [get_last_month_transactions]: the date is looked at first,
    for every fetched transaction. *)
Fixpoint last_month_loop (last_month_str : string)
  (transactions : list transaction) : outcome (list transaction) :=
  match transactions with
  | [] => Returns []
  | t :: rest =>
      match date t with
      | Absent => Raises (Builtin KeyError)
      | Null => Raises AttributeError
      | Val d =>
          let keep :=
            if negb (prefix last_month_str d) then false
            else if truthy (scheduled_transaction_id t) then false
            else if is_transfer t then false
            else if is_reconciliation t then false
            else if is_inflow (get_or (category_name t) "") then false
            else true in
          match last_month_loop last_month_str rest with
          | Returns kept => Returns (if keep then t :: kept else kept)
          | Raises e => Raises e
          end
      end
  end.

Definition get_last_month_transactions (today : Z * Z * Z)
  (fetched : list transaction) : outcome (list transaction) :=
  last_month_loop (strftime_Ym (last_month_of today)) fetched.

(** The loop of [get_upcoming_scheduled_transactions].  Dates are compared,
    and a [timedelta] is added, through their ordinals; the window is taken
    to end at a date that exists (Python has none after the year 9999 and
    raises [OverflowError] beyond). *)
Fixpoint upcoming_loop (today : Z * Z * Z) (days_ahead : Z)
  (scheduled : list scheduled_transaction)
  : result (list scheduled_transaction) :=
  match scheduled with
  | [] => Ok []
  | st :: rest =>
      if truthy (date_next st) then
        match Calendar.strptime_ymd (str_value (date_next st)) with
        | None => Raise ValueError
        | Some next_date_obj =>
            up <- upcoming_loop today days_ahead rest ;;
            if (Calendar.toordinal today <=? Calendar.toordinal next_date_obj)
               && (Calendar.toordinal next_date_obj
                   <=? Calendar.toordinal today + days_ahead)
            then Ok (st :: up) else Ok up
        end
      else upcoming_loop today days_ahead rest
  end.

(** [l.sort(key=lambda x: x["date_next"])] on items whose key is a string *)
Definition sort_by_date_next (l : list scheduled_transaction)
  : list scheduled_transaction :=
  stable_sort
    (fun x y => String.ltb (str_value (date_next y)) (str_value (date_next x))) l.

Definition get_upcoming_scheduled_transactions (today : Z * Z * Z)
  (days_ahead : Z) (scheduled : list scheduled_transaction)
  : result (list scheduled_transaction) :=
  up <- upcoming_loop today days_ahead scheduled ;;
  Ok (sort_by_date_next up).

(** [frequency and frequency != "never" and next_date.startswith(this_month)];
    the last test is reached only by a recurring frequency, and a null date
    has no [startswith]. *)
Definition recurs_this_month (this_month : string) (st : scheduled_transaction)
  : outcome bool :=
  if truthy (frequency st)
     && negb (String.eqb (str_value (frequency st)) "never")
  then
    match date_next st with
    | Absent => Returns (prefix this_month "")
    | Null => Raises AttributeError
    | Val d => Returns (prefix this_month d)
    end
  else Returns false.

Fixpoint recurring_loop (this_month : string)
  (scheduled : list scheduled_transaction)
  : outcome (list scheduled_transaction) :=
  match scheduled with
  | [] => Returns []
  | st :: rest =>
      match recurs_this_month this_month st with
      | Raises e => Raises e
      | Returns keep =>
          match recurring_loop this_month rest with
          | Returns kept => Returns (if keep then st :: kept else kept)
          | Raises e => Raises e
          end
      end
  end.

Definition get_recurring_scheduled_this_month (today : Z * Z * Z)
  (scheduled : list scheduled_transaction)
  : outcome (list scheduled_transaction) :=
  match recurring_loop (strftime_Ym today) scheduled with
  | Returns kept => Returns (sort_by_date_next kept)
  | Raises e => Raises e
  end.

(** ** The three jobs of [YNABEmailAutomation]

    What [send_daily_alert], [send_weekly_recap] and [send_monthly_recap]
    compute inside their [try], from the fetched lists to the context handed
    to the template.  An exception leaves the [try] before any e-mail is
    sent.  The clock is read once. *)

(** [last_month.day], the [days_in_month] of the monthly report *)
Definition days_in_month_of (today : Z * Z * Z) : Z :=
  let '(_, _, d) := last_month_of today in d.

Definition month_names : list string :=
  ["January"; "February"; "March"; "April"; "May"; "June"; "July"; "August";
   "September"; "October"; "November"; "December"].

(** [d.strftime("%B %Y")], for the years of four digits *)
Definition strftime_BY (d : Z * Z * Z) : string :=
  let '(y, m, _) := d in
  (nth (Z.to_nat (m - 1)) month_names ""
   ++ String " "%char
        (String (digit_char (y / 1000 mod 10))
           (String (digit_char (y / 100 mod 10))
              (String (digit_char (y / 10 mod 10))
                 (String (digit_char (y mod 10)) EmptyString)))))%string.

Section Jobs.
Context {num : Type} `{Number num}.

(** The context of the daily alert. *)
Record daily_context : Type := {
  d_uncategorized_transactions : list transaction;
  d_uncategorized_count : nat;
  d_category_status : category_status num;
  d_threshold : Z
}.

Definition generate_daily_alert (uncategorized_transactions : list transaction)
  (status : category_status num) (threshold : Z) : daily_context :=
  {| d_uncategorized_transactions := uncategorized_transactions;
     d_uncategorized_count := List.length uncategorized_transactions;
     d_category_status := status;
     d_threshold := threshold |}.

(** [fetched] is the list of the last 30 days, [categories] the month budget. *)
Definition send_daily_alert (threshold : Z) (fetched : list transaction)
  (categories : list category) : result daily_context :=
  let uncategorized := get_uncategorized_transactions fetched in
  status <- get_category_status categories threshold ;;
  Ok (generate_daily_alert uncategorized status threshold).

(** [fetched] is the list of the last 7 days. *)
Definition send_weekly_recap (today : Z * Z * Z) (threshold : Z)
  (fetched : list transaction) (scheduled : list scheduled_transaction)
  (categories : list category) : result (weekly_context num) :=
  transactions <- get_last_week_transactions fetched ;;
  let category_spending := aggregate_by_category transactions in
  upcoming <- get_upcoming_scheduled_transactions today 14 scheduled ;;
  status <- get_category_status categories threshold ;;
  Ok (generate_weekly_recap transactions category_spending upcoming status).

(** [fetched] is the list since the first of last month. *)
Definition send_monthly_recap (today : Z * Z * Z)
  (fetched : list transaction) (scheduled : list scheduled_transaction)
  : outcome (monthly_context num) :=
  match get_last_month_transactions today fetched with
  | Raises e => Raises e
  | Returns transactions =>
      let category_spending := aggregate_by_category transactions in
      match get_recurring_scheduled_this_month today scheduled with
      | Raises e => Raises e
      | Returns recurring =>
          let month_name := strftime_BY (last_month_of today) in
          lift (generate_monthly_recap (days_in_month_of today) transactions
                  category_spending recurring month_name)
      end
  end.

End Jobs.

Arguments daily_context num : clear implicits.

(** ** The vocabulary of the properties *)

(** What the guarded divisions rely on: a number above zero is not equal to
    zero, and zero milliunits are zero major units. *)
Class NumberLaws (num : Type) `{Number num} : Prop := {
  positive_not_zero : forall y : num, nltb zero y = true -> neqb y zero = false;
  zero_major : neqb (to_major 0) zero = true
}.

Arguments NumberLaws num {_}.

(** [name] has a substring equal to [token] up to the case of its letters. *)
Definition ci_contains (token name : string) : Prop :=
  exists pre mid post : string,
    name = (pre ++ mid ++ post)%string /\ PyStr.lower mid = PyStr.lower token.

(** The reserved category names: income, not spending. *)
Definition inflow_name (cat_name : string) : Prop :=
  ci_contains "inflow" cat_name \/ ci_contains "ready to assign" cat_name.

(** The payees of balancing adjustments. *)
Definition reconciliation_name (payee : string) : Prop :=
  ci_contains "reconciliation" payee \/ ci_contains "balance adjustment" payee.

(** The key holds a value that is neither null nor the empty string. *)
Definition present (f : field string) : Prop :=
  exists s : string, f = Val s /\ s <> "".

(** The key holds a value other than null (the empty string included). *)
Definition present_non_null (f : field string) : Prop :=
  exists s : string, f = Val s.

(** The value of a name key, the empty string when it is absent or null. *)
Definition name_of (f : field string) : string :=
  match f with
  | Val s => s
  | _ => ""
  end.

(** Membership in the uncategorized list, in the words of the rule. *)
Definition uncategorized_rule (t : transaction) : Prop :=
  ~ present (transfer_account_id t)
  /\ ~ reconciliation_name (name_of (payee_name t))
  /\ ~ inflow_name (name_of (category_name t))
  /\ (category_id t = Absent \/ category_id t = Null \/ category_id t = Val ""
      \/ category_name t = Val "Uncategorized").

Definition with_scheduled_id (t : transaction) (sid : field string) : transaction :=
  {| date := date t; amount := amount t; payee_name := payee_name t;
     category_id := category_id t; category_name := category_name t;
     transfer_account_id := transfer_account_id t;
     scheduled_transaction_id := sid;
     subtransactions := subtransactions t |}.

(** The four tests of the loop of [get_uncategorized_transactions] as one. *)
Definition uncategorized_keep (t : transaction) : bool :=
  negb (is_transfer t) && negb (is_reconciliation t)
  && negb (is_inflow (get_or (category_name t) "")) && is_uncategorized t.

(** [t] with its own category name and amount replaced. *)
Definition with_own (t : transaction) (cat_name : field string) (amt : option Z)
  : transaction :=
  {| date := date t; amount := amt; payee_name := payee_name t;
     category_id := category_id t; category_name := cat_name;
     transfer_account_id := transfer_account_id t;
     scheduled_transaction_id := scheduled_transaction_id t;
     subtransactions := subtransactions t |}.

(** Two transactions the loop cannot tell apart: same exclusion tests, same
    subtransactions and, without subtransactions, same own name and amount. *)
Definition same_reads (t1 t2 : transaction) : Prop :=
  is_transfer t1 = is_transfer t2 /\
  is_reconciliation t1 = is_reconciliation t2 /\
  subtransactions t1 = subtransactions t2 /\
  (get_list (subtransactions t1) = [] ->
   category_name t1 = category_name t2 /\ amount t1 = amount t2).

(** The first occurrence of [d] in [ws] comes before every occurrence of [w]. *)
Definition encountered_before (d w : string) (ws : list string) : Prop :=
  exists p s : list string, ws = p ++ d :: s /\ ~ In d p /\ ~ In w p.

Definition occurrences (w : string) (ws : list string) : nat :=
  count_occ string_dec ws w.

Inductive status_class : Type :=
| Overspent
| Warning
| Underfunded
| Omitted.

Definition status_class_eqb (x y : status_class) : bool :=
  match x, y with
  | Overspent, Overspent | Warning, Warning
  | Underfunded, Underfunded | Omitted, Omitted => true
  | _, _ => false
  end.

Section Vocabulary.
Context {num : Type} `{Number num}.

(** The value of a category at a key that may be missing. *)
Definition lookup_or_new (k : string) (m : totals num) : aggregate num :=
  match lookup k m with
  | Some v => v
  | None => {| total := zero; count := 0; transactions := [] |}
  end.

(** One contribution of [milli] milliunits of parent [t] to a category. *)
Definition contribute (t : transaction) (milli : Z) (v : aggregate num)
  : aggregate num :=
  {| total := nsub (total v) (to_major milli);
     count := S (count v);
     transactions := transactions v ++ [t] |}.

(** The name a subtransaction is counted under. *)
Definition sub_category (sub : subtransaction) : string :=
  get_or (sub_category_name sub) "Uncategorized".

(** The subtransactions of a split that are counted. *)
Definition counted_subs (t : transaction) : list subtransaction :=
  filter (fun sub => negb (is_inflow (sub_category sub)))
    (get_list (subtransactions t)).

(** The category names an aggregate has an entry for. *)
Definition keys (m : totals num) : list string := map fst m.

(** The keys, totals and counts of an aggregate, without the transaction lists. *)
Definition figures (m : totals num) : list (string * (num * nat)) :=
  map (fun kv => (fst kv, (total (snd kv), count (snd kv)))) m.

(** The sum of the totals over all categories. *)
Definition sum_totals (m : totals num) : num :=
  py_sum (map (fun kv => total (snd kv)) m).

(** The three figures of a snapshot in major units, and its name. *)
Definition budgeted_major (c : category) : num := to_major (get_int (budgeted c)).
Definition activity_major (c : category) : num :=
  to_major (Z.abs (get_int (activity c))).
Definition balance_major (c : category) : num := to_major (get_int (balance c)).
Definition category_label (c : category) : string := get_or (name c) "Unknown".

(** [percent_used] without the exception: spent over budgeted times 100, 0
    when the budget is not positive. *)
Definition percent_used (c : category) : num :=
  if nltb zero (budgeted_major c)
  then nmul (ndiv (activity_major c) (budgeted_major c)) (of_int 100)
  else zero.

(** The classification in the order of the rule. *)
Definition classify (threshold_percent : Z) (c : category) : status_class :=
  if is_inflow (category_label c) then Omitted
  else if neqb (budgeted_major c) zero then Omitted
  else if nltb (balance_major c) zero then Overspent
  else if nleb_int threshold_percent (percent_used c) then Warning
  else if nltb (nmul (budgeted_major c) (of_int 2)) (balance_major c)
       then Underfunded
  else Omitted.

(** The dict reported for a category placed in the list of class [cl]. *)
Definition entry_of (cl : status_class) (c : category) : status_entry num :=
  {| e_name := category_label c;
     e_budgeted := budgeted_major c;
     e_activity := activity_major c;
     e_balance := balance_major c;
     e_percent_used :=
       match cl with
       | Underfunded => None
       | _ => Some (percent_used c)
       end |}.

(** The categories of class [cl], in the order of the snapshot list. *)
Definition placed (cl : status_class) (threshold_percent : Z)
  (cats : list category) : list (status_entry num) :=
  map (entry_of cl)
    (filter (fun c => status_class_eqb (classify threshold_percent c) cl) cats).

(** A category goes to the list of its class and to no other. *)
Definition place (cl : status_class) (c : category) (res : category_status num)
  : category_status num :=
  match cl with
  | Overspent =>
      {| overspent := overspent res ++ [entry_of Overspent c];
         warning := warning res; underfunded := underfunded res |}
  | Warning =>
      {| overspent := overspent res;
         warning := warning res ++ [entry_of Warning c];
         underfunded := underfunded res |}
  | Underfunded =>
      {| overspent := overspent res; warning := warning res;
         underfunded := underfunded res ++ [entry_of Underfunded c] |}
  | Omitted => res
  end.

(** The guarded quotients of the monthly statistics. *)
Definition guarded_percentage (category_total total_spent : num) : num :=
  if nltb zero total_spent
  then nmul (ndiv category_total total_spent) (of_int 100)
  else zero.

Definition annotate (total_spent : num) (item : string * aggregate num)
  : string * top_category num :=
  (fst item,
   {| tc_total := total (snd item);
      tc_count := count (snd item);
      tc_transactions := transactions (snd item);
      tc_percentage := guarded_percentage (total (snd item)) total_spent |}).

(** Major units back to milliunits: [x * 1000]. *)
Definition to_milli (x : num) : num := nmul x (of_int 1000).

Definition round_trip (milli : Z) : num := to_milli (to_major milli).

End Vocabulary.

(** The weekday names of a transaction list, when every date parses. *)
Fixpoint weekdays (txs : list transaction) : option (list string) :=
  match txs with
  | [] => Some []
  | t :: rest =>
      match weekday_of t, weekdays rest with
      | Ok d, Some ds => Some (d :: ds)
      | _, _ => None
      end
  end.

(** The dict [day_counts] after the loop over the weekday names [ws]. *)
Definition tally (ws : list string) : list (string * nat) :=
  fold_left (fun counts day => incr day counts) ws [].

(** The sum of the absolute amounts in major units, without rounding. *)
Fixpoint raw_total (txs : list transaction) : Qc :=
  match txs with
  | [] => Q2Qc 0
  | t :: rest =>
      Qcplus (Qcdiv (Qc_of_Z (Z.abs (get_int (amount t)))) (Qc_of_Z 1000))
        (raw_total rest)
  end.

(** [round(x)] on a finite float: the nearest integer, a tie going to the
    even one; [None] stands for the exception raised on an infinity or a
    NaN. *)
Definition round_half_even (f : spec_float) : option Z :=
  match f with
  | S754_zero _ => Some 0
  | S754_finite sx m e =>
      let a :=
        if 0 <=? e then Zpos m * 2 ^ e
        else
          let d := 2 ^ (- e) in
          let q := Zpos m / d in
          let r := Zpos m mod d in
          if 2 * r <? d then q
          else if d <? 2 * r then q + 1
          else if Z.even q then q else q + 1 in
      Some (if sx then - a else a)
  | _ => None
  end.

Definition nearest_int (f : float) : option Z := round_half_even (Prim2SF f).

(** The record of a right shift stands for the quotient [N / D]: its mantissa
    is the integer part, its round and sticky bits place the fraction below,
    at or above one half. *)
Definition Represents (mrs : shr_record) (N D : Z) : Prop :=
  0 <= shr_m mrs
  /\ shr_m mrs * D <= N < (shr_m mrs + 1) * D
  /\ shr_r mrs = (D <=? 2 * (N - shr_m mrs * D))
  /\ shr_s mrs = negb ((2 * (N - shr_m mrs * D) =? 0)
                       || (2 * (N - shr_m mrs * D) =? D)).

(** ** The vocabulary of the further properties *)

(** What a transaction adds to the aggregate: the category names and
    milliunit amounts it is counted with, in the order of the loop. *)
Definition contributions_of (t : transaction) : list (string * Z) :=
  if is_transfer t then []
  else if is_reconciliation t then []
  else
    match get_list (subtransactions t) with
    | [] =>
        if is_inflow (get_or (category_name t) "Uncategorized") then []
        else [(get_or (category_name t) "Uncategorized", get_int (amount t))]
    | subs =>
        map (fun sub => (get_or (sub_category_name sub) "Uncategorized",
                         get_int (sub_amount sub)))
          (filter (fun sub =>
                     negb (is_inflow
                             (get_or (sub_category_name sub) "Uncategorized")))
             subs)
    end.

(** The contributions of a transaction list, each with its parent. *)
Definition ledger (txs : list transaction) : list (string * Z * transaction) :=
  flat_map (fun t => map (fun ka => (fst ka, snd ka, t)) (contributions_of t))
    txs.

(** The contributions booked under the name [k]. *)
Definition booked (k : string) (l : list (string * Z * transaction))
  : list (string * Z * transaction) :=
  filter (fun e => String.eqb (fst (fst e)) k) l.

(** A transaction without subtransactions rewritten as a split in one part. *)
Definition as_single_split (t : transaction) : transaction :=
  {| date := date t; amount := amount t; payee_name := payee_name t;
     category_id := category_id t; category_name := category_name t;
     transfer_account_id := transfer_account_id t;
     scheduled_transaction_id := scheduled_transaction_id t;
     subtransactions :=
       Val [{| sub_amount := amount t;
               sub_category_name := category_name t |}] |}.

(** The four tests of the loop of [get_last_week_transactions] as one. *)
Definition actual_keep (t : transaction) : bool :=
  negb (truthy (scheduled_transaction_id t)) && negb (is_transfer t)
  && negb (is_reconciliation t)
  && negb (is_inflow (get_or (category_name t) "")).

(** Membership in the spending lists, in the words of the rule. *)
Definition actual_rule (t : transaction) : Prop :=
  ~ present (scheduled_transaction_id t)
  /\ ~ present (transfer_account_id t)
  /\ ~ reconciliation_name (name_of (payee_name t))
  /\ ~ inflow_name (name_of (category_name t)).

(** The transaction is dated [d]. *)
Definition dated (d : string) (t : transaction) : bool :=
  match date t with
  | Val s => String.eqb s d
  | _ => false
  end.

(** The sort key of a transaction whose date key is present. *)
Definition key_of (t : transaction) : option string :=
  match date t with
  | Val s => Some s
  | _ => None
  end.

(** The five tests of the loop of [get_last_month_transactions] on a
    transaction with a date. *)
Definition monthly_keep (last_month_str : string) (t : transaction) : bool :=
  prefix last_month_str (str_value (date t)) && actual_keep t.

(** The date key holds a string. *)
Definition has_date (t : transaction) : Prop :=
  exists d : string, date t = Val d.

(** What [x["date"]] raises on a transaction without usable date: the key
    lookup fails, or [None] has no [startswith]. *)
Definition date_error (t : transaction) : option error :=
  match date t with
  | Absent => Some (Builtin KeyError)
  | Null => Some AttributeError
  | Val _ => None
  end.

(** The two tests of the loop of [get_upcoming_scheduled_transactions] on a
    scheduled transaction whose date parses. *)
Definition in_window (today : Z * Z * Z) (days_ahead : Z)
  (st : scheduled_transaction) : bool :=
  truthy (date_next st)
  && match Calendar.strptime_ymd (str_value (date_next st)) with
     | Some d =>
         (Calendar.toordinal today <=? Calendar.toordinal d)
         && (Calendar.toordinal d <=? Calendar.toordinal today + days_ahead)
     | None => false
     end.

(** Every character of the string is an ASCII character. *)
Fixpoint ascii_only (s : string) : bool :=
  match s with
  | EmptyString => true
  | String c r => (nat_of_ascii c <? 128)%nat && ascii_only r
  end.

(** A non-empty next date that is no date. *)
Definition bad_date_next (st : scheduled_transaction) : Prop :=
  truthy (date_next st) = true
  /\ Calendar.strptime_ymd (str_value (date_next st)) = None.

(** The frequency says that the schedule repeats. *)
Definition recurring_frequency (st : scheduled_transaction) : bool :=
  truthy (frequency st) && negb (String.eqb (str_value (frequency st)) "never").

(** The test of the loop of [get_recurring_scheduled_this_month]. *)
Definition recurring_keep (this_month : string) (st : scheduled_transaction)
  : bool :=
  recurring_frequency st && prefix this_month (str_value (date_next st)).

(** The scheduled transaction has the next date [d]. *)
Definition next_dated (d : string) (st : scheduled_transaction) : bool :=
  String.eqb (str_value (date_next st)) d.

(** The sum of the positive amounts of a list, in milliunits. *)
Definition refunds (txs : list transaction) : Z :=
  fold_right (fun t acc => Z.max 0 (get_int (amount t)) + acc) 0 txs.

Section FurtherVocabulary.
Context {num : Type} `{Number num}.

(** The value the aggregate holds for the contributions [es] of one name. *)
Definition booked_value (es : list (string * Z * transaction)) : aggregate num :=
  {| total := fold_left (fun acc e => nsub acc (to_major (snd (fst e)))) es zero;
     count := List.length es;
     transactions := map snd es |}.

(** Booking one ledger entry. *)
Definition post (m : totals num) (e : string * Z * transaction) : totals num :=
  add_contribution (snd e) (fst (fst e)) (snd (fst e)) m.

(** The sum of the counts over all categories. *)
Definition sum_counts (m : totals num) : nat :=
  fold_right (fun kv n => (count (snd kv) + n)%nat) O m.

End FurtherVocabulary.

(** ** Sample records *)

Module Ex.

(** An ordinary purchase. *)
Definition purchase (day : string) (milli : Z) (cat_name : string) : transaction :=
  {| date := Val day; amount := Some milli; payee_name := Val "Corner Shop";
     category_id := Val "cat-1"; category_name := Val cat_name;
     transfer_account_id := Null; scheduled_transaction_id := Null;
     subtransactions := Val [] |}.

Definition sub (milli : Z) (cat_name : string) : subtransaction :=
  {| sub_amount := Some milli; sub_category_name := Val cat_name |}.

(** A split of 10.00 between groceries and dining. *)
Definition split : transaction :=
  {| date := Val "2024-01-02"; amount := Some (-10000);
     payee_name := Val "Supermarket";
     category_id := Val "cat-split"; category_name := Val "Split";
     transfer_account_id := Null; scheduled_transaction_id := Null;
     subtransactions := Val [sub (-6000) "Groceries"; sub (-4000) "Dining"] |}.

(** A split in three parts over two categories. *)
Definition split_three : transaction :=
  {| date := Val "2024-01-16"; amount := Some (-800);
     payee_name := Val "Kiosk";
     category_id := Val "cat-split"; category_name := Val "Split";
     transfer_account_id := Null; scheduled_transaction_id := Null;
     subtransactions := Val [sub (-100) "A"; sub (-100) "B"; sub (-600) "A"] |}.

(** A split with one part booked as income. *)
Definition split_with_inflow : transaction :=
  {| date := Val "2024-01-03"; amount := Some 494000;
     payee_name := Val "Employer";
     category_id := Val "cat-split"; category_name := Val "Split";
     transfer_account_id := Null; scheduled_transaction_id := Null;
     subtransactions :=
       Val [sub (-6000) "Groceries"; sub 500000 "Inflow: Ready to Assign"] |}.

(** A purchase whose transfer-account key holds the empty string. *)
Definition empty_transfer_id : transaction :=
  {| date := Val "2024-01-04"; amount := Some (-1000);
     payee_name := Val "Corner Shop";
     category_id := Val "cat-1"; category_name := Val "Food";
     transfer_account_id := Val ""; scheduled_transaction_id := Null;
     subtransactions := Val [] |}.

(** A transfer between two accounts. *)
Definition transfer : transaction :=
  {| date := Val "2024-01-05"; amount := Some (-25000);
     payee_name := Val "Transfer : Savings";
     category_id := Null; category_name := Null;
     transfer_account_id := Val "acct-2"; scheduled_transaction_id := Null;
     subtransactions := Val [] |}.

(** A transaction materialized from a schedule and not yet categorized. *)
Definition scheduled_uncategorized : transaction :=
  {| date := Val "2024-01-06"; amount := Some (-900);
     payee_name := Null;
     category_id := Null; category_name := Val "Uncategorized";
     transfer_account_id := Null; scheduled_transaction_id := Val "sched-7";
     subtransactions := Val [] |}.

Definition income : transaction :=
  {| date := Val "2024-01-07"; amount := Some 500000;
     payee_name := Val "Employer";
     category_id := Val "cat-0"; category_name := Val "Inflow: Ready to Assign";
     transfer_account_id := Null; scheduled_transaction_id := Null;
     subtransactions := Val [] |}.

Definition snapshot (nm : string) (b a bal : Z) : category :=
  {| name := Val nm; budgeted := Some b; activity := Some a; balance := Some bal |}.

(** The split of 10.00 paid to a reconciliation payee. *)
Definition reconciliation_split : transaction :=
  {| date := Val "2024-01-02"; amount := Some (-10000);
     payee_name := Val "Reconciliation Balance Adjustment";
     category_id := Val "cat-split"; category_name := Val "Split";
     transfer_account_id := Null; scheduled_transaction_id := Null;
     subtransactions := Val [sub (-6000) "Groceries"; sub (-4000) "Dining"] |}.

(** The split of 10.00 moved between two accounts. *)
Definition transfer_split : transaction :=
  {| date := Val "2024-01-02"; amount := Some (-10000);
     payee_name := Val "Transfer : Savings";
     category_id := Val "cat-split"; category_name := Val "Split";
     transfer_account_id := Val "acct-2"; scheduled_transaction_id := Null;
     subtransactions := Val [sub (-6000) "Groceries"; sub (-4000) "Dining"] |}.

(** A split with a part booked under a category named ["Split"]. *)
Definition split_named_split : transaction :=
  {| date := Val "2024-01-02"; amount := Some (-10000);
     payee_name := Val "Supermarket";
     category_id := Val "cat-split"; category_name := Val "Split";
     transfer_account_id := Null; scheduled_transaction_id := Null;
     subtransactions := Val [sub (-6000) "Split"; sub (-4000) "Dining"] |}.

(** Three Mondays and one Tuesday of January 2024, the Tuesday first. *)
Definition january : list transaction :=
  [purchase "2024-01-02" (-1500) "Dining"; purchase "2024-01-01" (-2500) "Groceries";
   purchase "2024-01-08" (-3500) "Groceries"; purchase "2024-01-15" (-500) "Fuel"].

End Ex.

(** * Properties *)

Unset Implicit Arguments.

(** ** Strings *)

Lemma prefix_app (a s : string) :
  prefix a s = true <-> exists r : string, s = (a ++ r)%string.
Proof.
  revert s; induction a as [|c a IH]; intros s; simpl.
  - split; [intros _; exists s; reflexivity | intros _; destruct s; reflexivity].
  - destruct s as [|c' s].
    + split; [discriminate | intros [r Hr]; discriminate].
    + simpl. destruct (ascii_dec c c') as [->|Hne].
      * split.
        -- intros Hp. apply IH in Hp. destruct Hp as [r ->]. now exists r.
        -- intros [r Hr]. apply IH. exists r. congruence.
      * split; [discriminate | intros [r Hr]; congruence].
Qed.

Lemma contains_app (needle hay : string) :
  PyStr.contains needle hay = true <->
  exists pre post : string, hay = (pre ++ needle ++ post)%string.
Proof.
  split.
  - induction hay as [|c hay IH]; cbn [PyStr.contains].
    + destruct (prefix needle "") eqn:Hp; [|discriminate].
      intros _. apply prefix_app in Hp. destruct Hp as [r Hr].
      exists "", r. exact Hr.
    + destruct (prefix needle (String c hay)) eqn:Hp.
      * intros _. apply prefix_app in Hp. destruct Hp as [r Hr].
        exists "", r. exact Hr.
      * intros Hc. destruct (IH Hc) as (pre & post & ->).
        exists (String c pre), post. reflexivity.
  - intros (pre & post & ->). induction pre as [|c pre IH].
    + assert (Hp : prefix needle (needle ++ post) = true)
        by (apply prefix_app; exists post; reflexivity).
      change ("" ++ needle ++ post)%string with (needle ++ post)%string.
      destruct (needle ++ post)%string; cbn [PyStr.contains]; now rewrite Hp.
    + change (String c pre ++ needle ++ post)%string
        with (String c (pre ++ needle ++ post)).
      cbn [PyStr.contains]. rewrite IH.
      destruct (prefix needle _); reflexivity.
Qed.

Lemma lower_app (a b : string) :
  PyStr.lower (a ++ b) = (PyStr.lower a ++ PyStr.lower b)%string.
Proof.
  induction a as [|c a IH]; simpl; [reflexivity | now rewrite IH].
Qed.

Lemma lower_split (s a b : string) :
  PyStr.lower s = (a ++ b)%string ->
  exists s1 s2 : string,
    s = (s1 ++ s2)%string /\ PyStr.lower s1 = a /\ PyStr.lower s2 = b.
Proof.
  revert s; induction a as [|c a IH]; intros s Hs; simpl in Hs.
  - exists "", s. auto.
  - destruct s as [|c' s]; simpl in Hs; [discriminate|].
    injection Hs as Hc Hs. destruct (IH s Hs) as (s1 & s2 & -> & H1 & H2).
    exists (String c' s1), s2. simpl. rewrite Hc, H1. auto.
Qed.

(** The test of the code, lower-casing the name and searching a lower-case
    token, decides [ci_contains]. *)
Lemma contains_lower_ci (token name : string) :
  PyStr.lower token = token ->
  (PyStr.contains token (PyStr.lower name) = true <-> ci_contains token name).
Proof.
  intros Htok. rewrite contains_app. unfold ci_contains. split.
  - intros (pre & post & Hl).
    destruct (lower_split _ _ _ Hl) as (s1 & s23 & -> & H1 & H23).
    destruct (lower_split _ _ _ H23) as (s2 & s3 & -> & H2 & H3).
    exists s1, s2, s3. split; [reflexivity | congruence].
  - intros (pre & mid & post & -> & Hm).
    exists (PyStr.lower pre), (PyStr.lower post).
    rewrite !lower_app. congruence.
Qed.

Lemma is_inflow_spec (cat_name : string) :
  is_inflow cat_name = true <-> inflow_name cat_name.
Proof.
  unfold is_inflow, inflow_name. rewrite orb_true_iff.
  rewrite !contains_lower_ci by reflexivity. reflexivity.
Qed.

Lemma is_inflow_false (cat_name : string) :
  is_inflow cat_name = false <-> ~ inflow_name cat_name.
Proof.
  rewrite <- is_inflow_spec. destruct (is_inflow cat_name); split; intros;
    congruence.
Qed.

Lemma reconciliation_payee_spec (payee : string) :
  reconciliation_payee payee = true <-> reconciliation_name payee.
Proof.
  unfold reconciliation_payee, reconciliation_name. rewrite orb_true_iff.
  rewrite !contains_lower_ci by reflexivity. reflexivity.
Qed.

Lemma truthy_present (f : field string) : truthy f = true <-> present f.
Proof.
  unfold present. destruct f as [| |s]; simpl.
  - split; [discriminate | intros (s & Hs & _); discriminate].
  - split; [discriminate | intros (s & Hs & _); discriminate].
  - destruct s as [|c s]; simpl.
    + split; [discriminate | intros (s & Hs & Hne); congruence].
    + split; [intros _; exists (String c s); split; congruence | reflexivity].
Qed.

Lemma get_or_empty (f : field string) : get_or f "" = name_of f.
Proof.
  destruct f as [| |s]; try reflexivity. destruct s; reflexivity.
Qed.

(** ** The two arithmetics satisfy the laws *)

Lemma binary64_zero : @zero float Binary64 = 0%float.
Proof. vm_compute. reflexivity. Qed.

Lemma binary64_positive_not_zero (y : float) :
  PrimFloat.ltb 0%float y = true -> PrimFloat.eqb y 0%float = false.
Proof.
  rewrite FloatAxioms.ltb_spec, FloatAxioms.eqb_spec.
  unfold SFltb, SFeqb.
  replace (Prim2SF 0) with (S754_zero false) by reflexivity.
  destruct (Prim2SF y) as [s|s| |s m e]; simpl; try discriminate;
    try reflexivity.
  all: destruct s; simpl; try discriminate; reflexivity.
Qed.

#[export] Instance Binary64_laws : NumberLaws float.
Proof.
  split.
  - intros y. rewrite binary64_zero. apply binary64_positive_not_zero.
  - vm_compute. reflexivity.
Qed.

#[export] Instance Exact_laws : NumberLaws Qc.
Proof.
  split.
  - intros y. cbn [nltb neqb Exact]. unfold Qc_cmp. intros Hlt.
    destruct (Qccompare y zero) eqn:Hc; try reflexivity.
    apply Qceq_alt in Hc. subst y.
    assert (Hz : Qccompare zero zero = Eq) by (apply Qceq_alt; reflexivity).
    rewrite Hz in Hlt. discriminate.
  - vm_compute. reflexivity.
Qed.

(** ** The dict of category totals *)

Section TotalsFacts.
Context {num : Type} `{Number num}.

Implicit Types (m : totals num) (k : string) (v : aggregate num).

Lemma lookup_app m k k0 v0 :
  lookup k (m ++ [(k0, v0)]) =
  match lookup k m with
  | Some v => Some v
  | None => if String.eqb k0 k then Some v0 else None
  end.
Proof.
  induction m as [|[k' v'] m IH]; simpl; [reflexivity|].
  destruct (String.eqb k' k); [reflexivity | exact IH].
Qed.

Lemma lookup_update_same m k f :
  lookup k (update k f m) = option_map f (lookup k m).
Proof.
  induction m as [|[k' v'] m IH]; simpl; [reflexivity|].
  destruct (String.eqb k' k) eqn:E; simpl; rewrite E; [reflexivity | exact IH].
Qed.

Lemma lookup_update_other m k k' f :
  k' <> k -> lookup k' (update k f m) = lookup k' m.
Proof.
  intros Hne. induction m as [|[k0 v0] m IH]; simpl; [reflexivity|].
  destruct (String.eqb k0 k) eqn:E; simpl.
  - apply String.eqb_eq in E. subst k0.
    destruct (String.eqb k k') eqn:E'; [|reflexivity].
    apply String.eqb_eq in E'. congruence.
  - destruct (String.eqb k0 k'); [reflexivity | exact IH].
Qed.

Lemma lookup_ensure_same m k : lookup k (ensure k m) = Some (lookup_or_new k m).
Proof.
  unfold ensure, has_key, lookup_or_new.
  destruct (lookup k m) eqn:E; [exact E|].
  rewrite lookup_app, E, String.eqb_refl. reflexivity.
Qed.

Lemma lookup_ensure_other m k k' : k' <> k -> lookup k' (ensure k m) = lookup k' m.
Proof.
  intros Hne. unfold ensure. destruct (has_key k m); [reflexivity|].
  rewrite lookup_app. destruct (lookup k' m); [reflexivity|].
  destruct (String.eqb k k') eqn:E; [|reflexivity].
  apply String.eqb_eq in E. congruence.
Qed.

(** What [add_contribution] does to the dict, key by key. *)
Lemma lookup_add_contribution t k milli m k' :
  lookup k' (add_contribution t k milli m) =
  if String.eqb k' k then Some (contribute t milli (lookup_or_new k m))
  else lookup k' m.
Proof.
  unfold add_contribution. destruct (String.eqb k' k) eqn:E.
  - apply String.eqb_eq in E. subst k'.
    rewrite lookup_update_same, lookup_ensure_same. reflexivity.
  - apply String.eqb_neq in E.
    rewrite lookup_update_other, lookup_ensure_other by exact E. reflexivity.
Qed.

Lemma keys_update m k f : keys (update k f m) = keys m.
Proof.
  induction m as [|[k' v'] m IH]; simpl; [reflexivity|].
  destruct (String.eqb k' k); simpl; [reflexivity | now rewrite IH].
Qed.

Lemma lookup_In_keys m k : lookup k m <> None <-> In k (keys m).
Proof.
  induction m as [|[k' v'] m IH]; simpl.
  - split; [congruence | tauto].
  - destruct (String.eqb k' k) eqn:E.
    + apply String.eqb_eq in E. split; [auto | congruence].
    + apply String.eqb_neq in E. rewrite IH.
      split; [auto | intros [?|?]; congruence || assumption].
Qed.

Lemma keys_ensure m k k' : In k' (keys (ensure k m)) <-> k' = k \/ In k' (keys m).
Proof.
  unfold ensure, has_key. destruct (lookup k m) eqn:E.
  - split; [auto | intros [->|?]; [|assumption]].
    apply lookup_In_keys. congruence.
  - unfold keys. rewrite map_app, in_app_iff. simpl. intuition congruence.
Qed.

Lemma keys_add_contribution t k milli m k' :
  In k' (keys (add_contribution t k milli m)) <-> k' = k \/ In k' (keys m).
Proof.
  unfold add_contribution. rewrite keys_update. apply keys_ensure.
Qed.

Lemma In_update m k f k' v' :
  In (k', v') (update k f m) ->
  In (k', v') m \/ (k' = k /\ exists v0, In (k, v0) m /\ v' = f v0).
Proof.
  induction m as [|[k0 v0] m IH]; simpl; [tauto|].
  destruct (String.eqb k0 k) eqn:E; simpl.
  - apply String.eqb_eq in E. subst k0. intros [Heq|Hin]; [|auto].
    injection Heq as <- <-. right. split; [reflexivity|]. exists v0. auto.
  - intros [Heq|Hin]; [auto|].
    destruct (IH Hin) as [?|(-> & v1 & Hv1 & ->)]; [auto|].
    right. split; [reflexivity|]. exists v1. auto.
Qed.

Lemma In_ensure m k k' v' :
  In (k', v') (ensure k m) ->
  In (k', v') m \/ (k' = k /\ v' = {| total := zero; count := 0; transactions := [] |}).
Proof.
  unfold ensure. destruct (has_key k m); [auto|].
  rewrite in_app_iff. simpl. intros [?|[Heq|[]]]; [auto|].
  injection Heq as <- <-. auto.
Qed.

(** An entry after [add_contribution] is an entry from before, or sits at the
    key [k] and lists, besides [t], only transactions listed at [k] before. *)
Lemma In_add_contribution t k milli m k' v' :
  In (k', v') (add_contribution t k milli m) ->
  In (k', v') m \/
  (k' = k /\ forall t', In t' (transactions v') ->
     t' = t \/ exists v0, In (k, v0) m /\ In t' (transactions v0)).
Proof.
  unfold add_contribution. intros Hin. apply In_update in Hin.
  destruct Hin as [Hin|(-> & v0 & Hv0 & ->)].
  - apply In_ensure in Hin. destruct Hin as [?|[-> ->]]; [auto|].
    right. split; [reflexivity|]. simpl. tauto.
  - right. split; [reflexivity|]. simpl. intros t' Ht'.
    apply in_app_iff in Ht'. destruct Ht' as [Ht'|[<-|[]]]; [|auto].
    apply In_ensure in Hv0. destruct Hv0 as [?|[_ ->]].
    + right. exists v0. auto.
    + destruct Ht'.
Qed.

End TotalsFacts.

(** ** The aggregation loop *)

Section AggregateFacts.
Context {num : Type} `{Number num}.

Implicit Types (m : totals num) (k : string) (t : transaction).

Lemma aggregate_by_category_app (txs1 txs2 : list transaction) :
  aggregate_by_category (txs1 ++ txs2) =
  fold_left aggregate_step txs2 (aggregate_by_category (num := num) txs1).
Proof. unfold aggregate_by_category. apply fold_left_app. Qed.

(** On a split the step is the loop over the subtransactions. *)
Lemma aggregate_step_split m t :
  is_transfer t = false -> is_reconciliation t = false ->
  get_list (subtransactions t) <> [] ->
  aggregate_step m t = fold_left (aggregate_sub t) (get_list (subtransactions t)) m.
Proof.
  intros Ht Hr Hs. unfold aggregate_step. rewrite Ht, Hr.
  destruct (get_list (subtransactions t)); [congruence | reflexivity].
Qed.

Lemma aggregate_step_transfer m t : is_transfer t = true -> aggregate_step m t = m.
Proof. intros Ht. unfold aggregate_step. now rewrite Ht. Qed.

(** What one subtransaction does to the dict, key by key. *)
Lemma lookup_aggregate_sub t m (sub : subtransaction) k :
  lookup k (aggregate_sub t m sub) =
  if is_inflow (sub_category sub) then lookup k m
  else if String.eqb k (sub_category sub)
       then Some (contribute t (get_int (sub_amount sub))
                    (lookup_or_new (sub_category sub) m))
       else lookup k m.
Proof.
  unfold aggregate_sub. fold (sub_category sub).
  destruct (is_inflow (sub_category sub)); [reflexivity|].
  apply lookup_add_contribution.
Qed.

Lemma keys_aggregate_sub t m (sub : subtransaction) k :
  In k (keys (aggregate_sub t m sub)) <->
  In k (keys m) \/ (is_inflow (sub_category sub) = false /\ k = sub_category sub).
Proof.
  unfold aggregate_sub. fold (sub_category sub).
  destruct (is_inflow (sub_category sub)).
  - intuition congruence.
  - rewrite keys_add_contribution. intuition.
Qed.

Lemma keys_fold_aggregate_sub t (subs : list subtransaction) m k :
  In k (keys (fold_left (aggregate_sub t) subs m)) <->
  In k (keys m) \/
  exists sub, In sub subs /\ is_inflow (sub_category sub) = false
              /\ k = sub_category sub.
Proof.
  revert m; induction subs as [|sub subs IH]; intros m; simpl.
  - split; [auto | intros [?|(sub & [] & _)]; assumption].
  - rewrite IH, keys_aggregate_sub. split.
    + intros [[?|[Hi ->]]|(s & Hs & Hi & ->)]; [auto| |].
      * right. exists sub. auto.
      * right. exists s. auto.
    + intros [?|(s & [<-|Hs] & Hi & ->)]; [auto|auto|].
      right. exists s. auto.
Qed.

(** The keys a step can add: the names of the counted subtransactions of a
    split, the own name of a transaction without subtransactions. *)
Lemma keys_aggregate_step m t k :
  In k (keys (aggregate_step m t)) ->
  In k (keys m) \/
  (is_transfer t = false /\ is_reconciliation t = false /\
   ((exists sub, In sub (counted_subs t) /\ k = sub_category sub) \/
    (get_list (subtransactions t) = [] /\
     is_inflow (get_or (category_name t) "Uncategorized") = false /\
     k = get_or (category_name t) "Uncategorized"))).
Proof.
  unfold aggregate_step.
  destruct (is_transfer t); [auto|].
  destruct (is_reconciliation t); [auto|].
  destruct (get_list (subtransactions t)) as [|s subs] eqn:Es.
  - destruct (is_inflow (get_or (category_name t) "Uncategorized")) eqn:Ei;
      [auto|].
    rewrite keys_add_contribution. intros [->|?]; [|auto].
    right. repeat split; auto.
  - rewrite keys_fold_aggregate_sub. intros [?|(sub & Hs & Hi & ->)]; [auto|].
    right. repeat split; auto. left. exists sub. split; [|reflexivity].
    unfold counted_subs. rewrite Es. apply filter_In. split; [exact Hs|].
    now rewrite Hi.
Qed.

(** No key of the aggregate is an inflow name. *)
Lemma keys_not_inflow (txs : list transaction) k :
  In k (keys (aggregate_by_category (num := num) txs)) -> is_inflow k = false.
Proof.
  induction txs as [|t txs IH] using rev_ind in k |- *.
  - intros [].
  - rewrite aggregate_by_category_app. simpl. intros Hk.
    apply keys_aggregate_step in Hk.
    destruct Hk as [Hk|(_ & _ & [(sub & Hs & ->)|(_ & Hi & ->)])].
    + apply IH, Hk.
    + unfold counted_subs in Hs. apply filter_In in Hs.
      destruct Hs as [_ Hs]. now destruct (is_inflow (sub_category sub)).
    + exact Hi.
Qed.

Lemma aggregate_step_skipped m t :
  is_transfer t = true \/ is_reconciliation t = true -> aggregate_step m t = m.
Proof.
  intros [Ht|Hr]; unfold aggregate_step.
  - now rewrite Ht.
  - rewrite Hr. now destruct (is_transfer t).
Qed.

(** Where a key of the output comes from. *)
Lemma keys_origin (txs : list transaction) k :
  In k (keys (aggregate_by_category (num := num) txs)) ->
  exists t, In t txs /\ is_transfer t = false /\ is_reconciliation t = false /\
    ((exists sub, In sub (counted_subs t) /\ k = sub_category sub) \/
     (get_list (subtransactions t) = [] /\
      k = get_or (category_name t) "Uncategorized")).
Proof.
  induction txs as [|t txs IH] using rev_ind in k |- *.
  - intros [].
  - rewrite aggregate_by_category_app. simpl. intros Hk.
    apply keys_aggregate_step in Hk.
    destruct Hk as [Hk|(Ht & Hr & Hfrom)].
    + destruct (IH _ Hk) as (t0 & Hin & H0). exists t0.
      split; [apply in_or_app; now left | exact H0].
    + exists t. split; [apply in_or_app; right; now left|].
      split; [exact Ht|]. split; [exact Hr|].
      destruct Hfrom as [Hsub|(Hs & _ & Hk)]; [now left | right; auto].
Qed.

(** The transactions listed by a step are listed before or are [t], and [t]
    is listed only when it passed the transfer and reconciliation tests. *)
Lemma listed_fold_aggregate_sub t (subs : list subtransaction) m k v t' :
  In (k, v) (fold_left (aggregate_sub t) subs m) -> In t' (transactions v) ->
  t' = t \/ exists k0 v0, In (k0, v0) m /\ In t' (transactions v0).
Proof.
  revert m k v; induction subs as [|sub subs IH]; intros m k v; simpl.
  - intros Hin Ht. right. exists k, v. auto.
  - intros Hin Ht. destruct (IH _ _ _ Hin Ht) as [?|(k0 & v0 & Hin0 & Ht0)];
      [auto|].
    unfold aggregate_sub in Hin0.
    destruct (is_inflow _); [right; exists k0, v0; auto|].
    apply In_add_contribution in Hin0.
    destruct Hin0 as [?|[-> Hl]]; [right; exists k0, v0; auto|].
    destruct (Hl _ Ht0) as [?|(v1 & Hv1 & Ht1)]; [auto|].
    right. exists (get_or (sub_category_name sub) "Uncategorized"), v1. auto.
Qed.

Lemma listed_aggregate_step m t k v t' :
  In (k, v) (aggregate_step m t) -> In t' (transactions v) ->
  (t' = t /\ is_transfer t = false /\ is_reconciliation t = false) \/
  exists k0 v0, In (k0, v0) m /\ In t' (transactions v0).
Proof.
  unfold aggregate_step.
  destruct (is_transfer t); [intros; right; exists k, v; auto|].
  destruct (is_reconciliation t); [intros; right; exists k, v; auto|].
  destruct (get_list (subtransactions t)) as [|s subs].
  - destruct (is_inflow _); [intros; right; exists k, v; auto|].
    intros Hin Ht. apply In_add_contribution in Hin.
    destruct Hin as [?|[-> Hl]]; [right; exists k, v; auto|].
    destruct (Hl _ Ht) as [?|(v1 & Hv1 & Ht1)]; [auto|].
    right. exists (get_or (category_name t) "Uncategorized"), v1. auto.
  - intros Hin Ht.
    destruct (listed_fold_aggregate_sub _ _ _ _ _ _ Hin Ht) as [?|?]; auto.
Qed.

Lemma listed_not_excluded (txs : list transaction) k v t :
  In (k, v) (aggregate_by_category (num := num) txs) -> In t (transactions v) ->
  In t txs /\ is_transfer t = false /\ is_reconciliation t = false.
Proof.
  induction txs as [|t0 txs IH] using rev_ind in k, v |- *.
  - intros [].
  - rewrite aggregate_by_category_app. simpl. intros Hin Ht.
    destruct (listed_aggregate_step _ _ _ _ _ Hin Ht)
      as [(-> & Htr & Hrec)|(k0 & v0 & Hin0 & Ht0)].
    + rewrite in_app_iff. simpl. auto.
    + destruct (IH _ _ Hin0 Ht0) as (? & ? & ?).
      rewrite in_app_iff. auto.
Qed.

End AggregateFacts.

(** ** Totals and counts do not depend on what the loop does not read *)

Section FiguresFacts.
Context {num : Type} `{Number num}.

Implicit Types (m : totals num) (k : string) (t : transaction).

Lemma figures_has_key m1 m2 k :
  figures m1 = figures m2 -> has_key k m1 = has_key k m2.
Proof.
  unfold has_key. revert m2; induction m1 as [|[k1 v1] m1 IH];
    intros [|[k2 v2] m2] Hf; try discriminate Hf; [reflexivity|].
  simpl in Hf. injection Hf as Hk _ _ Hf. subst k2. simpl.
  destruct (String.eqb k1 k); [reflexivity | apply IH, Hf].
Qed.

Lemma figures_ensure m1 m2 k :
  figures m1 = figures m2 -> figures (ensure k m1) = figures (ensure k m2).
Proof.
  intros Hf. unfold ensure. rewrite (figures_has_key _ _ k Hf).
  destruct (has_key k m2); [exact Hf|].
  unfold figures in *. rewrite !map_app. now rewrite Hf.
Qed.

Lemma figures_update m1 m2 k t1 t2 milli :
  figures m1 = figures m2 ->
  figures (update k (contribute t1 milli) m1) =
  figures (update k (contribute t2 milli) m2).
Proof.
  unfold figures.
  revert m2; induction m1 as [|[k1 v1] m1 IH];
    intros [|[k2 v2] m2] Hf; try discriminate Hf; [reflexivity|].
  simpl in Hf. injection Hf as Hk Ht Hc Hf. subst k2. simpl.
  destruct (String.eqb k1 k); simpl.
  - now rewrite Ht, Hc, Hf.
  - rewrite Ht, Hc. f_equal. apply IH, Hf.
Qed.

Lemma figures_add_contribution m1 m2 k t1 t2 milli :
  figures m1 = figures m2 ->
  figures (add_contribution t1 k milli m1) =
  figures (add_contribution t2 k milli m2).
Proof.
  intros Hf. unfold add_contribution.
  apply figures_update, figures_ensure, Hf.
Qed.

Lemma figures_fold_aggregate_sub (subs : list subtransaction) m1 m2 t1 t2 :
  figures m1 = figures m2 ->
  figures (fold_left (aggregate_sub t1) subs m1) =
  figures (fold_left (aggregate_sub t2) subs m2).
Proof.
  revert m1 m2; induction subs as [|sub subs IH]; intros m1 m2 Hf; simpl;
    [exact Hf|].
  apply IH. unfold aggregate_sub.
  destruct (is_inflow _); [exact Hf | apply figures_add_contribution, Hf].
Qed.

Lemma figures_aggregate_step m1 m2 t1 t2 :
  figures m1 = figures m2 -> same_reads t1 t2 ->
  figures (aggregate_step m1 t1) = figures (aggregate_step m2 t2).
Proof.
  intros Hf (Ht & Hr & Hs & Hown). unfold aggregate_step.
  rewrite <- Ht, <- Hr, <- Hs.
  destruct (is_transfer t1); [exact Hf|].
  destruct (is_reconciliation t1); [exact Hf|].
  destruct (get_list (subtransactions t1)) as [|s subs].
  - destruct (Hown eq_refl) as [<- <-].
    destruct (is_inflow _); [exact Hf | apply figures_add_contribution, Hf].
  - apply figures_fold_aggregate_sub, Hf.
Qed.

Lemma same_reads_refl t : same_reads t t.
Proof. unfold same_reads. auto. Qed.

Lemma same_reads_with_own t cat_name amt :
  get_list (subtransactions t) <> [] -> same_reads (with_own t cat_name amt) t.
Proof.
  intros Hs. unfold same_reads, is_transfer, is_reconciliation. simpl.
  repeat split; try reflexivity; intros; congruence.
Qed.

Lemma figures_fold_aggregate_step (txs : list transaction) m1 m2 :
  figures m1 = figures m2 ->
  figures (fold_left aggregate_step txs m1) =
  figures (fold_left aggregate_step txs m2).
Proof.
  revert m1 m2; induction txs as [|t txs IH]; intros m1 m2 Hf; simpl;
    [exact Hf|].
  apply IH, figures_aggregate_step; [exact Hf | apply same_reads_refl].
Qed.

(** Replacing the own category name and amount of a split anywhere in the
    input changes no key, total or count of the output. *)
Lemma figures_with_own (pre post : list transaction) t cat_name amt :
  get_list (subtransactions t) <> [] ->
  figures (aggregate_by_category (num := num)
             (pre ++ with_own t cat_name amt :: post)) =
  figures (aggregate_by_category (pre ++ t :: post)).
Proof.
  intros Hs. rewrite !aggregate_by_category_app. simpl.
  apply figures_fold_aggregate_step, figures_aggregate_step;
    [reflexivity | apply same_reads_with_own, Hs].
Qed.

End FiguresFacts.

(** ** Split expansion *)

(** A split paid to a reconciliation payee, or moved between two accounts,
    has subtransactions that are no inflow, and nothing is added for them;
    and a subtransaction booked under the name ["Split"] makes that key. *)
Lemma split_skipped_or_named :
  get_list (subtransactions Ex.reconciliation_split) <> []
  /\ (forall sub : subtransaction,
        In sub (get_list (subtransactions Ex.reconciliation_split)) ->
        is_inflow (sub_category sub) = false)
  /\ aggregate_by_category (num := float) [Ex.reconciliation_split] = []
  /\ aggregate_by_category (num := float) [Ex.transfer_split] = []
  /\ keys (aggregate_by_category (num := float) [Ex.split_named_split])
     = ["Split"; "Dining"].
Proof.
  split; [discriminate|]. split.
  - intros sub [<-|[<-|[]]]; reflexivity.
  - split; [reflexivity|]. split; vm_compute; reflexivity.
Qed.

(** C1, amended. For a transaction with at least one subtransaction no key,
    total or count of the aggregate depends on the parent's own category name
    and amount.  When the transaction is not skipped as a transfer (a truthy
    transfer-account id) or as a reconciliation (by its payee name), the step
    is the loop over its subtransactions: each subtransaction whose name is
    not an inflow name subtracts its amount in major units from the total of
    its category (["Uncategorized"] when the name is missing), adds one to
    the count and appends the parent; an inflow subtransaction changes
    nothing.  A skipped transaction changes nothing at all.  Every key of
    the output is the name of a counted subtransaction or the own name of a
    counted transaction without subtransactions: the own name of a split,
    ["Split"], is a key only when one of those carries it.  The split of
    10.00 gives Groceries 6.0 with count 1 and Dining 4.0 with count 1, and
    no key ["Split"]. *)
Theorem split_expansion :
  (forall (num : Type) (N : Number num) (m : totals num) (t : transaction),
     get_list (subtransactions t) <> [] ->
     (forall cat_name amt,
        figures (aggregate_step m (with_own t cat_name amt))
          = figures (aggregate_step m t))
     /\ (is_transfer t = false -> is_reconciliation t = false ->
         aggregate_step m t
           = fold_left (aggregate_sub t) (get_list (subtransactions t)) m
         /\ (forall k, In k (keys (aggregate_step m t)) <->
               In k (keys m) \/
               exists sub, In sub (counted_subs t) /\ k = sub_category sub)))
  /\ (forall (num : Type) (N : Number num) (m : totals num) (t : transaction)
        (sub : subtransaction),
        (inflow_name (sub_category sub) -> aggregate_sub t m sub = m)
        /\ (~ inflow_name (sub_category sub) ->
            lookup (sub_category sub) (aggregate_sub t m sub)
              = Some {| total := nsub (total (lookup_or_new (sub_category sub) m))
                                   (to_major (get_int (sub_amount sub)));
                        count := S (count (lookup_or_new (sub_category sub) m));
                        transactions :=
                          transactions (lookup_or_new (sub_category sub) m) ++ [t] |}
            /\ forall k, k <> sub_category sub ->
                 lookup k (aggregate_sub t m sub) = lookup k m))
  /\ (forall f : field string,
        f = Absent \/ f = Null \/ f = Val "" ->
        sub_category {| sub_amount := None; sub_category_name := f |}
          = "Uncategorized")
  /\ aggregate_by_category (num := float) [Ex.split]
       = [("Groceries", {| total := 6%float; count := 1;
                           transactions := [Ex.split] |});
          ("Dining", {| total := 4%float; count := 1;
                        transactions := [Ex.split] |})]
  /\ lookup "Split" (aggregate_by_category (num := float) [Ex.split]) = None
  /\ (forall (num : Type) (N : Number num) (m : totals num) (t : transaction),
        is_transfer t = true \/ is_reconciliation t = true ->
        aggregate_step m t = m)
  /\ (forall (num : Type) (N : Number num) (txs : list transaction)
        (k : string),
        In k (keys (aggregate_by_category (num := num) txs)) ->
        exists t, In t txs /\ is_transfer t = false
                  /\ is_reconciliation t = false /\
          ((exists sub, In sub (counted_subs t) /\ k = sub_category sub) \/
           (get_list (subtransactions t) = [] /\
            k = get_or (category_name t) "Uncategorized"))).
Proof.
  split; [|split; [|split; [|split; [|split; [|split]]]]].
  - intros num N m t Hs. split.
    + intros cat_name amt. apply figures_aggregate_step;
        [reflexivity | apply same_reads_with_own, Hs].
    + intros Ht Hr. split; [apply aggregate_step_split; assumption|].
      intros k. rewrite aggregate_step_split by assumption.
      rewrite keys_fold_aggregate_sub. unfold counted_subs.
      split; (intros [?|(sub & Hsub & Hk)]; [auto|right; exists sub]).
      * destruct Hk as [Hi ->]. split; [|reflexivity].
        apply filter_In. split; [exact Hsub | now rewrite Hi].
      * apply filter_In in Hsub. destruct Hsub as [Hsub Hi].
        destruct (is_inflow (sub_category sub)); [discriminate | auto].
  - intros num N m t sub. split.
    + intros Hi. apply is_inflow_spec in Hi. unfold aggregate_sub.
      fold (sub_category sub). now rewrite Hi.
    + intros Hi. apply is_inflow_false in Hi. split.
      * rewrite lookup_aggregate_sub, Hi, String.eqb_refl. reflexivity.
      * intros k Hk. rewrite lookup_aggregate_sub, Hi.
        apply String.eqb_neq in Hk. now rewrite Hk.
  - intros f [->|[->| ->]]; reflexivity.
  - vm_compute. reflexivity.
  - vm_compute. reflexivity.
  - intros num N m t. apply aggregate_step_skipped.
  - intros num N txs k. apply keys_origin.
Qed.

Lemma split_expansion_witness :
  is_transfer Ex.split = false /\ is_reconciliation Ex.split = false /\
  get_list (subtransactions Ex.split) <> [] /\
  aggregate_step (num := float) [] Ex.split
    = fold_left (aggregate_sub Ex.split) (get_list (subtransactions Ex.split)) [].
Proof.
  assert (Ht : is_transfer Ex.split = false) by reflexivity.
  assert (Hr : is_reconciliation Ex.split = false) by reflexivity.
  assert (Hs : get_list (subtransactions Ex.split) <> []) by discriminate.
  split; [exact Ht | split; [exact Hr | split; [exact Hs|]]].
  exact (proj1 (proj2 (proj1 split_expansion float Binary64 [] Ex.split Hs)
                  Ht Hr)).
Defined.

(** ** Budget status *)

Section StatusFacts.
Context {num : Type} `{Number num}.

(** The division of [percent_used] happens after the zero budgets were
    skipped, so it does not raise. *)
Lemma percent_used_of_ok (c : category) :
  neqb (budgeted_major c) zero = false ->
  percent_used_of (activity_major c) (budgeted_major c) = Ok (percent_used c).
Proof.
  intros Hz. unfold percent_used_of, percent_used, truediv.
  destruct (nltb zero (budgeted_major c)); [|reflexivity].
  rewrite Hz. reflexivity.
Qed.

Lemma status_step_place (thr : Z) (res : category_status num) (c : category) :
  status_step thr res c = Ok (place (classify thr c) c res).
Proof.
  unfold status_step, classify.
  fold (budgeted_major c) (activity_major c) (balance_major c) (category_label c).
  destruct (is_inflow (category_label c)); [reflexivity|].
  destruct (neqb (budgeted_major c) zero) eqn:Hz; [reflexivity|].
  rewrite (percent_used_of_ok c Hz). cbn [bind].
  destruct (nltb (balance_major c) zero); [reflexivity|].
  destruct (nleb_int thr (percent_used c)); [reflexivity|].
  destruct (nltb (nmul (budgeted_major c) (of_int 2)) (balance_major c));
    reflexivity.
Qed.

Lemma placed_cons (cl : status_class) (thr : Z) (c : category)
  (cats : list category) :
  placed cl thr (c :: cats) =
  (if status_class_eqb (classify thr c) cl then [entry_of cl c] else [])
  ++ placed cl thr cats.
Proof.
  unfold placed. simpl.
  destruct (status_class_eqb (classify thr c) cl); reflexivity.
Qed.

Lemma for_each_status (thr : Z) (cats : list category)
  (res : category_status num) :
  for_each (status_step thr) cats res =
  Ok {| overspent := overspent res ++ placed Overspent thr cats;
        warning := warning res ++ placed Warning thr cats;
        underfunded := underfunded res ++ placed Underfunded thr cats |}.
Proof.
  revert res; induction cats as [|c cats IH]; intros res.
  - simpl. unfold placed. simpl. rewrite !app_nil_r. now destruct res.
  - cbn [for_each]. rewrite status_step_place. cbn [bind]. rewrite IH.
    rewrite !placed_cons.
    destruct (classify thr c); simpl; rewrite <- ?app_assoc; reflexivity.
Qed.

Lemma get_category_status_placed (cats : list category) (thr : Z) :
  get_category_status cats thr =
  Ok {| overspent := placed Overspent thr cats;
        warning := placed Warning thr cats;
        underfunded := placed Underfunded thr cats |}.
Proof. unfold get_category_status. now rewrite for_each_status. Qed.

Lemma placed_name (cl : status_class) (thr : Z) (cats : list category)
  (e : status_entry num) :
  In e (placed cl thr cats) -> cl <> Omitted -> is_inflow (e_name e) = false.
Proof.
  unfold placed. rewrite in_map_iff. intros (c & <- & Hc) Hcl.
  apply filter_In in Hc. destruct Hc as [_ Hc]. simpl.
  unfold classify in Hc. destruct (is_inflow (category_label c));
    [|reflexivity].
  destruct cl; simpl in Hc; congruence.
Qed.

End StatusFacts.

(** A snapshot with an inflow name, a budget and a balance below zero is in
    none of the three lists. *)
Lemma inflow_snapshot_unlisted :
  inflow_name
    (category_label (Ex.snapshot "Inflow: Ready to Assign" 50000 (-60000) (-10000)))
  /\ neqb (budgeted_major (num := float)
             (Ex.snapshot "Inflow: Ready to Assign" 50000 (-60000) (-10000)))
       zero = false
  /\ nltb (balance_major (num := float)
             (Ex.snapshot "Inflow: Ready to Assign" 50000 (-60000) (-10000)))
       zero = true
  /\ get_category_status (num := float)
       [Ex.snapshot "Inflow: Ready to Assign" 50000 (-60000) (-10000)] 80
     = Ok empty_status.
Proof.
  split; [apply is_inflow_spec; reflexivity|].
  split; [vm_compute; reflexivity|]. split; vm_compute; reflexivity.
Qed.

(** C2, amended. [get_category_status] puts every snapshot in the list of its
    class and in no other list.  A snapshot with an inflow name or with a
    budget of zero has no class, whatever its balance.  For the others the
    class is decided in this order: Overspent when the balance is below zero,
    whatever the percentage; else Warning when [percent_used] is at least the
    threshold, the integer threshold and the float compared by value; else
    Underfunded when the balance exceeds twice the budget; else no class.
    Budget 100000, activity -85000, balance 15000 at threshold 80 is a
    Warning with [percent_used] 85; budget 50000, activity -60000, balance
    -10000 is Overspent.  A [percent_used] of 2^53 is a Warning at the
    threshold 2^53 and in no list at the threshold 2^53 + 1. *)
Theorem status_priority :
  (forall (num : Type) (N : Number num) (cats : list category) (thr : Z),
     get_category_status cats thr =
     Ok {| overspent := placed Overspent thr cats;
           warning := placed Warning thr cats;
           underfunded := placed Underfunded thr cats |})
  /\ (forall (num : Type) (N : Number num) (thr : Z) (c : category),
        ~ inflow_name (category_label c) ->
        neqb (budgeted_major c) zero = false ->
        (nltb (balance_major c) zero = true -> classify thr c = Overspent)
        /\ (nltb (balance_major c) zero = false ->
            (nleb_int thr (percent_used c) = true ->
             classify thr c = Warning)
            /\ (nleb_int thr (percent_used c) = false ->
                (nltb (nmul (budgeted_major c) (of_int 2)) (balance_major c) = true ->
                 classify thr c = Underfunded)
                /\ (nltb (nmul (budgeted_major c) (of_int 2)) (balance_major c) = false ->
                    classify thr c = Omitted))))
  /\ (forall (num : Type) (N : Number num), NumberLaws num ->
      forall (thr : Z) (c : category),
        get_int (budgeted c) = 0 ->
        classify thr c = Omitted
        /\ get_category_status [c] thr = Ok empty_status)
  /\ get_category_status (num := float) [Ex.snapshot "Dining" 100000 (-85000) 15000] 80
     = Ok {| overspent := [];
             warning := [{| e_name := "Dining"; e_budgeted := 100%float;
                            e_activity := 85%float; e_balance := 15%float;
                            e_percent_used := Some 85%float |}];
             underfunded := [] |}
  /\ get_category_status (num := float) [Ex.snapshot "Fuel" 50000 (-60000) (-10000)] 80
     = Ok {| overspent := [{| e_name := "Fuel"; e_budgeted := 50%float;
                              e_activity := 60%float; e_balance := (-10)%float;
                              e_percent_used := Some 120%float |}];
             warning := [];
             underfunded := [] |}
  /\ (forall (num : Type) (N : Number num) (thr : Z) (c : category),
        inflow_name (category_label c) -> classify thr c = Omitted)
  /\ (forall (thr : Z) (x : float),
        nleb_int thr x = Z_leb_SF thr (Prim2SF x))
  /\ percent_used (num := float)
       (Ex.snapshot "Rent" 1000 (-90071992547409920) 0)
     = of_int (2 ^ 53)
  /\ classify (num := float) (2 ^ 53)
       (Ex.snapshot "Rent" 1000 (-90071992547409920) 0) = Warning
  /\ get_category_status (num := float)
       [Ex.snapshot "Rent" 1000 (-90071992547409920) 0] (2 ^ 53 + 1)
     = Ok empty_status.
Proof.
  split; [|split; [|split; [|split; [|split; [|split; [|split; [|split; [|split]]]]]]]].
  - intros. apply get_category_status_placed.
  - intros num N thr c Hi Hz. apply is_inflow_false in Hi.
    unfold classify. rewrite Hi, Hz. split.
    + intros ->. reflexivity.
    + intros ->. split.
      * intros ->. reflexivity.
      * intros ->. split; intros ->; reflexivity.
  - intros num N L thr c Hb.
    assert (Hc : classify thr c = Omitted).
    { unfold classify, budgeted_major.
      rewrite Hb, zero_major. destruct (is_inflow _); reflexivity. }
    split; [exact Hc|].
    unfold get_category_status. cbn [for_each].
    rewrite status_step_place, Hc. reflexivity.
  - vm_compute. reflexivity.
  - vm_compute. reflexivity.
  - intros num N thr c Hi. apply is_inflow_spec in Hi.
    unfold classify. now rewrite Hi.
  - intros thr x. reflexivity.
  - vm_compute. reflexivity.
  - vm_compute. reflexivity.
  - vm_compute. reflexivity.
Qed.

Lemma status_priority_witness :
  (get_int (budgeted (Ex.snapshot "Rent" 0 (-5000) (-5000))) = 0 /\
   classify (num := float) 80 (Ex.snapshot "Rent" 0 (-5000) (-5000)) = Omitted)
  /\ (~ inflow_name (category_label (Ex.snapshot "Fuel" 50000 (-60000) (-10000))) /\
      neqb (budgeted_major (num := float) (Ex.snapshot "Fuel" 50000 (-60000) (-10000)))
        zero = false /\
      nltb (balance_major (num := float) (Ex.snapshot "Fuel" 50000 (-60000) (-10000)))
        zero = true /\
      classify (num := float) 80 (Ex.snapshot "Fuel" 50000 (-60000) (-10000))
        = Overspent).
Proof.
  split.
  - split; [reflexivity|].
    apply (proj1 (proj2 (proj2 status_priority)) float Binary64 Binary64_laws 80
             (Ex.snapshot "Rent" 0 (-5000) (-5000)) eq_refl).
  - assert (Hi : ~ inflow_name (category_label (Ex.snapshot "Fuel" 50000 (-60000) (-10000))))
      by (apply is_inflow_false; reflexivity).
    assert (Hz : neqb (budgeted_major (num := float)
                         (Ex.snapshot "Fuel" 50000 (-60000) (-10000))) zero = false)
      by (vm_compute; reflexivity).
    assert (Hb : nltb (balance_major (num := float)
                         (Ex.snapshot "Fuel" 50000 (-60000) (-10000))) zero = true)
      by (vm_compute; reflexivity).
    split; [exact Hi | split; [exact Hz | split; [exact Hb|]]].
    exact (proj1 (proj1 (proj2 status_priority) float Binary64 80
                    (Ex.snapshot "Fuel" 50000 (-60000) (-10000)) Hi Hz) Hb).
Defined.

(** ** Exclusions *)

(** C3. No key of the output of [aggregate_by_category] and no name in the
    three lists of [get_category_status] contains "inflow" or "ready to
    assign" in any mix of upper and lower case; the status lists are always
    produced.  ["Inflow"] and ["INFLOW: Ready to Assign"] are such names, and
    a transaction or a snapshot so named is reported nowhere. *)
Theorem inflow_never_reported :
  (forall (num : Type) (N : Number num) (txs : list transaction) (k : string),
     In k (keys (aggregate_by_category (num := num) txs)) -> ~ inflow_name k)
  /\ (forall (num : Type) (N : Number num) (cats : list category) (thr : Z),
        exists r : category_status num,
          get_category_status cats thr = Ok r /\
          forall e : status_entry num,
            In e (overspent r ++ warning r ++ underfunded r) ->
            ~ inflow_name (e_name e))
  /\ inflow_name "Inflow" /\ inflow_name "INFLOW: Ready to Assign"
  /\ inflow_name "Ready To Assign"
  /\ aggregate_by_category (num := float) [Ex.income] = []
  /\ aggregate_by_category (num := float) [Ex.split_with_inflow]
     = [("Groceries", {| total := 6%float; count := 1;
                         transactions := [Ex.split_with_inflow] |})]
  /\ get_category_status (num := float)
       [Ex.snapshot "INFLOW: Ready to Assign" 500000 0 (-500000)] 80
     = Ok empty_status.
Proof.
  split; [|split; [|repeat split]].
  - intros num N txs k Hk. apply is_inflow_false.
    apply (keys_not_inflow txs k Hk).
  - intros num N cats thr. eexists. split;
      [apply get_category_status_placed|].
    cbn [overspent warning underfunded]. intros e He.
    apply is_inflow_false. rewrite !in_app_iff in He.
    destruct He as [He|[He|He]];
      apply (placed_name _ _ _ _ He); discriminate.
  - apply is_inflow_spec. reflexivity.
  - apply is_inflow_spec. reflexivity.
  - apply is_inflow_spec. reflexivity.
Qed.

Lemma inflow_never_reported_witness :
  In "Groceries" (keys (aggregate_by_category (num := float)
                          [Ex.income; Ex.split_with_inflow]))
  /\ ~ inflow_name "Groceries".
Proof.
  assert (Hk : In "Groceries" (keys (aggregate_by_category (num := float)
                                       [Ex.income; Ex.split_with_inflow])))
    by (vm_compute; left; reflexivity).
  split; [exact Hk|].
  exact (proj1 inflow_never_reported float Binary64
           [Ex.income; Ex.split_with_inflow] "Groceries" Hk).
Defined.

(** A transfer-account key holding the empty string is present and not null,
    and the transaction is counted. *)
Lemma empty_transfer_id_counted :
  present_non_null (transfer_account_id Ex.empty_transfer_id)
  /\ aggregate_by_category (num := float) [Ex.empty_transfer_id]
     = [("Food", {| total := 1%float; count := 1;
                    transactions := [Ex.empty_transfer_id] |})]
  /\ aggregate_by_category (num := float) ([] ++ Ex.empty_transfer_id :: [])
     <> aggregate_by_category ([] ++ []).
Proof.
  split; [exists ""; reflexivity | split; [vm_compute; reflexivity|]].
  vm_compute. discriminate.
Qed.

(** C4, amended. A transaction whose transfer-account id is present, not null
    and not the empty string contributes to no category: the output is the
    output of the sequence without it, and no transaction list of any output
    holds such a transaction. *)
Theorem transfers_never_counted :
  forall (num : Type) (N : Number num),
    (forall (pre post : list transaction) (t : transaction),
       present (transfer_account_id t) ->
       aggregate_by_category (num := num) (pre ++ t :: post)
         = aggregate_by_category (pre ++ post))
    /\ (forall (txs : list transaction) (k : string) (v : aggregate num)
          (t : transaction),
          In (k, v) (aggregate_by_category txs) -> In t (transactions v) ->
          ~ present (transfer_account_id t)).
Proof.
  intros num N. split.
  - intros pre post t Ht. apply truthy_present in Ht.
    rewrite !aggregate_by_category_app. simpl.
    now rewrite (aggregate_step_transfer _ _ Ht).
  - intros txs k v t Hin Ht Hp. apply truthy_present in Hp.
    destruct (listed_not_excluded txs k v t Hin Ht) as (_ & Hf & _).
    unfold is_transfer in Hf. congruence.
Qed.

Lemma transfers_never_counted_witness :
  present (transfer_account_id Ex.transfer)
  /\ aggregate_by_category (num := float)
       ([Ex.split] ++ Ex.transfer :: [Ex.purchase "2024-01-09" (-700) "Fuel"])
     = aggregate_by_category ([Ex.split] ++ [Ex.purchase "2024-01-09" (-700) "Fuel"]).
Proof.
  assert (Hp : present (transfer_account_id Ex.transfer))
    by (exists "acct-2"; split; [reflexivity | discriminate]).
  split; [exact Hp|].
  exact (proj1 (transfers_never_counted float Binary64) [Ex.split]
           [Ex.purchase "2024-01-09" (-700) "Fuel"] Ex.transfer Hp).
Defined.

(** ** Uncategorized transactions *)

Lemma get_uncategorized_filter (txs : list transaction) :
  get_uncategorized_transactions txs = filter uncategorized_keep txs.
Proof.
  induction txs as [|t txs IH]; simpl; [reflexivity|].
  unfold uncategorized_keep.
  destruct (is_transfer t); simpl; [exact IH|].
  destruct (is_reconciliation t); simpl; [exact IH|].
  destruct (is_inflow (get_or (category_name t) "")); simpl; [exact IH|].
  destruct (is_uncategorized t); [now rewrite IH | exact IH].
Qed.

Lemma falsy_id (f : field string) :
  truthy f = false <-> f = Absent \/ f = Null \/ f = Val "".
Proof.
  destruct f as [| |s]; simpl.
  - tauto.
  - tauto.
  - destruct s; simpl; split; try tauto; try discriminate.
    + intros [?|[?|?]]; discriminate.
Qed.

Lemma is_uncategorized_spec (t : transaction) :
  is_uncategorized t = true <->
  category_id t = Absent \/ category_id t = Null \/ category_id t = Val ""
  \/ category_name t = Val "Uncategorized".
Proof.
  unfold is_uncategorized. rewrite orb_true_iff, negb_true_iff, falsy_id.
  assert (Hn : match category_name t with
               | Val s => String.eqb s "Uncategorized"
               | _ => false
               end = true <-> category_name t = Val "Uncategorized").
  { destruct (category_name t) as [| |s]; try (split; discriminate).
    rewrite String.eqb_eq. split; congruence. }
  rewrite Hn. tauto.
Qed.

Lemma uncategorized_keep_rule (t : transaction) :
  uncategorized_keep t = true <-> uncategorized_rule t.
Proof.
  unfold uncategorized_keep, uncategorized_rule.
  rewrite !andb_true_iff, !negb_true_iff, is_uncategorized_spec.
  rewrite get_or_empty, is_inflow_false.
  unfold is_reconciliation. rewrite get_or_empty.
  assert (Hr : reconciliation_payee (name_of (payee_name t)) = false <->
               ~ reconciliation_name (name_of (payee_name t))).
  { rewrite <- reconciliation_payee_spec.
    destruct (reconciliation_payee _); split; congruence. }
  assert (Ht : is_transfer t = false <-> ~ present (transfer_account_id t)).
  { unfold is_transfer. rewrite <- truthy_present.
    destruct (truthy _); split; congruence. }
  rewrite Hr, Ht. tauto.
Qed.

(** C10. [get_uncategorized_transactions] keeps, in their order, exactly the
    fetched transactions that are no transfer, no reconciliation, no inflow
    and whose category id is absent, null or empty or whose category name is
    the string ["Uncategorized"] itself.  The scheduled-transaction id is not
    looked at.  A name in another case, ["uncategorized"], with a category id
    is not kept, while ["Inflow"] and ["RECONCILIATION"] are matched in any
    case and anywhere in the name. *)
Theorem uncategorized_membership :
  (forall txs : list transaction,
     get_uncategorized_transactions txs = filter uncategorized_keep txs)
  /\ (forall t : transaction, uncategorized_keep t = true <-> uncategorized_rule t)
  /\ (forall (txs : list transaction) (t : transaction),
        In t (get_uncategorized_transactions txs) <->
        In t txs /\ uncategorized_rule t)
  /\ (forall (t : transaction) (sid : field string),
        uncategorized_keep (with_scheduled_id t sid) = uncategorized_keep t)
  /\ get_uncategorized_transactions
       [Ex.scheduled_uncategorized;
        Ex.purchase "2024-01-10" (-100) "uncategorized";
        Ex.purchase "2024-01-11" (-100) "Uncategorized";
        Ex.transfer;
        with_own Ex.income (Val "Monthly inFLOW") (Some 100);
        Ex.purchase "2024-01-12" (-100) "Groceries"]
     = [Ex.scheduled_uncategorized;
        Ex.purchase "2024-01-11" (-100) "Uncategorized"].
Proof.
  split; [|split; [|split; [|split]]].
  - exact get_uncategorized_filter.
  - exact uncategorized_keep_rule.
  - intros txs t. rewrite get_uncategorized_filter, filter_In.
    now rewrite uncategorized_keep_rule.
  - intros t sid. reflexivity.
  - vm_compute. reflexivity.
Qed.

Lemma uncategorized_membership_witness :
  In Ex.scheduled_uncategorized
    (get_uncategorized_transactions [Ex.transfer; Ex.scheduled_uncategorized])
  /\ In Ex.scheduled_uncategorized [Ex.transfer; Ex.scheduled_uncategorized]
  /\ uncategorized_rule Ex.scheduled_uncategorized.
Proof.
  assert (Hin : In Ex.scheduled_uncategorized
                  (get_uncategorized_transactions
                     [Ex.transfer; Ex.scheduled_uncategorized]))
    by (vm_compute; left; reflexivity).
  split; [exact Hin|].
  exact (proj1 (proj1 (proj2 (proj2 uncategorized_membership))
                  [Ex.transfer; Ex.scheduled_uncategorized]
                  Ex.scheduled_uncategorized) Hin).
Defined.

(** ** Sums of totals in exact arithmetic *)

Section ExactSums.

Local Open Scope Qc_scope.

Implicit Types (m : totals Qc) (k : string) (t : transaction).

Lemma exact_zero : @zero Qc Exact = 0.
Proof. reflexivity. Qed.

Lemma fold_Qcplus (xs : list Qc) (a : Qc) :
  fold_left Qcplus xs a = a + fold_left Qcplus xs 0.
Proof.
  revert a; induction xs as [|x xs IH]; intros a; simpl.
  - ring.
  - rewrite (IH (a + x)), (IH (0 + x)). ring.
Qed.

Lemma exact_sum_cons (x : Qc) (xs : list Qc) :
  py_sum (num := Qc) (x :: xs) = x + py_sum xs.
Proof.
  unfold py_sum. rewrite exact_zero. cbn [fold_left nadd Exact].
  rewrite fold_Qcplus. ring.
Qed.

Lemma exact_sum_nil : py_sum (num := Qc) [] = 0.
Proof. reflexivity. Qed.

Lemma exact_sum_app (xs ys : list Qc) :
  py_sum (num := Qc) (xs ++ ys) = py_sum xs + py_sum ys.
Proof.
  induction xs as [|x xs IH]; simpl.
  - rewrite exact_sum_nil. ring.
  - rewrite !exact_sum_cons, IH. ring.
Qed.

Lemma sum_totals_cons (kv : string * aggregate Qc) m :
  sum_totals (kv :: m) = total (snd kv) + sum_totals m.
Proof. unfold sum_totals. simpl. apply exact_sum_cons. Qed.

Lemma sum_totals_update m k (f : aggregate Qc -> aggregate Qc) (v : aggregate Qc) :
  lookup k m = Some v ->
  sum_totals (update k f m) = sum_totals m + (total (f v) - total v).
Proof.
  induction m as [|[k' v'] m IH]; simpl; [discriminate|].
  destruct (String.eqb k' k).
  - intros [= ->]. rewrite !sum_totals_cons. simpl. ring.
  - intros Hl. rewrite !sum_totals_cons, (IH Hl). simpl. ring.
Qed.

Lemma sum_totals_ensure m k : sum_totals (ensure k m) = sum_totals m.
Proof.
  unfold ensure. destruct (has_key k m); [reflexivity|].
  unfold sum_totals. rewrite map_app, exact_sum_app. cbn [map snd total].
  rewrite exact_sum_cons, exact_sum_nil, exact_zero. ring.
Qed.

Lemma sum_totals_add_contribution t k (milli : Z) m :
  sum_totals (add_contribution t k milli m) = sum_totals m - to_major milli.
Proof.
  unfold add_contribution.
  rewrite (sum_totals_update _ _ _ _ (lookup_ensure_same m k)).
  rewrite sum_totals_ensure. simpl. ring.
Qed.

Lemma sum_totals_fold_aggregate_sub t (subs : list subtransaction) m :
  sum_totals (fold_left (aggregate_sub t) subs m) =
  sum_totals m
  - py_sum (map (fun sub => to_major (get_int (sub_amount sub)))
              (filter (fun sub => negb (is_inflow (sub_category sub))) subs)).
Proof.
  revert m; induction subs as [|sub subs IH]; intros m;
    cbn [fold_left filter map].
  - rewrite exact_sum_nil. ring.
  - rewrite IH. unfold aggregate_sub. fold (sub_category sub).
    destruct (is_inflow (sub_category sub)); cbn [negb map]; [reflexivity|].
    rewrite sum_totals_add_contribution, exact_sum_cons. ring.
Qed.

Lemma Qc_of_Z_plus (a b : Z) : Qc_of_Z (a + b) = Qc_of_Z a + Qc_of_Z b.
Proof.
  unfold Qc_of_Z, Qcplus. apply Q2Qc_eq_iff. cbn [this Q2Qc].
  rewrite !Qred_correct, inject_Z_plus. reflexivity.
Qed.

(** Dividing a sum of milliunits by 1000 is summing the major units. *)
Lemma to_major_sum (zs : list Z) :
  to_major (num := Qc) (fold_right Z.add 0%Z zs) = py_sum (map to_major zs).
Proof.
  induction zs as [|z zs IH]; cbn [fold_right map].
  - rewrite exact_sum_nil. apply Qc_is_canon. reflexivity.
  - rewrite exact_sum_cons, <- IH. unfold to_major. cbn [int_truediv Exact].
    rewrite Qc_of_Z_plus. unfold Qcdiv. ring.
Qed.

End ExactSums.

(** ** The contributions of a split *)

(** A split with a part booked under an inflow name: the parts sum to 494.00
    received, the aggregate records 6.00 spent, in the binary64 arithmetic of
    the code and in exact arithmetic alike. *)
Lemma inflow_part_not_summed :
  is_transfer Ex.split_with_inflow = false
  /\ is_reconciliation Ex.split_with_inflow = false
  /\ get_list (subtransactions Ex.split_with_inflow) <> []
  /\ sum_totals (aggregate_by_category (num := float) [Ex.split_with_inflow])
     = 6%float
  /\ nsub zero
       (py_sum (map (fun sub => to_major (num := float) (get_int (sub_amount sub)))
                  (get_list (subtransactions Ex.split_with_inflow))))
     = (-494)%float
  /\ neqb (sum_totals (aggregate_by_category (num := Qc) [Ex.split_with_inflow]))
       (nsub zero
          (py_sum (map (fun sub => to_major (get_int (sub_amount sub)))
                     (get_list (subtransactions Ex.split_with_inflow)))))
     = false.
Proof.
  split; [reflexivity | split; [reflexivity | split; [discriminate|]]].
  split; [vm_compute; reflexivity | split; vm_compute; reflexivity].
Qed.

(** C5, amended. For a split that is no transfer and no reconciliation, the
    contributions recorded for it are those of its subtransactions that are
    not booked under an inflow name: in exact arithmetic the sum of the totals
    over all categories moves by the negation of the sum of their amounts in
    major units.  Replacing the parent's own category name and amount changes
    no key, total or count of the output (the transaction lists hold the
    parent as it was given).  In binary64 the sum of the totals is subject to
    rounding: it is 10.0 for the split of 10.00, and for parts of 0.10, 0.10
    and 0.60 over two categories it is the float below 0.8. *)
Theorem split_contributions_sum :
  (forall (m : totals Qc) (t : transaction),
     is_transfer t = false -> is_reconciliation t = false ->
     get_list (subtransactions t) <> [] ->
     (sum_totals (aggregate_step m t) - sum_totals m)%Qc
     = (- to_major (fold_right Z.add 0%Z
                      (map (fun sub => get_int (sub_amount sub))
                         (counted_subs t))))%Qc)
  /\ (forall (num : Type) (N : Number num) (pre post : list transaction)
        (t : transaction) (cat_name : field string) (amt : option Z),
        get_list (subtransactions t) <> [] ->
        figures (aggregate_by_category (num := num)
                   (pre ++ with_own t cat_name amt :: post))
        = figures (aggregate_by_category (pre ++ t :: post)))
  /\ sum_totals (aggregate_by_category (num := float) [Ex.split]) = 10%float
  /\ nltb (sum_totals (aggregate_by_category (num := float) [Ex.split_three]))
       (nsub zero (to_major (-800))) = true.
Proof.
  split; [|split; [|split]].
  - intros m t Ht Hr Hs. rewrite (aggregate_step_split m t Ht Hr Hs).
    rewrite sum_totals_fold_aggregate_sub, to_major_sum.
    unfold counted_subs. rewrite map_map. ring.
  - intros num N pre post t cat_name amt Hs. apply figures_with_own, Hs.
  - vm_compute. reflexivity.
  - vm_compute. reflexivity.
Qed.

Lemma split_contributions_sum_witness :
  is_transfer Ex.split_with_inflow = false
  /\ is_reconciliation Ex.split_with_inflow = false
  /\ get_list (subtransactions Ex.split_with_inflow) <> []
  /\ (sum_totals (aggregate_step [] Ex.split_with_inflow) - sum_totals [])%Qc
     = (- to_major (fold_right Z.add 0%Z
                      (map (fun sub => get_int (sub_amount sub))
                         (counted_subs Ex.split_with_inflow))))%Qc.
Proof.
  assert (Ht : is_transfer Ex.split_with_inflow = false) by reflexivity.
  assert (Hr : is_reconciliation Ex.split_with_inflow = false) by reflexivity.
  assert (Hs : get_list (subtransactions Ex.split_with_inflow) <> [])
    by discriminate.
  split; [exact Ht | split; [exact Hr | split; [exact Hs|]]].
  exact (proj1 split_contributions_sum [] Ex.split_with_inflow Ht Hr Hs).
Defined.

(** ** The most active weekday *)

Section WeekdayFacts.

Implicit Types (c : list (string * nat)) (ws : list string) (d w x : string).

Local Open Scope nat_scope.

Lemma occurrences_snoc w ws x :
  occurrences w (ws ++ [x]) =
  occurrences w ws + (if String.eqb x w then 1 else 0).
Proof.
  unfold occurrences. rewrite count_occ_app. simpl.
  destruct (string_dec x w) as [->|Hne].
  - now rewrite String.eqb_refl.
  - apply String.eqb_neq in Hne. now rewrite Hne.
Qed.

Lemma occurrences_In w ws : In w ws <-> 0 < occurrences w ws.
Proof. unfold occurrences. apply count_occ_In. Qed.

Lemma tally_snoc ws x : tally (ws ++ [x]) = incr x (tally ws).
Proof. unfold tally. now rewrite fold_left_app. Qed.

Lemma incr_fresh c x : ~ In x (map fst c) -> incr x c = c ++ [(x, 1)].
Proof.
  induction c as [|[k n] c IH]; simpl; [reflexivity|].
  intros Hn. destruct (String.eqb k x) eqn:E.
  - apply String.eqb_eq in E. tauto.
  - rewrite IH by tauto. reflexivity.
Qed.

Lemma incr_keys c x : In x (map fst c) -> map fst (incr x c) = map fst c.
Proof.
  induction c as [|[k n] c IH]; simpl; [tauto|].
  destruct (String.eqb k x) eqn:E; [reflexivity|].
  apply String.eqb_neq in E. intros [?|Hin]; [congruence|].
  simpl. now rewrite IH.
Qed.

(** With distinct keys, [incr] changes the count of its key and no other. *)
Lemma In_incr c x w n :
  NoDup (map fst c) -> In (w, n) (incr x c) ->
  (w <> x /\ In (w, n) c) \/
  (w = x /\ ((exists n0, In (x, n0) c /\ n = S n0) \/
             (~ In x (map fst c) /\ n = 1))).
Proof.
  induction c as [|[k n0] c IH]; simpl.
  - intros _ [[= <- <-]|[]]. right. split; [reflexivity|]. right. tauto.
  - intros Hnd. inversion Hnd as [|? ? Hk Hnd']; subst.
    destruct (String.eqb k x) eqn:E.
    + apply String.eqb_eq in E. subst k. intros [[= <- <-]|Hin].
      * right. split; [reflexivity|]. left. exists n0. auto.
      * left. split; [|auto]. intros ->. apply Hk.
        apply (in_map fst) in Hin. exact Hin.
    + apply String.eqb_neq in E. intros [[= <- <-]|Hin]; [left; auto|].
      destruct (IH Hnd' Hin) as [[? ?]|[-> [(n1 & ? & ->)|[? ->]]]].
      * left. auto.
      * right. split; [reflexivity|]. left. exists n1. auto.
      * right. split; [reflexivity|]. right. split; [|reflexivity].
        intros [?|?]; [congruence | tauto].
Qed.

Lemma snoc_split {A : Type} (k1 k2 l : list A) (d x : A) :
  k1 ++ d :: k2 = l ++ [x] ->
  (k2 = [] /\ d = x /\ k1 = l) \/ (exists k2', k2 = k2' ++ [x] /\ l = k1 ++ d :: k2').
Proof.
  destruct k2 as [|y k2] using rev_ind.
  - intros E. apply app_inj_tail in E. destruct E as [-> ->]. auto.
  - clear IHk2. intros E. right. exists k2.
    change (k1 ++ d :: k2 ++ [y]) with (k1 ++ (d :: k2) ++ [y]) in E.
    rewrite app_assoc in E. apply app_inj_tail in E.
    destruct E as [<- ->]. auto.
Qed.

Lemma encountered_before_snoc d w ws x :
  encountered_before d w ws -> encountered_before d w (ws ++ [x]).
Proof.
  intros (p & s & -> & Hd & Hw). exists p, (s ++ [x]).
  rewrite <- app_assoc. auto.
Qed.

Lemma encountered_before_absent d w ws :
  In d ws -> ~ In w ws -> encountered_before d w ws.
Proof.
  intros Hd Hw. induction ws as [|a ws IH]; [destruct Hd|].
  destruct (string_dec a d) as [->|Hne].
  - exists [], ws. simpl. tauto.
  - destruct Hd as [?|Hd]; [congruence|].
    destruct IH as (p & s & -> & Hdp & Hwp); [exact Hd | simpl in Hw; tauto|].
    exists (a :: p), s. simpl. split; [reflexivity|].
    simpl in Hw. split; intros [?|?]; try congruence; tauto.
Qed.

(** The dict after the loop: distinct keys, exactly the weekdays seen, each
    with its number of occurrences, in the order of first encounter. *)
Lemma tally_spec ws :
  NoDup (map fst (tally ws))
  /\ (forall w, In w (map fst (tally ws)) <-> In w ws)
  /\ (forall w n, In (w, n) (tally ws) -> n = occurrences w ws)
  /\ (forall k1 d k2 w, map fst (tally ws) = k1 ++ d :: k2 -> In w k2 ->
        encountered_before d w ws).
Proof.
  induction ws as [|x ws (Hnd & Hkeys & Hcnt & Hord)] using rev_ind.
  - split; [constructor|]. split; [simpl; tauto|].
    split; [intros w n []|]. intros [|] d k2 w E; discriminate E.
  - rewrite tally_snoc.
    destruct (in_dec string_dec x (map fst (tally ws))) as [Hx|Hx].
    + (* a weekday seen before: same keys, one count raised *)
      rewrite incr_keys by exact Hx. split; [exact Hnd|].
      split; [|split].
      * intros w. rewrite Hkeys, in_app_iff. simpl.
        apply Hkeys in Hx. intuition congruence.
      * intros w n Hin. rewrite occurrences_snoc.
        destruct (In_incr _ _ _ _ Hnd Hin)
          as [[Hne Hin']|[-> [(n0 & Hin' & ->)|[Hn _]]]].
        -- apply not_eq_sym, String.eqb_neq in Hne. rewrite Hne.
           rewrite (Hcnt _ _ Hin'). lia.
        -- rewrite String.eqb_refl, (Hcnt _ _ Hin'). lia.
        -- tauto.
      * intros k1 d k2 w E Hw. apply encountered_before_snoc.
        apply (Hord k1 d k2 w E Hw).
    + (* a new weekday: appended with count 1 *)
      rewrite incr_fresh by exact Hx. rewrite map_app. simpl.
      assert (Hxws : ~ In x ws) by (rewrite <- Hkeys; exact Hx).
      split; [|split; [|split]].
      * apply NoDup_app; [exact Hnd | repeat constructor; simpl; tauto|].
        intros a Ha [<-|[]]. tauto.
      * intros w. rewrite !in_app_iff, Hkeys. simpl. tauto.
      * intros w n Hin. rewrite occurrences_snoc. apply in_app_iff in Hin.
        destruct Hin as [Hin|[[= <- <-]|[]]].
        -- assert (Hne : x <> w).
           { intros ->. apply Hx. apply (in_map fst) in Hin. exact Hin. }
           apply String.eqb_neq in Hne. rewrite Hne.
           rewrite (Hcnt _ _ Hin). lia.
        -- rewrite String.eqb_refl.
           assert (occurrences x ws = 0)
             by (unfold occurrences; apply count_occ_not_In; exact Hxws).
           lia.
      * intros k1 d k2 w E Hw. symmetry in E. apply snoc_split in E.
        destruct E as [(-> & _ & _)|(k2' & -> & E)]; [destruct Hw|].
        apply in_app_iff in Hw. destruct Hw as [Hw|[<-|[]]].
        -- apply encountered_before_snoc. apply (Hord k1 d k2' w E Hw).
        -- apply encountered_before_snoc, encountered_before_absent;
             [|exact Hxws].
           apply Hkeys. rewrite E, in_app_iff. simpl. auto.
Qed.

End WeekdayFacts.

Section FirstMaximum.

Local Open Scope nat_scope.

(** [max] with a key keeps the first of the largest items: everything before
    the result is strictly smaller, nothing after it is larger. *)
Lemma first_max_spec (xs p1 p2 : list (string * nat)) (best : string * nat) :
  (forall y, In y p1 -> snd y < snd best) ->
  (forall y, In y p2 -> snd y <= snd best) ->
  exists c1 c2,
    p1 ++ best :: p2 ++ xs
    = c1 ++ fold_left (fun b y => if snd b <? snd y then y else b) xs best :: c2
    /\ (forall y, In y c1 ->
          snd y < snd (fold_left (fun b y => if snd b <? snd y then y else b) xs best))
    /\ (forall y, In y c2 ->
          snd y <= snd (fold_left (fun b y => if snd b <? snd y then y else b) xs best)).
Proof.
  revert p1 p2 best; induction xs as [|y xs IH]; intros p1 p2 best H1 H2.
  - exists p1, p2. rewrite app_nil_r. auto.
  - cbn [fold_left]. destruct (snd best <? snd y) eqn:E.
    + apply Nat.ltb_lt in E.
      destruct (IH (p1 ++ best :: p2) [] y) as (c1 & c2 & Heq & Hc1 & Hc2).
      * intros z Hz. apply in_app_iff in Hz.
        destruct Hz as [Hz|[<-|Hz]]; [specialize (H1 _ Hz); lia | exact E|].
        specialize (H2 _ Hz). lia.
      * intros z [].
      * exists c1, c2. split; [|auto]. rewrite <- Heq.
        rewrite <- !app_assoc. reflexivity.
    + apply Nat.ltb_ge in E.
      destruct (IH p1 (p2 ++ [y]) best) as (c1 & c2 & Heq & Hc1 & Hc2).
      * exact H1.
      * intros z Hz. apply in_app_iff in Hz.
        destruct Hz as [Hz|[<-|[]]]; [auto | exact E].
      * exists c1, c2. split; [|auto]. rewrite <- Heq.
        rewrite <- !app_assoc. reflexivity.
Qed.

(** The weekday reported for a non-empty list of weekday names. *)
Lemma most_active_day_spec (ws : list string) :
  ws <> [] ->
  In (most_active_day_of (tally ws)) ws
  /\ (forall w, occurrences w ws <= occurrences (most_active_day_of (tally ws)) ws)
  /\ (forall w, w <> most_active_day_of (tally ws) ->
        occurrences w ws = occurrences (most_active_day_of (tally ws)) ws ->
        encountered_before (most_active_day_of (tally ws)) w ws).
Proof.
  intros Hne. destruct (tally_spec ws) as (Hnd & Hkeys & Hcnt & Hord).
  destruct (tally ws) as [|x xs] eqn:Et.
  - destruct ws as [|w ws]; [congruence|].
    destruct (proj2 (Hkeys w) (or_introl eq_refl)).
  - cbn [most_active_day_of].
    destruct (first_max_spec xs [] [] x) as (c1 & c2 & Heq & Hc1 & Hc2);
      [intros y [] | intros y [] |].
    simpl in Heq.
    set (r := fold_left (fun b y => if snd b <? snd y then y else b) xs x) in *.
    assert (Hr : In r (x :: xs)) by (rewrite Heq, in_app_iff; simpl; auto).
    assert (Hrn : snd r = occurrences (fst r) ws)
      by (apply Hcnt; now destruct r).
    assert (Hrw : In (fst r) ws) by (apply Hkeys, in_map, Hr).
    assert (Hlook : forall w, In w ws -> exists n,
               n = occurrences w ws /\
               (In (w, n) c1 \/ (w, n) = r \/ In (w, n) c2)).
    { intros w Hw. apply Hkeys in Hw. apply in_map_iff in Hw.
      destruct Hw as ([w' n] & Hf & Hin). simpl in Hf. subst w'.
      exists n. split; [apply Hcnt, Hin|].
      rewrite Heq, in_app_iff in Hin. simpl in Hin. intuition. }
    split; [exact Hrw | split].
    + intros w. destruct (in_dec string_dec w ws) as [Hw|Hw].
      * destruct (Hlook w Hw) as (n & Hn & [Hin|[Hin|Hin]]).
        -- specialize (Hc1 _ Hin). simpl in Hc1. lia.
        -- rewrite <- Hin. simpl. lia.
        -- specialize (Hc2 _ Hin). simpl in Hc2. lia.
      * unfold occurrences at 1.
        rewrite (proj1 (count_occ_not_In string_dec ws w) Hw). lia.
    + intros w Hwd Htie.
      assert (Hw : In w ws).
      { apply occurrences_In. apply occurrences_In in Hrw. lia. }
      destruct (Hlook w Hw) as (n & Hn & [Hin|[Hin|Hin]]).
      * specialize (Hc1 _ Hin). simpl in Hc1. lia.
      * rewrite <- Hin in Hwd. simpl in Hwd. congruence.
      * apply (Hord (map fst c1) (fst r) (map fst c2) w).
        -- rewrite Heq, map_app. reflexivity.
        -- apply (in_map fst) in Hin. exact Hin.
Qed.

End FirstMaximum.

(** ** The statistics of the reports *)

Lemma weekday_of_not_zero_division (t : transaction) :
  weekday_of t <> Raise ZeroDivisionError.
Proof.
  unfold weekday_of. destruct (date t) as [| |s]; try discriminate.
  destruct (Calendar.strptime_ymd s); discriminate.
Qed.

Lemma day_counts_loop (txs : list transaction) (acc : list (string * nat)) :
  match weekdays txs with
  | Some ws =>
      for_each day_counts_step txs acc
      = Ok (fold_left (fun counts day => incr day counts) ws acc)
  | None =>
      exists e, for_each day_counts_step txs acc = Raise e
                /\ e <> ZeroDivisionError
  end.
Proof.
  revert acc; induction txs as [|t txs IH]; intros acc; cbn [weekdays for_each].
  - reflexivity.
  - assert (Hstep : day_counts_step acc t
                    = match weekday_of t with
                      | Ok d => Ok (incr d acc)
                      | Raise e => Raise e
                      end) by reflexivity.
    rewrite Hstep. clear Hstep.
    pose proof (weekday_of_not_zero_division t) as Hz.
    destruct (weekday_of t) as [d|e]; cbn [bind].
    + specialize (IH (incr d acc)). destruct (weekdays txs); exact IH.
    + exists e. split; [reflexivity | congruence].
Qed.

Section ReportFacts.
Context {num : Type} `{Number num}.

Lemma avg_per_day_ok (total_spent : num) (days : Z) :
  avg_per_day_of total_spent days
  = Ok (if 0 <? days then ndiv total_spent (of_int days) else zero).
Proof.
  unfold avg_per_day_of, truediv_int. destruct (0 <? days) eqn:E;
    [|reflexivity].
  apply Z.ltb_lt in E. destruct (days =? 0) eqn:E0; [|reflexivity].
  apply Z.eqb_eq in E0. lia.
Qed.

Lemma avg_transaction_ok (total_spent : num) (n : nat) :
  avg_transaction_of total_spent n
  = Ok (match n with
        | O => zero
        | S _ => ndiv total_spent (of_int (Z.of_nat n))
        end).
Proof.
  unfold avg_transaction_of, truediv_int. destruct n as [|n]; [reflexivity|].
  cbn [Nat.ltb Nat.leb]. destruct (Z.of_nat (S n) =? 0) eqn:E0; [|reflexivity].
  apply Z.eqb_eq in E0. lia.
Qed.

Context {L : NumberLaws num}.

Lemma percentage_ok (category_total total_spent : num) :
  percentage_of category_total total_spent
  = Ok (guarded_percentage category_total total_spent).
Proof.
  unfold percentage_of, guarded_percentage, truediv.
  destruct (nltb zero total_spent) eqn:E; [|reflexivity].
  rewrite (positive_not_zero _ E). reflexivity.
Qed.

Lemma top_categories_loop (total_spent : num) (items : totals num)
  (acc : list (string * top_category num)) :
  for_each (top_categories_step total_spent) items acc
  = Ok (acc ++ map (annotate total_spent) items).
Proof.
  revert acc; induction items as [|[k v] items IH]; intros acc;
    cbn [for_each map].
  - now rewrite app_nil_r.
  - unfold top_categories_step at 1. rewrite percentage_ok. cbn [bind].
    rewrite IH, <- app_assoc. reflexivity.
Qed.

(** The monthly report when every date parses. *)
Lemma generate_monthly_recap_ok (days : Z) (txs : list transaction)
  (cs : totals num) (recurring : list scheduled_transaction) (mn : string)
  (ws : list string) :
  weekdays txs = Some ws ->
  generate_monthly_recap days txs cs recurring mn
  = Ok {| m_month_name := mn;
          m_total_spent := py_sum (map spent txs);
          m_transaction_count := List.length txs;
          m_avg_per_day :=
            if 0 <? days then ndiv (py_sum (map spent txs)) (of_int days)
            else zero;
          m_avg_transaction :=
            match List.length txs with
            | O => zero
            | S _ => ndiv (py_sum (map spent txs))
                       (of_int (Z.of_nat (List.length txs)))
            end;
          m_largest_transaction := largest_transaction_of txs;
          m_most_active_day := most_active_day_of (tally ws);
          m_categories_used := List.length cs;
          m_top_categories :=
            map (annotate (py_sum (map spent txs))) (sorted_by_total cs);
          m_recurring_this_month := recurring |}.
Proof.
  intros Hw. unfold generate_monthly_recap.
  rewrite avg_per_day_ok, avg_transaction_ok. cbn [bind].
  pose proof (day_counts_loop txs []) as Hd. rewrite Hw in Hd.
  rewrite Hd. cbn [bind]. rewrite top_categories_loop. reflexivity.
Qed.

(** Whatever the input, the monthly report does not end in a division by
    zero. *)
Lemma generate_monthly_recap_no_zero_division (days : Z)
  (txs : list transaction) (cs : totals num)
  (recurring : list scheduled_transaction) (mn : string) :
  generate_monthly_recap days txs cs recurring mn <> Raise ZeroDivisionError.
Proof.
  destruct (weekdays txs) as [ws|] eqn:Hw.
  - rewrite (generate_monthly_recap_ok _ _ _ _ _ ws Hw). discriminate.
  - unfold generate_monthly_recap.
    rewrite avg_per_day_ok, avg_transaction_ok. cbn [bind].
    pose proof (day_counts_loop txs []) as Hd. rewrite Hw in Hd.
    destruct Hd as (e & -> & He). cbn [bind]. congruence.
Qed.

End ReportFacts.

Lemma raw_total_sum (txs : list transaction) :
  py_sum (num := Qc) (map spent txs) = raw_total txs.
Proof.
  induction txs as [|t txs IH]; cbn [map raw_total].
  - reflexivity.
  - rewrite exact_sum_cons, IH. reflexivity.
Qed.

(** C6. In the weekly and in the monthly report [total_spent] is computed from
    the raw transaction list alone: it is the left-to-right sum of
    [abs(amount) / 1000], a missing amount counting as 0, the same whatever
    category aggregate is passed, and in exact arithmetic it is the sum of the
    absolute amounts in major units.  The transaction count is the length of
    the list.  The monthly report is produced whenever every date parses. *)
Theorem total_spent_from_raw_list :
  (forall (num : Type) (N : Number num) (txs : list transaction)
     (cs cs' : totals num) (up up' : list scheduled_transaction)
     (st st' : category_status num),
     w_total_spent (generate_weekly_recap txs cs up st)
       = py_sum (map (fun t => to_major (Z.abs (get_int (amount t)))) txs)
     /\ w_transaction_count (generate_weekly_recap txs cs up st) = List.length txs
     /\ w_total_spent (generate_weekly_recap txs cs up st)
        = w_total_spent (generate_weekly_recap txs cs' up' st'))
  /\ (forall (num : Type) (N : Number num) (days : Z) (txs : list transaction)
        (cs : totals num) (rec : list scheduled_transaction) (mn : string)
        (ctx : monthly_context num),
        generate_monthly_recap days txs cs rec mn = Ok ctx ->
        m_total_spent ctx
          = py_sum (map (fun t => to_major (Z.abs (get_int (amount t)))) txs)
        /\ m_transaction_count ctx = List.length txs)
  /\ (forall (num : Type) (N : Number num), NumberLaws num ->
      forall (days : Z) (txs : list transaction) (cs : totals num)
        (rec : list scheduled_transaction) (mn : string) (ws : list string),
        weekdays txs = Some ws ->
        exists ctx, generate_monthly_recap days txs cs rec mn = Ok ctx)
  /\ (forall (num : Type) (N : Number num) (txs : list transaction)
        (t : transaction),
        py_sum (map spent (txs ++ [t]))
          = nadd (py_sum (map spent txs)) (to_major (Z.abs (get_int (amount t))))
        /\ (amount t = None -> spent t = to_major (num := num) 0))
  /\ (forall txs : list transaction,
        w_total_spent (generate_weekly_recap (num := Qc) txs [] [] empty_status)
          = raw_total txs)
  /\ w_total_spent (generate_weekly_recap (num := float) Ex.january [] [] empty_status)
     = 8%float.
Proof.
  split; [|split; [|split; [|split; [|split]]]].
  - intros. repeat split; reflexivity.
  - intros num N days txs cs rec mn ctx. unfold generate_monthly_recap.
    destruct (avg_per_day_of _ _); cbn [bind]; [|discriminate].
    destruct (avg_transaction_of _ _); cbn [bind]; [|discriminate].
    destruct (for_each day_counts_step txs []); cbn [bind]; [|discriminate].
    destruct (for_each _ (sorted_by_total cs) []); cbn [bind]; [|discriminate].
    intros [= <-]. split; reflexivity.
  - intros num N L days txs cs rec mn ws Hw. eexists.
    apply (generate_monthly_recap_ok days txs cs rec mn ws Hw).
  - intros num N txs t. split.
    + unfold py_sum. rewrite map_app, fold_left_app. reflexivity.
    + intros Ha. unfold spent. now rewrite Ha.
  - intros txs. apply raw_total_sum.
  - vm_compute. reflexivity.
Qed.

Lemma total_spent_from_raw_list_witness :
  weekdays Ex.january = Some ["Tuesday"; "Monday"; "Monday"; "Monday"]
  /\ exists ctx,
       generate_monthly_recap (num := float) 31 Ex.january
         (aggregate_by_category Ex.january) [] "January" = Ok ctx
       /\ m_total_spent ctx = 8%float /\ m_transaction_count ctx = 4%nat.
Proof.
  assert (Hw : weekdays Ex.january = Some ["Tuesday"; "Monday"; "Monday"; "Monday"])
    by (vm_compute; reflexivity).
  split; [exact Hw|].
  destruct (proj1 (proj2 (proj2 total_spent_from_raw_list)) float Binary64
              Binary64_laws 31 Ex.january (aggregate_by_category Ex.january)
              [] "January" _ Hw) as [ctx Hctx].
  exists ctx. split; [exact Hctx|].
  destruct (proj1 (proj2 total_spent_from_raw_list) float Binary64 31 Ex.january
              (aggregate_by_category Ex.january) [] "January" ctx Hctx)
    as [Ht Hc].
  rewrite Ht, Hc. split; vm_compute; reflexivity.
Defined.

(** C7. None of the guarded divisions of the monthly statistics raises: the
    report never ends in [ZeroDivisionError], and when every date parses it
    is produced with average-per-day 0 for a day count of 0 or less and
    total/days otherwise, average-per-transaction 0 for an empty list and
    total/count otherwise, largest transaction 0 for an empty list, and for
    each category in the ranking the percentage 0 when the total spent is not
    above 0 and category total / total spent * 100 otherwise. *)
Theorem monthly_guards :
  forall (num : Type) (N : Number num), NumberLaws num ->
  forall (days : Z) (txs : list transaction) (cs : totals num)
    (rec : list scheduled_transaction) (mn : string),
    generate_monthly_recap days txs cs rec mn <> Raise ZeroDivisionError
    /\ forall ws : list string, weekdays txs = Some ws ->
       exists ctx : monthly_context num,
         generate_monthly_recap days txs cs rec mn = Ok ctx
         /\ (days <= 0 -> m_avg_per_day ctx = zero)
         /\ (0 < days ->
             m_avg_per_day ctx = ndiv (m_total_spent ctx) (of_int days))
         /\ (m_transaction_count ctx = 0%nat -> m_avg_transaction ctx = zero)
         /\ (m_transaction_count ctx <> 0%nat ->
             m_avg_transaction ctx
             = ndiv (m_total_spent ctx)
                 (of_int (Z.of_nat (m_transaction_count ctx))))
         /\ (txs = [] -> m_largest_transaction ctx = zero)
         /\ map fst (m_top_categories ctx) = map fst (sorted_by_total cs)
         /\ (forall (k : string) (tc : top_category num),
               In (k, tc) (m_top_categories ctx) ->
               (nltb zero (m_total_spent ctx) = false ->
                tc_percentage tc = zero)
               /\ (nltb zero (m_total_spent ctx) = true ->
                   tc_percentage tc
                   = nmul (ndiv (tc_total tc) (m_total_spent ctx)) (of_int 100))
               /\ exists v, In (k, v) cs /\ tc_total tc = total v).
Proof.
  intros num N L days txs cs rec mn. split.
  - apply generate_monthly_recap_no_zero_division.
  - intros ws Hw. eexists. split;
      [apply (generate_monthly_recap_ok days txs cs rec mn ws Hw)|].
    cbn [m_avg_per_day m_total_spent m_transaction_count m_avg_transaction
         m_largest_transaction m_top_categories].
    repeat split.
    + intros Hd. destruct (0 <? days) eqn:E; [|reflexivity].
      apply Z.ltb_lt in E. lia.
    + intros Hd. apply Z.ltb_lt in Hd. now rewrite Hd.
    + intros ->. reflexivity.
    + intros Hn. destruct (List.length txs); [congruence | reflexivity].
    + intros ->. reflexivity.
    + rewrite map_map. apply map_ext. intros [k v]. reflexivity.
    + intros Hz. apply in_map_iff in H. destruct H as ([k' v] & [= <- <-] & _).
      cbn [tc_percentage]. unfold guarded_percentage. now rewrite Hz.
    + intros Hz. apply in_map_iff in H. destruct H as ([k' v] & [= <- <-] & _).
      cbn [tc_percentage tc_total]. unfold guarded_percentage.
      now rewrite Hz.
    + apply in_map_iff in H. destruct H as ([k' v] & [= <- <-] & Hin).
      exists v. split; [|reflexivity]. revert Hin. clear.
      unfold sorted_by_total. induction cs as [|x cs IH]; simpl; [tauto|].
      intros Hin. assert (Hi : forall l, In (k', v) (insert_desc x l) ->
                                 (k', v) = x \/ In (k', v) l).
      { clear. induction l as [|y l IHl]; simpl; [intuition|].
        destruct (nltb _ _); simpl; intuition. }
      destruct (Hi _ Hin) as [<-|Hin']; [auto | right; apply IH, Hin'].
Qed.

Lemma monthly_guards_witness :
  weekdays [] = Some []
  /\ exists ctx,
       generate_monthly_recap (num := float) 0 [] [] [] "Empty" = Ok ctx
       /\ m_avg_per_day ctx = zero.
Proof.
  assert (Hw : weekdays [] = Some []) by reflexivity.
  split; [exact Hw|].
  destruct (proj2 (monthly_guards float Binary64 Binary64_laws 0 [] [] [] "Empty")
              [] Hw) as (ctx & Hctx & Hday & _).
  exists ctx. split; [exact Hctx|]. apply Hday. lia.
Defined.

(** C8. For a non-empty transaction list whose dates all parse, the monthly
    report is produced and its most active day is a weekday name of the list
    whose number of transactions no other weekday exceeds; a weekday with the
    same number has its first transaction later in the list.  Three Mondays
    and one Tuesday, the Tuesday first, give ["Monday"]. *)
Theorem most_active_weekday :
  (forall (num : Type) (N : Number num), NumberLaws num ->
   forall (days : Z) (txs : list transaction) (cs : totals num)
     (rec : list scheduled_transaction) (mn : string) (ws : list string),
     txs <> [] -> weekdays txs = Some ws ->
     exists ctx : monthly_context num,
       generate_monthly_recap days txs cs rec mn = Ok ctx
       /\ In (m_most_active_day ctx) ws
       /\ (forall w : string,
             (occurrences w ws <= occurrences (m_most_active_day ctx) ws)%nat)
       /\ (forall w : string,
             w <> m_most_active_day ctx ->
             occurrences w ws = occurrences (m_most_active_day ctx) ws ->
             encountered_before (m_most_active_day ctx) w ws))
  /\ weekdays Ex.january = Some ["Tuesday"; "Monday"; "Monday"; "Monday"]
  /\ (exists ctx : monthly_context float,
        generate_monthly_recap 31 Ex.january (aggregate_by_category Ex.january)
          [] "January" = Ok ctx
        /\ m_most_active_day ctx = "Monday")
  /\ most_active_day_of (tally ["Friday"; "Monday"; "Monday"; "Friday"]) = "Friday".
Proof.
  split; [|split; [|split]].
  - intros num N L days txs cs rec mn ws Hne Hw. eexists. split;
      [apply (generate_monthly_recap_ok days txs cs rec mn ws Hw)|].
    cbn [m_most_active_day]. apply most_active_day_spec.
    intros ->. destruct txs as [|t txs]; [congruence|].
    cbn [weekdays] in Hw. destruct (weekday_of t); [|discriminate].
    destruct (weekdays txs); discriminate.
  - vm_compute. reflexivity.
  - eexists. split; [vm_compute; reflexivity | reflexivity].
  - vm_compute. reflexivity.
Qed.

Lemma most_active_weekday_witness :
  Ex.january <> []
  /\ weekdays Ex.january = Some ["Tuesday"; "Monday"; "Monday"; "Monday"]
  /\ exists ctx : monthly_context float,
       generate_monthly_recap 31 Ex.january [] [] "January" = Ok ctx
       /\ In (m_most_active_day ctx) ["Tuesday"; "Monday"; "Monday"; "Monday"].
Proof.
  assert (Hne : Ex.january <> []) by discriminate.
  assert (Hw : weekdays Ex.january = Some ["Tuesday"; "Monday"; "Monday"; "Monday"])
    by (vm_compute; reflexivity).
  split; [exact Hne | split; [exact Hw|]].
  destruct (proj1 most_active_weekday float Binary64 Binary64_laws 31 Ex.january
              [] [] "January" _ Hne Hw) as (ctx & Hctx & Hin & _).
  exists ctx. split; [exact Hctx | exact Hin].
Defined.

(** ** Binary64 rounding of a division and a multiplication by 1000 *)


(** The number of binary digits of a positive number. *)
Lemma digits2_pos_bounds (p : positive) :
  2 ^ (Zpos (digits2_pos p) - 1) <= Zpos p < 2 ^ Zpos (digits2_pos p).
Proof.
  induction p as [p IH|p IH|]; cbn [digits2_pos].
  - rewrite Pos2Z.inj_succ.
    replace (Z.succ (Zpos (digits2_pos p)) - 1)
      with (Z.succ (Zpos (digits2_pos p) - 1)) by lia.
    rewrite !Z.pow_succ_r by lia. lia.
  - rewrite Pos2Z.inj_succ.
    replace (Z.succ (Zpos (digits2_pos p)) - 1)
      with (Z.succ (Zpos (digits2_pos p) - 1)) by lia.
    rewrite !Z.pow_succ_r by lia. lia.
  - simpl. lia.
Qed.

Lemma digits2_unique (p : positive) (k : Z) :
  2 ^ (k - 1) <= Zpos p < 2 ^ k -> Zpos (digits2_pos p) = k.
Proof.
  intros [Hlo Hhi]. pose proof (digits2_pos_bounds p) as [Dlo Dhi].
  assert (Hk : 0 < k).
  { destruct (Z.leb_spec k 0) as [Hle|]; [|assumption].
    rewrite (Z.pow_neg_r 2 k) in Hhi
      by (destruct (Z.eq_dec k 0); [subst; simpl in *; lia | lia]).
    lia. }
  destruct (Z.lt_trichotomy (Zpos (digits2_pos p)) k) as [Hlt|[Heq|Hgt]];
    [|exact Heq|].
  - assert (2 ^ Zpos (digits2_pos p) <= 2 ^ (k - 1))
      by (apply Z.pow_le_mono_r; lia).
    lia.
  - assert (2 ^ k <= 2 ^ (Zpos (digits2_pos p) - 1))
      by (apply Z.pow_le_mono_r; lia).
    lia.
Qed.

(** One shift to the right doubles the denominator. *)
Lemma shr_1_represents (mrs : shr_record) (N D : Z) :
  0 < D -> Represents mrs N D -> Represents (shr_1 mrs) N (2 * D).
Proof.
  intros HD. destruct mrs as [m r s]. unfold Represents.
  cbn [shr_m shr_r shr_s]. intros (Hm & HN & Hr & Hs). subst r s.
  destruct m as [|[p|p|]|p]; cbn [shr_1 shr_m shr_r shr_s]; try lia.
  all: repeat split; try lia.
  all: repeat match goal with
       | |- context [?a <=? ?b] => destruct (Z.leb_spec a b)
       | |- context [?a =? ?b] => destruct (Z.eqb_spec a b)
       end; cbn; try reflexivity; try lia.
Qed.

Lemma iter_pos_nat {A : Type} (f : A -> A) (p : positive) (x : A) :
  SpecFloat.iter_pos f p x = Nat.iter (Pos.to_nat p) f x.
Proof.
  revert x; induction p as [p IH|p IH|]; intros x; cbn [SpecFloat.iter_pos].
  - rewrite !IH, Pos2Nat.inj_xI.
    replace (S (2 * Pos.to_nat p))%nat
      with (Pos.to_nat p + (Pos.to_nat p + 1))%nat by lia.
    rewrite !Nat.iter_add. reflexivity.
  - rewrite !IH, Pos2Nat.inj_xO.
    replace (2 * Pos.to_nat p)%nat with (Pos.to_nat p + Pos.to_nat p)%nat
      by lia.
    now rewrite Nat.iter_add.
  - reflexivity.
Qed.

Lemma iter_shr_1_represents (n : nat) (mrs : shr_record) (N D : Z) :
  0 < D -> Represents mrs N D ->
  Represents (Nat.iter n shr_1 mrs) N (2 ^ Z.of_nat n * D).
Proof.
  intros HD HR. induction n as [|n IH].
  - cbn [Nat.iter]. change (Z.of_nat 0) with 0.
    now rewrite Z.pow_0_r, Z.mul_1_l.
  - cbn [Nat.iter]. rewrite Nat2Z.inj_succ, Z.pow_succ_r by lia.
    rewrite <- Z.mul_assoc. apply shr_1_represents; [|exact IH].
    apply Z.mul_pos_pos; [apply Z.pow_pos_nonneg; lia | exact HD].
Qed.

Lemma shr_m_of_loc (m : Z) (l : location) : shr_m (shr_record_of_loc m l) = m.
Proof. destruct l as [|[| |]]; reflexivity. Qed.

(** Rounding the record to nearest even lands within half a unit of N / D. *)
Lemma round_nearest_even_represents (mrs : shr_record) (N D : Z) :
  0 < D -> Represents mrs N D ->
  (round_nearest_even (shr_m mrs) (loc_of_shr_record mrs) = shr_m mrs
   \/ round_nearest_even (shr_m mrs) (loc_of_shr_record mrs) = shr_m mrs + 1)
  /\ 2 * Z.abs (round_nearest_even (shr_m mrs) (loc_of_shr_record mrs) * D - N)
     <= D.
Proof.
  intros HD. destruct mrs as [m r s]. unfold Represents.
  cbn [shr_m shr_r shr_s]. intros (Hm & HN & Hr & Hs).
  destruct (Z.leb_spec D (2 * (N - m * D))) as [Hle|Hlt];
    destruct (Z.eqb_spec (2 * (N - m * D)) 0) as [H0|H0];
    destruct (Z.eqb_spec (2 * (N - m * D)) D) as [H1|H1];
    subst r s; cbn [orb negb loc_of_shr_record round_nearest_even];
    try lia.
  destruct (Z.even m); split; auto; lia.
Qed.

Lemma shr_fexp_iter (mx ex : Z) (lx : location) :
  0 < mx -> 53 <= Zdigits2 mx -> -1074 <= Zdigits2 mx + ex - 53 ->
  shr_fexp prec emax mx ex lx
  = (Nat.iter (Z.to_nat (Zdigits2 mx - 53)) shr_1 (shr_record_of_loc mx lx),
     ex + (Zdigits2 mx - 53)).
Proof.
  intros Hmx Hd He. unfold shr_fexp, fexp, emin, prec, emax.
  replace (Z.max (Zdigits2 mx + ex - 53) (3 - 1024 - 53) - ex)
    with (Zdigits2 mx - 53) by lia.
  unfold shr. destruct (Zdigits2 mx - 53) as [|p|p] eqn:E.
  - cbn [Z.to_nat Nat.iter]. f_equal. lia.
  - rewrite iter_pos_nat. reflexivity.
  - lia.
Qed.

(** Rounding [N / D * 2^ex] to binary64, when the integer part [mx] of N / D
    has at least 53 digits and the result neither underflows nor overflows:
    a mantissa of 53 digits within half a unit in the last place. *)
Lemma binary_round_aux_spec (sx : bool) (mx ex : Z) (lx : location) (N D : Z) :
  0 < D -> 0 < mx -> Represents (shr_record_of_loc mx lx) N D ->
  53 <= Zdigits2 mx -> -1074 <= Zdigits2 mx + ex - 53 ->
  Zdigits2 mx + ex - 52 <= 971 ->
  exists (m' : positive) (k : Z),
    binary_round_aux prec emax sx mx ex lx = S754_finite sx m' (ex + k)
    /\ 2 ^ 52 <= Zpos m' < 2 ^ 53
    /\ (k = Zdigits2 mx - 53 \/ k = Zdigits2 mx - 52)
    /\ 2 * Z.abs (Zpos m' * 2 ^ k * D - N) <= 2 ^ k * D.
Proof.
  intros HD Hmx HR Hd Hlo Hhi.
  set (n := Zdigits2 mx - 53) in *.
  assert (Hn : 0 <= n) by lia.
  set (P := 2 ^ n).
  assert (HP : 0 < P) by (apply Z.pow_pos_nonneg; lia).
  pose proof (iter_shr_1_represents (Z.to_nat n) _ N D HD HR) as HR'.
  rewrite Z2Nat.id in HR' by exact Hn. fold P in HR'.
  set (mrs' := Nat.iter (Z.to_nat n) shr_1 (shr_record_of_loc mx lx)) in *.
  assert (HPD : 0 < P * D) by (apply Z.mul_pos_pos; assumption).
  destruct (round_nearest_even_represents mrs' N (P * D) HPD HR')
    as [Hm1 Herr].
  set (m1 := round_nearest_even (shr_m mrs') (loc_of_shr_record mrs')) in *.
  (* the truncated mantissa has 53 digits *)
  assert (Hm0 : 2 ^ 52 <= shr_m mrs' < 2 ^ 53).
  { destruct HR as (_ & HN & _). rewrite shr_m_of_loc in HN.
    destruct HR' as (Hm0 & HN' & _).
    destruct mx as [|p|p]; try lia.
    pose proof (digits2_pos_bounds p) as [Dlo Dhi].
    change (Zpos (digits2_pos p)) with (Zdigits2 (Zpos p)) in Dlo, Dhi.
    replace (Zdigits2 (Zpos p) - 1) with (52 + n) in Dlo by (unfold n; lia).
    replace (Zdigits2 (Zpos p)) with (53 + n) in Dhi by (unfold n; lia).
    rewrite Z.pow_add_r in Dlo, Dhi by lia. fold P in Dlo, Dhi.
    split; nia. }
  unfold binary_round_aux.
  rewrite (shr_fexp_iter mx ex lx Hmx Hd Hlo). fold n mrs' m1.
  destruct (Z.eq_dec m1 (2 ^ 53)) as [Hc|Hc].
  - (* the rounding carried: one more shift *)
    rewrite Hc. exists (Z.to_pos (2 ^ 52)), (n + 1).
    assert (Hs2 : shr_fexp prec emax (2 ^ 53) (ex + n) loc_Exact
                  = ({| shr_m := 2 ^ 52; shr_r := false; shr_s := false |},
                     ex + n + 1)).
    { unfold shr_fexp, fexp, emin, prec, emax.
      change (Zdigits2 (2 ^ 53)) with 54.
      replace (Z.max (54 + (ex + n) - 53) (3 - 1024 - 53) - (ex + n)) with 1
        by lia.
      reflexivity. }
    rewrite Hs2. cbn [shr_m].
    change (2 ^ 52) with (Zpos (Z.to_pos (2 ^ 52))) at 1.
    cbv iota beta.
    replace (ex + n + 1 <=? emax - prec) with true
      by (symmetry; apply Z.leb_le; unfold emax, prec; lia).
    split; [f_equal; lia|].
    split; [change (Zpos (Z.to_pos (2 ^ 52))) with (2 ^ 52); lia|].
    split; [right; unfold n; lia|].
    change (Zpos (Z.to_pos (2 ^ 52))) with (2 ^ 52).
    rewrite Z.pow_add_r by lia. fold P. rewrite Hc in Herr.
    change (2 ^ 1) with 2. change (2 ^ 53) with (2 * 2 ^ 52) in Herr. nia.
  - assert (Hm1r : 2 ^ 52 <= m1 < 2 ^ 53) by lia.
    destruct m1 as [|q|q] eqn:Em1; try lia.
    exists q, n.
    assert (Hs2 : shr_fexp prec emax (Zpos q) (ex + n) loc_Exact
                  = ({| shr_m := Zpos q; shr_r := false; shr_s := false |},
                     ex + n)).
    { unfold shr_fexp, fexp, emin, prec, emax. cbn [Zdigits2].
      rewrite (digits2_unique q 53) by (change (53 - 1) with 52; exact Hm1r).
      replace (Z.max (53 + (ex + n) - 53) (3 - 1024 - 53) - (ex + n)) with 0
        by lia.
      reflexivity. }
    rewrite Hs2. cbn [shr_m]. cbv iota beta.
    replace (ex + n <=? emax - prec) with true
      by (symmetry; apply Z.leb_le; unfold emax, prec; lia).
    split; [reflexivity|]. split; [exact Hm1r|]. split; [left; reflexivity|].
    fold P. rewrite <- Z.mul_assoc. lia.
Qed.


Lemma pow2_lt_exp (a b : Z) : 0 <= a -> 0 <= b -> 2 ^ a < 2 ^ b -> a < b.
Proof.
  intros Ha Hb H. destruct (Z.lt_ge_cases a b) as [|Hge]; [assumption|].
  assert (2 ^ b <= 2 ^ a) by (apply Z.pow_le_mono_r; lia). lia.
Qed.

Lemma digits2_range (p : positive) (a b : Z) :
  0 <= a -> 0 <= b -> 2 ^ a <= Zpos p < 2 ^ b ->
  a < Zpos (digits2_pos p) <= b.
Proof.
  intros Ha Hb [Hlo Hhi]. pose proof (digits2_pos_bounds p) as [Dlo Dhi].
  split.
  - apply pow2_lt_exp; lia.
  - assert (Zpos (digits2_pos p) - 1 < b) by (apply pow2_lt_exp; lia). lia.
Qed.

Lemma new_location_1000_represents (q r : Z) :
  0 <= q -> 0 <= r < 1000 ->
  Represents (shr_record_of_loc q (new_location 1000 r)) (1000 * q + r) 1000.
Proof.
  intros Hq Hr. unfold new_location. change (Z.even 1000) with true.
  cbv iota. unfold new_location_even, Represents. rewrite shr_m_of_loc.
  replace (2 * (1000 * q + r - q * 1000)) with (2 * r) by lia.
  destruct (Z.leb_spec 1000 (2 * r)); destruct (Z.eqb_spec (2 * r) 0);
    destruct (Z.eqb_spec (2 * r) 1000); destruct (Z.eqb_spec r 0); try lia;
    destruct (Z.compare_spec (2 * r) 1000); try lia;
    cbn [shr_record_of_loc shr_r shr_s orb negb]; repeat split; lia.
Qed.

(** The quotient by 1000 of an integer below 2^50, rounded to binary64. *)
Lemma SFdiv_1000 (sx : bool) (p : positive) :
  Zpos p < 2 ^ 50 ->
  exists (m : positive) (s k : Z),
    SFdiv prec emax (S754_finite sx p 0) (S754_finite false 1000 0)
    = S754_finite sx m (k - s)
    /\ 13 <= s <= 62
    /\ 2 ^ 62 <= Zpos p * 2 ^ s < 2 ^ 63
    /\ 2 ^ 52 <= Zpos m < 2 ^ 53
    /\ 0 <= k <= 2
    /\ 2 * Z.abs (Zpos m * 2 ^ k * 1000 - Zpos p * 2 ^ s) <= 2 ^ k * 1000.
Proof.
  intros Hp.
  pose proof (digits2_pos_bounds p) as [Dlo Dhi].
  set (d1 := Zpos (digits2_pos p)) in *.
  assert (Hd1 : 1 <= d1 <= 50).
  { assert (1 <= d1) by (unfold d1; lia). split; [assumption|].
    assert (d1 - 1 < 50) by (apply pow2_lt_exp; lia). lia. }
  set (s := 63 - d1).
  assert (HM : 2 ^ 62 <= Zpos p * 2 ^ s < 2 ^ 63).
  { assert (Hs : 0 < 2 ^ s) by (apply Z.pow_pos_nonneg; unfold s; lia).
    replace 62 with ((d1 - 1) + s) by (unfold s; lia).
    replace 63 with (d1 + s) by (unfold s; lia).
    rewrite !Z.pow_add_r by (unfold s; lia). nia. }
  set (M := Zpos p * 2 ^ s) in *.
  pose proof (Z.div_mod M 1000 ltac:(lia)) as Hdm.
  pose proof (Z.mod_pos_bound M 1000 ltac:(lia)) as Hr.
  set (q := M / 1000) in *. set (r := M mod 1000) in *.
  assert (Hq : 2 ^ 52 <= q < 2 ^ 54).
  { change (2 ^ 52) with 4503599627370496.
    change (2 ^ 54) with 18014398509481984.
    change (2 ^ 62) with 4611686018427387904 in HM.
    change (2 ^ 63) with 9223372036854775808 in HM. lia. }
  assert (Hcore : SFdiv_core_binary prec emax (Zpos p) 0 1000 0
                  = (q, - s, new_location 1000 r)).
  { unfold SFdiv_core_binary, fexp, emin, prec, emax.
    change (Zdigits2 (Zpos p)) with d1. change (Zdigits2 1000) with 10.
    replace (Z.min (Z.max (d1 + 0 - (10 + 0) - 53) (3 - 1024 - 53)) (0 - 0))
      with (- s) by (unfold s; lia).
    replace (0 - 0 - - s) with s by lia.
    destruct s as [|ps|ps] eqn:Es; try lia.
    rewrite Z.shiftl_mul_pow2 by lia. fold M.
    unfold q, r, Z.div, Z.modulo. destruct (Z.div_eucl M 1000). reflexivity. }
  destruct q as [|pq|pq] eqn:Eq; try lia.
  assert (Hdq : 52 < Zdigits2 (Zpos pq) <= 54)
    by (apply digits2_range; lia).
  destruct (binary_round_aux_spec sx (Zpos pq) (- s)
              (new_location 1000 r) M 1000)
    as (m & k & Hres & Hm & Hk & Herr); try lia.
  { rewrite Hdm. apply new_location_1000_represents; lia. }
  exists m, s, k. unfold SFdiv. rewrite Hcore. rewrite xorb_false_r.
  rewrite Hres. split; [f_equal; lia|].
  split; [unfold s; lia|]. split; [exact HM|]. split; [exact Hm|].
  split; [lia | exact Herr].
Qed.

(** [float(1000)] *)
Lemma c1000 :
  binary_normalize prec emax 1000 0 false
  = S754_finite false 8796093022208000 (-43).
Proof. vm_compute. reflexivity. Qed.

(** A 53-digit mantissa with an exponent in range is a binary64 number. *)
Lemma valid_53 (sx : bool) (m : positive) (e : Z) :
  2 ^ 52 <= Zpos m < 2 ^ 53 -> -1074 <= e <= 971 ->
  valid_binary (S754_finite sx m e) = true.
Proof.
  intros Hm He. unfold SpecFloat.valid_binary, bounded, canonical_mantissa,
    fexp, emin, prec, emax.
  rewrite (digits2_unique m 53) by (change (53 - 1) with 52; exact Hm).
  apply andb_true_intro. split; [apply Z.eqb_eq | apply Z.leb_le]; lia.
Qed.

(** A 53-bit mantissa times 1000, rounded to binary64. *)
Lemma SFmul_1000 (sx : bool) (m : positive) (e : Z) :
  2 ^ 52 <= Zpos m < 2 ^ 53 -> -900 <= e <= 800 ->
  exists (m2 : positive) (k2 : Z),
    SFmul prec emax (S754_finite sx m e)
      (S754_finite false 8796093022208000 (-43))
    = S754_finite sx m2 (e - 43 + k2)
    /\ 2 ^ 52 <= Zpos m2 < 2 ^ 53
    /\ 52 <= k2 <= 54
    /\ 2 * Z.abs (Zpos m2 * 2 ^ k2 - Zpos m * 8796093022208000) <= 2 ^ k2.
Proof.
  intros Hm He. unfold SFmul. rewrite xorb_false_r.
  set (mx := Zpos (m * 8796093022208000)).
  assert (Hmx : 2 ^ 104 <= mx < 2 ^ 106).
  { unfold mx. rewrite Pos2Z.inj_mul.
    change (2 ^ 104) with (2 ^ 52 * 2 ^ 52).
    change (2 ^ 106) with (2 ^ 53 * 2 ^ 53).
    change (2 ^ 52) with 4503599627370496 in *.
    change (2 ^ 53) with 9007199254740992 in *. nia. }
  assert (Hd : 104 < Zdigits2 mx <= 106) by (apply digits2_range; lia).
  destruct (binary_round_aux_spec sx mx (e + -43) loc_Exact mx 1)
    as (m2 & k2 & Hres & Hm2 & Hk2 & Herr); try lia.
  { unfold Represents. cbn [shr_record_of_loc shr_m shr_r shr_s].
    replace (2 * (mx - mx * 1)) with 0 by lia. cbn. repeat split; lia. }
  exists m2, k2. rewrite Hres. split; [f_equal; lia|].
  split; [exact Hm2|]. split; [lia|].
  unfold mx in Herr. rewrite Pos2Z.inj_mul in Herr.
  rewrite !Z.mul_1_r in Herr. exact Herr.
Qed.


(** A float within a quarter of an integer rounds to it. *)
Lemma round_half_even_near (sx : bool) (m2 : positive) (a x : Z) :
  2 <= a -> Z.abs (Zpos m2 - x * 2 ^ a) <= 1 ->
  round_half_even (S754_finite sx m2 (- a)) = Some (if sx then - x else x).
Proof.
  intros Ha Hnear. unfold round_half_even.
  destruct (Z.leb_spec 0 (- a)) as [|_]; [lia|].
  rewrite Z.opp_involutive.
  assert (Hd : 4 <= 2 ^ a).
  { change 4 with (2 ^ 2). apply Z.pow_le_mono_r; lia. }
  set (d := 2 ^ a) in *.
  assert (Hcases : Zpos m2 = d * x + 0 \/ Zpos m2 = d * x + 1
                   \/ Zpos m2 = d * (x - 1) + (d - 1)) by lia.
  f_equal. f_equal.
  destruct Hcases as [E|[E|E]].
  - rewrite <- (Z.div_unique (Zpos m2) d x 0) by (auto; lia).
    rewrite <- (Z.mod_unique (Zpos m2) d x 0) by (auto; lia).
    destruct (Z.ltb_spec (2 * 0) d); [reflexivity | lia].
  - rewrite <- (Z.div_unique (Zpos m2) d x 1) by (auto; lia).
    rewrite <- (Z.mod_unique (Zpos m2) d x 1) by (auto; lia).
    destruct (Z.ltb_spec (2 * 1) d); [reflexivity | lia].
  - rewrite <- (Z.div_unique (Zpos m2) d (x - 1) (d - 1)) by (auto; lia).
    rewrite <- (Z.mod_unique (Zpos m2) d (x - 1) (d - 1)) by (auto; lia).
    destruct (Z.ltb_spec (2 * (d - 1)) d); [lia|].
    destruct (Z.ltb_spec d (2 * (d - 1))); [destruct sx; lia | lia].
Qed.

(** Replace the powers of two with literal exponents by their values. *)
Ltac pow2_literals :=
  repeat match goal with
         | H : context [2 ^ (?a + ?b - 43)] |- _ =>
             let v := eval vm_compute in (a + b - 43) in
             change (a + b - 43) with v in H
         end;
  repeat match goal with
         | H : context [2 ^ ?n] |- _ =>
             lazymatch n with
             | Zpos _ => idtac
             | Z0 => idtac
             end;
             let v := eval vm_compute in (2 ^ n) in
             change (2 ^ n) with v in H
         end.

(** For a nonzero integer below 2^50 in magnitude, dividing by 1000 and
    multiplying by 1000 in binary64 gives a float that rounds to the integer. *)
Lemma round_trip_signed (sx : bool) (p : positive) :
  Zpos p < 2 ^ 50 ->
  nearest_int
    (PrimFloat.mul
       (SF2Prim (SFdiv prec emax (S754_finite sx p 0)
                   (S754_finite false 1000 0)))
       (SF2Prim (binary_normalize prec emax 1000 0 false)))
  = Some (if sx then - Zpos p else Zpos p).
Proof.
  intros Hp.
  destruct (SFdiv_1000 sx p Hp)
    as (m & s & k & Hdiv & Hs & HM & Hm & Hk & Hed).
  rewrite Hdiv, c1000. unfold nearest_int.
  rewrite mul_spec. unfold SF64mul.
  rewrite !Prim2SF_SF2Prim
    by (apply valid_53; solve [assumption | lia | vm_compute; split; congruence]).
  destruct (SFmul_1000 sx m (k - s) Hm ltac:(lia))
    as (m2 & k2 & Hmul & Hm2 & Hk2 & Hem).
  rewrite Hmul.
  set (j := k + k2 - 43).
  set (a := s - j).
  assert (Ha : 0 <= a) by (unfold a, j; lia).
  replace (k - s - 43 + k2) with (- a) by (unfold a, j; lia).
  assert (Hpow : 2 ^ s = 2 ^ a * 2 ^ j).
  { rewrite <- Z.pow_add_r by (unfold j; lia). f_equal. unfold a. lia. }
  rewrite Hpow, Z.mul_assoc in Hed, HM.
  set (W := Zpos p * 2 ^ a) in *.
  change 8796093022208000 with (1000 * 2 ^ 43) in Hem.
  assert (Hnear : Z.abs (Zpos m2 - W) <= 1).
  { assert (Hkc : k = 0 \/ k = 1 \/ k = 2) by lia.
    assert (Hk2c : k2 = 52 \/ k2 = 53 \/ k2 = 54) by lia.
    unfold j in *. clear Hpow.
    destruct Hkc as [->|[->| ->]]; destruct Hk2c as [->|[->| ->]];
      pow2_literals; lia. }
  assert (Ha2 : 2 <= a).
  { destruct (Z.eq_dec a 0) as [E|E0].
    - exfalso. unfold W in Hnear. rewrite E in Hnear.
      change (2 ^ 0) with 1 in Hnear.
      change (2 ^ 50) with 1125899906842624 in Hp.
      change (2 ^ 52) with 4503599627370496 in Hm2. lia.
    - destruct (Z.eq_dec a 1) as [E|E1]; [|lia].
      exfalso. unfold W in Hnear. rewrite E in Hnear.
      change (2 ^ 1) with 2 in Hnear.
      change (2 ^ 50) with 1125899906842624 in Hp.
      change (2 ^ 52) with 4503599627370496 in Hm2. lia. }
  apply round_half_even_near; assumption.
Qed.

(** ** Milliunits to major units and back *)

Lemma Qc_of_Z_1000_nonzero : Qc_of_Z 1000 <> Q2Qc 0.
Proof. intros E. apply (f_equal this) in E. vm_compute in E. discriminate E. Qed.

(** In binary64, 1001 / 1000 * 1000 is not 1001 but the float just below it,
    1000.9999999999999. *)
Lemma round_trip_1001_inexact :
  round_trip (num := float) 1001 = next_down (of_int 1001)
  /\ neqb (round_trip (num := float) 1001) (of_int 1001) = false
  /\ nltb (round_trip (num := float) 1001) (of_int 1001) = true.
Proof. repeat split; vm_compute; reflexivity. Qed.

(** C9, amended. Dividing a milliunit amount by 1000 and multiplying the
    result by 1000 recovers the integer exactly in exact arithmetic, for every
    integer.  In the binary64 arithmetic of the code the product is subject to
    rounding, and what it recovers is the original after rounding to the
    nearest integer, for every amount below 2^50 in magnitude; at
    4494175152942849, between 2^51 and 2^52, the rounded product is off by
    one. *)
Theorem round_trip_recovers :
  (forall milli : Z, round_trip (num := Qc) milli = of_int milli)
  /\ (forall milli : Z, - 2 ^ 50 < milli < 2 ^ 50 ->
        nearest_int (round_trip (num := float) milli) = Some milli)
  /\ nearest_int (round_trip (num := float) 4494175152942849)
     = Some 4494175152942848.
Proof.
  split; [|split].
  - intros milli. unfold round_trip, to_milli, to_major.
    cbn [int_truediv nmul of_int Exact].
    unfold Qcdiv. rewrite <- Qcmult_assoc, (Qcmult_comm (/ _)).
    rewrite Qcmult_inv_r by exact Qc_of_Z_1000_nonzero. apply Qcmult_1_r.
  - intros milli Hx. destruct milli as [|p|p].
    + vm_compute. reflexivity.
    + apply (round_trip_signed false p). lia.
    + apply (round_trip_signed true p). lia.
  - vm_compute. reflexivity.
Qed.

Lemma round_trip_recovers_witness :
  - 2 ^ 50 < 1001 < 2 ^ 50
  /\ nearest_int (round_trip (num := float) 1001) = Some 1001.
Proof.
  assert (Hx : - 2 ^ 50 < 1001 < 2 ^ 50) by (vm_compute; split; reflexivity).
  split; [exact Hx|].
  exact (proj1 (proj2 round_trip_recovers) 1001 Hx).
Defined.

(** * Further properties *)

(** ** The aggregate as a ledger *)

Section LedgerFacts.
Context {num : Type} `{Number num}.

Implicit Types (m : totals num) (k : string) (t : transaction).

Lemma aggregate_step_post m t :
  aggregate_step m t
  = fold_left post (map (fun ka => (fst ka, snd ka, t)) (contributions_of t)) m.
Proof.
  unfold aggregate_step, contributions_of.
  destruct (is_transfer t); [reflexivity|].
  destruct (is_reconciliation t); [reflexivity|].
  destruct (get_list (subtransactions t)) as [|s subs].
  - destruct (is_inflow _); reflexivity.
  - generalize (s :: subs). clear. intros subs. revert m.
    induction subs as [|sub subs IH]; intros m; [reflexivity|].
    cbn [fold_left filter]. rewrite IH. unfold aggregate_sub at 1.
    destruct (is_inflow _); reflexivity.
Qed.

Lemma aggregate_by_category_post (txs : list transaction) m :
  fold_left aggregate_step txs m = fold_left post (ledger txs) m.
Proof.
  revert m; induction txs as [|t txs IH]; intros m; [reflexivity|].
  cbn [fold_left ledger flat_map]. rewrite fold_left_app, IH.
  now rewrite aggregate_step_post.
Qed.

Lemma booked_snoc k (l : list (string * Z * transaction))
  (e : string * Z * transaction) :
  booked k (l ++ [e])
  = booked k l ++ (if String.eqb (fst (fst e)) k then [e] else []).
Proof.
  unfold booked. rewrite filter_app. cbn [filter].
  destruct (String.eqb (fst (fst e)) k); reflexivity.
Qed.

Lemma booked_value_snoc (es : list (string * Z * transaction))
  (e : string * Z * transaction) :
  booked_value (es ++ [e]) = contribute (snd e) (snd (fst e)) (booked_value es).
Proof.
  unfold booked_value, contribute. cbn [total count transactions].
  rewrite fold_left_app, length_app, map_app. cbn [fold_left List.length map].
  f_equal. lia.
Qed.

(** The value under each key after booking a ledger. *)
Lemma lookup_posted (l : list (string * Z * transaction)) k :
  lookup k (fold_left post l [])
  = match booked k l with
    | [] => None
    | _ :: _ => Some (booked_value (booked k l))
    end.
Proof.
  induction l as [|e l IH] using rev_ind; [reflexivity|].
  rewrite fold_left_app. cbn [fold_left]. unfold post at 1.
  rewrite lookup_add_contribution, booked_snoc.
  destruct (String.eqb k (fst (fst e))) eqn:E.
  - apply String.eqb_eq in E. subst k. rewrite String.eqb_refl.
    unfold lookup_or_new. rewrite IH.
    destruct (booked (fst (fst e)) l) as [|b bs] eqn:Eb.
    + reflexivity.
    + rewrite booked_value_snoc.
      destruct ((b :: bs) ++ [e]) eqn:E'; [destruct bs; discriminate E'|].
      reflexivity.
  - rewrite String.eqb_sym, E, app_nil_r. exact IH.
Qed.

Lemma keys_posted_NoDup (l : list (string * Z * transaction)) :
  NoDup (keys (fold_left post l [])).
Proof.
  induction l as [|e l IH] using rev_ind; [constructor|].
  rewrite fold_left_app. cbn [fold_left]. unfold post at 1, add_contribution.
  rewrite keys_update. unfold ensure, has_key.
  destruct (lookup (fst (fst e)) (fold_left post l [])) eqn:E; [exact IH|].
  unfold keys. rewrite map_app. apply NoDup_app; [exact IH | repeat constructor; simpl; tauto|].
  intros a Ha [<-|[]]. cbn [fst] in Ha. apply lookup_In_keys in Ha.
  congruence.
Qed.

Lemma In_lookup_NoDup m k (v : aggregate num) :
  NoDup (keys m) -> In (k, v) m -> lookup k m = Some v.
Proof.
  induction m as [|[k' v'] m IH]; [intros _ []|].
  cbn [keys map fst lookup]. intros Hnd [Heq|Hin].
  - injection Heq as -> ->. now rewrite String.eqb_refl.
  - inversion Hnd as [|? ? Hk Hnd']; subst.
    destruct (String.eqb k' k) eqn:E.
    + apply String.eqb_eq in E. subst k'. exfalso. apply Hk.
      apply (in_map fst) in Hin. exact Hin.
    + apply IH; assumption.
Qed.

Lemma sum_counts_posted (l : list (string * Z * transaction)) :
  sum_counts (fold_left post l []) = List.length l.
Proof.
  assert (Hupd : forall m k (f : aggregate num -> aggregate num),
             (forall v, count (f v) = S (count v)) ->
             lookup k m <> None ->
             sum_counts (update k f m) = S (sum_counts m)).
  { intros m k f Hf. induction m as [|[k' v'] m IH]; cbn [lookup update];
      [congruence|].
    destruct (String.eqb k' k); cbn [sum_counts fold_right snd].
    - intros _. rewrite Hf. reflexivity.
    - intros Hl. fold (sum_counts (update k f m)). fold (sum_counts m).
      rewrite (IH Hl). lia. }
  assert (Hens : forall m k, sum_counts (ensure k m) = sum_counts m).
  { intros m k. unfold ensure. destruct (has_key k m); [reflexivity|].
    unfold sum_counts. rewrite fold_right_app. reflexivity. }
  induction l as [|e l IH] using rev_ind; [reflexivity|].
  rewrite fold_left_app, length_app. cbn [fold_left List.length].
  unfold post at 1, add_contribution.
  rewrite Hupd, Hens, IH; [lia | reflexivity|].
  rewrite lookup_ensure_same. discriminate.
Qed.

End LedgerFacts.

(** X1. The value [aggregate_by_category] holds under a category name is
    determined by the contributions booked under that name, in input order:
    a name without contribution has no entry; otherwise the total is zero
    minus each amount in major units, from left to right, the count is the
    number of contributions and the list holds their parents, a split as
    often as it has parts under the name. *)
Theorem aggregate_by_category_ledger {num : Type} `{Number num}
  (txs : list transaction) (k : string) :
  lookup k (aggregate_by_category (num := num) txs)
  = match booked k (ledger txs) with
    | [] => None
    | _ :: _ => Some (booked_value (booked k (ledger txs)))
    end.
Proof.
  unfold aggregate_by_category. rewrite aggregate_by_category_post.
  apply lookup_posted.
Qed.

(** X2. Every entry of the aggregate is consistent: its count is the length
    of its transaction list and is at least one, and no category name has
    two entries. *)
Theorem aggregate_entries_consistent {num : Type} `{Number num}
  (txs : list transaction) (k : string) (v : aggregate num) :
  In (k, v) (aggregate_by_category txs) ->
  count v = List.length (transactions v) /\ (1 <= count v)%nat /\
  NoDup (keys (aggregate_by_category (num := num) txs)).
Proof.
  intros Hin.
  assert (Hnd : NoDup (keys (aggregate_by_category (num := num) txs))).
  { unfold aggregate_by_category. rewrite aggregate_by_category_post.
    apply keys_posted_NoDup. }
  pose proof (In_lookup_NoDup _ _ _ Hnd Hin) as Hl.
  unfold aggregate_by_category in Hl.
  rewrite aggregate_by_category_post, lookup_posted in Hl.
  destruct (booked k (ledger txs)) as [|b bs]; [discriminate|].
  injection Hl as <-. unfold booked_value. cbn [count transactions].
  rewrite length_map. cbn [List.length]. repeat split; [lia | exact Hnd].
Qed.

Lemma aggregate_entries_consistent_witness :
  In ("Dining", {| total := 45%float; count := 1;
                   transactions := [Ex.purchase "2024-01-02" (-45000) "Dining"] |})
    (aggregate_by_category (num := float)
       [Ex.purchase "2024-01-02" (-45000) "Dining"]) /\
  (1%nat = List.length [Ex.purchase "2024-01-02" (-45000) "Dining"] /\
   (1 <= 1)%nat /\
   NoDup (keys (aggregate_by_category (num := float)
                  [Ex.purchase "2024-01-02" (-45000) "Dining"]))).
Proof.
  split; [left; reflexivity|].
  apply (aggregate_entries_consistent (num := float)
           [Ex.purchase "2024-01-02" (-45000) "Dining"] "Dining"
           {| total := 45%float; count := 1;
              transactions := [Ex.purchase "2024-01-02" (-45000) "Dining"] |}).
  left; reflexivity.
Defined.

(** X3. The counts of all categories add up to the number of contributions:
    one for each counted transaction without subtransactions, one for each
    counted part of a split. *)
Theorem aggregate_counts_total {num : Type} `{Number num}
  (txs : list transaction) :
  sum_counts (aggregate_by_category (num := num) txs)
  = List.length (ledger txs).
Proof.
  unfold aggregate_by_category. rewrite aggregate_by_category_post.
  apply sum_counts_posted.
Qed.

(** X4. A transaction without subtransactions counts like the split with the
    single part that carries its amount and category name: replacing one by
    the other anywhere in the input changes no key, total or count. *)
Theorem single_split_same_figures {num : Type} `{Number num}
  (pre post : list transaction) (t : transaction) :
  get_list (subtransactions t) = [] ->
  figures (aggregate_by_category (num := num)
             (pre ++ as_single_split t :: post))
  = figures (aggregate_by_category (pre ++ t :: post)).
Proof.
  intros Hs. rewrite !aggregate_by_category_app. cbn [fold_left].
  apply figures_fold_aggregate_step.
  generalize (aggregate_by_category (num := num) pre). intros m.
  unfold aggregate_step. 
  replace (is_transfer (as_single_split t)) with (is_transfer t)
    by reflexivity.
  replace (is_reconciliation (as_single_split t)) with (is_reconciliation t)
    by reflexivity.
  destruct (is_transfer t); [reflexivity|].
  destruct (is_reconciliation t); [reflexivity|].
  rewrite Hs. cbn [as_single_split subtransactions get_list fold_left].
  unfold aggregate_sub. cbn [sub_category_name sub_amount].
  destruct (is_inflow _); [reflexivity|].
  apply figures_add_contribution. reflexivity.
Qed.

Lemma single_split_same_figures_witness :
  get_list (subtransactions (Ex.purchase "2024-01-02" (-4500) "Dining")) = [] /\
  figures (aggregate_by_category (num := float)
             ([Ex.split]
                ++ as_single_split (Ex.purchase "2024-01-02" (-4500) "Dining")
                :: [Ex.income]))
  = figures (aggregate_by_category
               ([Ex.split] ++ Ex.purchase "2024-01-02" (-4500) "Dining"
                  :: [Ex.income])).
Proof.
  split; [reflexivity|].
  apply (single_split_same_figures (num := float) [Ex.split] [Ex.income]
           (Ex.purchase "2024-01-02" (-4500) "Dining")).
  reflexivity.
Defined.

(** ** The stable sort *)

Section StableSort.
Variable A : Type.
Variable goes_after : A -> A -> bool.

Lemma stable_insert_perm (x : A) (l : list A) :
  Permutation (stable_insert goes_after x l) (x :: l).
Proof.
  induction l as [|y l IH]; cbn [stable_insert]; [reflexivity|].
  destruct (goes_after x y); [|reflexivity].
  rewrite IH. apply perm_swap.
Qed.

Lemma stable_sort_perm (l : list A) : Permutation (stable_sort goes_after l) l.
Proof.
  induction l as [|x l IH]; [reflexivity|].
  unfold stable_sort in *. cbn [fold_right].
  rewrite stable_insert_perm. now constructor.
Qed.

(** Items that never have to go after each other keep their order. *)
Lemma stable_insert_filter (f : A -> bool) (x : A) (l : list A) :
  (forall y, f x = true -> f y = true -> goes_after x y = false) ->
  filter f (stable_insert goes_after x l) = filter f (x :: l).
Proof.
  intros Hf. induction l as [|y l IH]; cbn [stable_insert]; [reflexivity|].
  destruct (goes_after x y) eqn:E; [|reflexivity].
  cbn [filter] in *. rewrite IH.
  destruct (f x) eqn:Ex, (f y) eqn:Ey; try reflexivity.
  rewrite (Hf y eq_refl Ey) in E. discriminate.
Qed.

Lemma stable_sort_filter (f : A -> bool) (l : list A) :
  (forall x y, f x = true -> f y = true -> goes_after x y = false) ->
  filter f (stable_sort goes_after l) = filter f l.
Proof.
  intros Hf. induction l as [|x l IH]; [reflexivity|].
  unfold stable_sort in *. cbn [fold_right].
  rewrite stable_insert_filter by (intros y; apply Hf).
  cbn [filter]. now rewrite IH.
Qed.

(** On the items of [P], on which the order is strict and total up to
    ties, no item of the result has to go after a later one. *)
Variable P : A -> Prop.
Hypothesis asym : forall x y,
  P x -> P y -> goes_after x y = true -> goes_after y x = false.
Hypothesis negtrans : forall x y z,
  P x -> P y -> P z ->
  goes_after x y = false -> goes_after y z = false -> goes_after x z = false.

Lemma stable_insert_sorted (x : A) (l : list A) :
  P x -> Forall P l ->
  StronglySorted (fun a b => goes_after a b = false) l ->
  StronglySorted (fun a b => goes_after a b = false)
    (stable_insert goes_after x l).
Proof.
  intros Px Pl Hs. induction Hs as [|y l Hs IH Hy]; cbn [stable_insert].
  - repeat constructor.
  - inversion Pl as [|? ? Py Pl']; subst.
    destruct (goes_after x y) eqn:E.
    + constructor; [apply IH, Pl'|].
      rewrite (Forall_forall). intros b Hb.
      apply (Permutation_in _ (stable_insert_perm x l)) in Hb.
      destruct Hb as [<-|Hb]; [apply asym; assumption|].
      rewrite Forall_forall in Hy. apply Hy, Hb.
    + constructor; [constructor; assumption|].
      constructor; [exact E|].
      rewrite Forall_forall in *. intros b Hb.
      apply (negtrans x y b); auto.
Qed.

Lemma stable_sort_sorted (l : list A) :
  Forall P l ->
  StronglySorted (fun a b => goes_after a b = false) (stable_sort goes_after l).
Proof.
  induction 1 as [|x l Px Pl IH]; [constructor|].
  unfold stable_sort in *. cbn [fold_right].
  apply stable_insert_sorted; [exact Px| |exact IH].
  rewrite Forall_forall in *. intros b Hb. apply Pl.
  apply (Permutation_in _ (stable_sort_perm l)), Hb.
Qed.

End StableSort.

(** ** The order of strings *)

Lemma ltb_lt (x y : string) :
  String.ltb x y = true <-> OrderedTypeEx.String_as_OT.lt x y.
Proof.
  rewrite <- OrderedTypeEx.String_as_OT.cmp_lt. unfold String.ltb.
  change OrderedTypeEx.String_as_OT.cmp with String.compare.
  destruct (String.compare x y); split; congruence.
Qed.

Lemma ltb_asym (x y : string) : String.ltb x y = true -> String.ltb y x = false.
Proof.
  unfold String.ltb. rewrite (String.compare_antisym y x).
  destruct (String.compare x y); simpl; congruence.
Qed.

Lemma ltb_negtrans (x y z : string) :
  String.ltb x y = false -> String.ltb y z = false -> String.ltb x z = false.
Proof.
  intros Hxy Hyz. destruct (String.ltb x z) eqn:Hxz; [|reflexivity].
  exfalso. unfold String.ltb in Hxy.
  destruct (String.compare x y) eqn:C; try discriminate.
  - apply String.compare_eq_iff in C. subst y. congruence.
  - assert (Hyx : String.ltb y x = true).
    { unfold String.ltb. rewrite String.compare_antisym, C. reflexivity. }
    apply ltb_lt in Hyx, Hxz.
    pose proof (OrderedTypeEx.String_as_OT.lt_trans _ _ _ Hyx Hxz) as Hlt.
    apply ltb_lt in Hlt. congruence.
Qed.

Lemma ltb_irrefl (x : string) : String.ltb x x = false.
Proof.
  destruct (String.ltb x x) eqn:E; [|reflexivity].
  now rewrite (ltb_asym _ _ E) in E.
Qed.

(** ** The transactions of the last week *)

Lemma actual_transactions_filter (txs : list transaction) :
  actual_transactions txs = filter actual_keep txs.
Proof.
  induction txs as [|t txs IH]; [reflexivity|].
  cbn [actual_transactions filter]. unfold actual_keep.
  destruct (truthy (scheduled_transaction_id t)); [exact IH|].
  destruct (is_transfer t); [exact IH|].
  destruct (is_reconciliation t); [exact IH|].
  destruct (is_inflow _); cbn [negb andb]; [exact IH | now rewrite IH].
Qed.

Lemma actual_keep_rule (t : transaction) :
  actual_keep t = true <-> actual_rule t.
Proof.
  unfold actual_keep, actual_rule.
  rewrite !andb_true_iff, !negb_true_iff.
  rewrite get_or_empty, is_inflow_false.
  unfold is_reconciliation. rewrite get_or_empty.
  assert (Hr : reconciliation_payee (name_of (payee_name t)) = false <->
               ~ reconciliation_name (name_of (payee_name t))).
  { rewrite <- reconciliation_payee_spec.
    destruct (reconciliation_payee _); split; congruence. }
  assert (Ht : forall f, truthy f = false <-> ~ present f).
  { intros f. rewrite <- truthy_present.
    destruct (truthy _); split; congruence. }
  unfold is_transfer. rewrite Hr, !Ht. tauto.
Qed.

Lemma date_keys_ok (txs : list transaction)
  (keyed : list (option string * transaction)) :
  date_keys txs = Ok keyed ->
  keyed = map (fun t => (key_of t, t)) txs /\
  forall t, In t txs -> date t <> Absent.
Proof.
  revert keyed; induction txs as [|t txs IH]; intros keyed; cbn [date_keys].
  - intros [= <-]. split; [reflexivity | intros t []].
  - unfold date_key. cbn [map].
    destruct (date t) eqn:Ed; cbn [bind]; [discriminate| |];
      (destruct (date_keys txs) as [ks|e]; cbn [bind]; [|discriminate];
       intros [= <-]; destruct (IH ks eq_refl) as [-> Hall];
       split; [unfold key_of; rewrite Ed; reflexivity|];
       intros t' [<-|Hin]; [congruence | apply Hall, Hin]).
Qed.

Lemma date_keys_raise (txs : list transaction) (e : exn) :
  date_keys txs = Raise e ->
  e = KeyError /\ exists t, In t txs /\ date t = Absent.
Proof.
  induction txs as [|t txs IH]; cbn [date_keys]; [discriminate|].
  unfold date_key.
  destruct (date t) eqn:Ed; cbn [bind].
  - intros [= <-]. split; [reflexivity|]. exists t. split; [now left | exact Ed].
  - destruct (date_keys txs) as [ks|e']; cbn [bind]; [discriminate|].
    intros [= <-]. destruct (IH eq_refl) as [-> (t' & Hin & Ht')].
    split; [reflexivity|]. exists t'. split; [now right | exact Ht'].
  - destruct (date_keys txs) as [ks|e']; cbn [bind]; [discriminate|].
    intros [= <-]. destruct (IH eq_refl) as [-> (t' & Hin & Ht')].
    split; [reflexivity|]. exists t'. split; [now right | exact Ht'].
Qed.

Lemma existsb_none_keys (txs : list transaction) :
  existsb (fun kt => is_none (fst kt)) (map (fun t => (key_of t, t)) txs) = true
  <-> exists t, In t txs /\ key_of t = None.
Proof.
  rewrite existsb_exists. split.
  - intros (kt & Hin & Hn). apply in_map_iff in Hin.
    destruct Hin as (t & <- & Hin). exists t. split; [exact Hin|].
    cbn [fst] in Hn. destruct (key_of t); [discriminate | reflexivity].
  - intros (t & Hin & Hn). exists (key_of t, t). split.
    + apply in_map_iff. exists t. auto.
    + cbn [fst]. now rewrite Hn.
Qed.

(** What the sort returns, in terms of the list it is given. *)
Lemma sort_by_date_desc_ok (txs r : list transaction) :
  sort_by_date_desc txs = Ok r ->
  r = map snd (stable_sort (fun x y => key_ltb (fst x) (fst y))
                 (map (fun t => (key_of t, t)) txs)) /\
  ((2 <= List.length txs)%nat -> forall t, In t txs -> exists d, date t = Val d).
Proof.
  unfold sort_by_date_desc.
  destruct (date_keys txs) as [keyed|e] eqn:Ek; cbn [bind]; [|discriminate].
  destruct (date_keys_ok _ _ Ek) as [-> Hall].
  rewrite length_map.
  destruct ((2 <=? List.length txs)%nat) eqn:El; cbn [andb].
  - destruct (existsb _ _) eqn:Ex; [discriminate|].
    intros [= <-]. split; [reflexivity|]. intros _ t Hin.
    destruct (date t) eqn:Ed.
    + exfalso. apply (Hall t Hin Ed).
    + exfalso. assert (Hex : existsb (fun kt => is_none (fst kt))
                     (map (fun t => (key_of t, t)) txs) = true).
      { apply existsb_none_keys. exists t. split; [exact Hin|].
        unfold key_of. now rewrite Ed. }
      congruence.
    + eauto.
  - intros [= <-]. split; [reflexivity|].
    apply Nat.leb_gt in El. lia.
Qed.

Lemma map_snd_keyed (txs : list transaction) :
  map snd (map (fun t => (key_of t, t)) txs) = txs.
Proof. rewrite map_map. cbn [snd]. apply map_id. Qed.

Lemma StronglySorted_split {A : Type} (R : A -> A -> Prop)
  (l1 l2 : list A) (a : A) :
  StronglySorted R (l1 ++ a :: l2) -> Forall (R a) l2.
Proof.
  induction l1 as [|x l1 IH]; cbn [app]; intros Hs.
  - now apply StronglySorted_inv in Hs.
  - apply IH. now apply StronglySorted_inv in Hs.
Qed.

(** X5. When [get_last_week_transactions] returns, the list is a
    rearrangement of the fetched transactions that pass the four tests: it
    holds exactly the fetched transactions that come from no schedule, are
    no transfer, no reconciliation and no inflow, each as often as it was
    fetched. *)
Theorem last_week_membership (fetched r : list transaction) :
  get_last_week_transactions fetched = Ok r ->
  Permutation r (filter actual_keep fetched) /\
  (forall t, In t r <-> In t fetched /\ actual_rule t).
Proof.
  unfold get_last_week_transactions. rewrite actual_transactions_filter.
  intros Hr. destruct (sort_by_date_desc_ok _ _ Hr) as [-> _].
  assert (Hp : Permutation
                 (map snd (stable_sort (fun x y => key_ltb (fst x) (fst y))
                    (map (fun t => (key_of t, t)) (filter actual_keep fetched))))
                 (filter actual_keep fetched)).
  { rewrite <- (map_snd_keyed (filter actual_keep fetched)) at 2.
    apply Permutation_map, stable_sort_perm. }
  split; [exact Hp|]. intros t. rewrite <- actual_keep_rule, <- filter_In.
  split; intros Hin.
  - apply (Permutation_in _ Hp), Hin.
  - apply (Permutation_in _ (Permutation_sym Hp)), Hin.
Qed.

Lemma last_week_membership_witness :
  get_last_week_transactions
    [Ex.transfer; Ex.purchase "2024-01-02" (-1500) "Dining"; Ex.income;
     Ex.purchase "2024-01-03" (-2500) "Fuel"]
  = Ok [Ex.purchase "2024-01-03" (-2500) "Fuel";
        Ex.purchase "2024-01-02" (-1500) "Dining"] /\
  (Permutation
     [Ex.purchase "2024-01-03" (-2500) "Fuel";
      Ex.purchase "2024-01-02" (-1500) "Dining"]
     (filter actual_keep
        [Ex.transfer; Ex.purchase "2024-01-02" (-1500) "Dining"; Ex.income;
         Ex.purchase "2024-01-03" (-2500) "Fuel"]) /\
   (forall t,
      In t [Ex.purchase "2024-01-03" (-2500) "Fuel";
            Ex.purchase "2024-01-02" (-1500) "Dining"]
      <-> In t [Ex.transfer; Ex.purchase "2024-01-02" (-1500) "Dining";
                Ex.income; Ex.purchase "2024-01-03" (-2500) "Fuel"]
          /\ actual_rule t)).
Proof.
  split; [reflexivity|].
  apply (last_week_membership
           [Ex.transfer; Ex.purchase "2024-01-02" (-1500) "Dining"; Ex.income;
            Ex.purchase "2024-01-03" (-2500) "Fuel"]).
  reflexivity.
Defined.

(** X6. The list [get_last_week_transactions] returns is in descending order
    of the date strings: no transaction stands before one with a greater
    date.  The sort is stable: the transactions of one date keep the order
    in which they were fetched. *)
Theorem last_week_sorted (fetched r : list transaction) :
  get_last_week_transactions fetched = Ok r ->
  (forall (r1 r2 : list transaction) (a b : transaction),
     r = r1 ++ a :: r2 -> In b r2 ->
     exists da db : string,
       date a = Val da /\ date b = Val db /\ String.ltb da db = false) /\
  (forall d : string,
     filter (dated d) r = filter (dated d) (filter actual_keep fetched)).
Proof.
  unfold get_last_week_transactions. rewrite actual_transactions_filter.
  generalize (filter actual_keep fetched). intros kept Hr.
  destruct (sort_by_date_desc_ok _ _ Hr) as [-> Hval].
  set (g := fun x y : option string * transaction => key_ltb (fst x) (fst y)).
  set (keyed := map (fun t => (key_of t, t)) kept).
  assert (Hin : forall kt, In kt (stable_sort g keyed) ->
                           In (snd kt) kept /\ fst kt = key_of (snd kt)).
  { intros kt Hkt. apply (Permutation_in _ (stable_sort_perm _ g keyed)) in Hkt.
    apply in_map_iff in Hkt. destruct Hkt as (t & <- & Ht). auto. }
  split.
  - intros r1 r2 a b Heq Hb.
    assert (Hlen : (2 <= List.length kept)%nat).
    { apply (f_equal (@List.length _)) in Heq.
      rewrite length_map, (Permutation_length (stable_sort_perm _ g keyed)) in Heq.
      unfold keyed in Heq. rewrite length_map, length_app in Heq.
      cbn [List.length] in Heq.
      destruct r2; [destruct Hb | cbn [List.length] in Heq; lia]. }
    specialize (Hval Hlen).
    set (P := fun kt : option string * transaction =>
                exists d, fst kt = Some d /\ date (snd kt) = Val d).
    assert (HP : Forall P keyed).
    { apply Forall_forall. intros kt Hkt. apply in_map_iff in Hkt.
      destruct Hkt as (t & <- & Ht). destruct (Hval t Ht) as (d & Hd).
      exists d. cbn [fst snd]. unfold key_of. rewrite Hd. auto. }
    assert (Hs : StronglySorted (fun x y => g x y = false) (stable_sort g keyed)).
    { apply (stable_sort_sorted _ g P); [| |exact HP].
      - intros x y (dx & Hx & _) (dy & Hy & _). unfold g.
        rewrite Hx, Hy. apply ltb_asym.
      - intros x y z (dx & Hx & _) (dy & Hy & _) (dz & Hz & _). unfold g.
        rewrite Hx, Hy, Hz. apply ltb_negtrans. }
    apply map_eq_app in Heq. destruct Heq as (L1 & L2' & HL & <- & H2).
    apply map_eq_cons in H2. destruct H2 as (ka & L2 & -> & <- & <-).
    rewrite HL in Hs. apply StronglySorted_split in Hs.
    apply in_map_iff in Hb. destruct Hb as (kb & <- & Hkb).
    rewrite Forall_forall in Hs. specialize (Hs kb Hkb).
    assert (Pa : P ka).
    { rewrite Forall_forall in HP. apply HP.
      apply (Permutation_in _ (stable_sort_perm _ g keyed)).
      rewrite HL. apply in_or_app. right. now left. }
    assert (Pb : P kb).
    { rewrite Forall_forall in HP. apply HP.
      apply (Permutation_in _ (stable_sort_perm _ g keyed)).
      rewrite HL. apply in_or_app. right. now right. }
    destruct Pa as (da & Ha & Hda), Pb as (db & Hb & Hdb).
    exists da, db. unfold g in Hs. rewrite Ha, Hb in Hs. auto.
  - intros d.
    set (f := fun kt : option string * transaction =>
                match fst kt with
                | Some s => String.eqb s d
                | None => false
                end).
    assert (Hf : forall kt, fst kt = key_of (snd kt) -> dated d (snd kt) = f kt).
    { intros kt Hk. unfold f, dated. rewrite Hk. unfold key_of.
      destruct (date (snd kt)); reflexivity. }
    transitivity (map snd (filter f (stable_sort g keyed))).
    { induction (stable_sort g keyed) as [|kt L IH]; [reflexivity|].
      cbn [map filter]. rewrite Hf by (apply Hin; now left).
      rewrite IH by (intros kt' Hkt'; apply Hin; now right).
      destruct (f kt); reflexivity. }
    rewrite stable_sort_filter.
    + unfold keyed, f. clear. induction kept as [|t kept IH]; [reflexivity|].
      cbn [map filter fst]. rewrite <- IH. unfold dated, key_of at 1.
      destruct (date t) as [| |s]; try reflexivity.
      destruct (String.eqb s d); reflexivity.
    + intros x y Hx Hy. unfold f in Hx, Hy. unfold g.
      destruct (fst x) as [sx|]; [|discriminate].
      destruct (fst y) as [sy|]; [|discriminate].
      apply String.eqb_eq in Hx, Hy. subst. apply ltb_irrefl.
Qed.

Lemma last_week_sorted_witness :
  get_last_week_transactions
    [Ex.purchase "2024-01-02" (-1500) "Dining";
     Ex.purchase "2024-01-03" (-2500) "Fuel";
     Ex.purchase "2024-01-02" (-700) "Fuel"]
  = Ok [Ex.purchase "2024-01-03" (-2500) "Fuel";
        Ex.purchase "2024-01-02" (-1500) "Dining";
        Ex.purchase "2024-01-02" (-700) "Fuel"] /\
  forall d : string,
    filter (dated d)
      [Ex.purchase "2024-01-03" (-2500) "Fuel";
       Ex.purchase "2024-01-02" (-1500) "Dining";
       Ex.purchase "2024-01-02" (-700) "Fuel"]
    = filter (dated d)
        (filter actual_keep
           [Ex.purchase "2024-01-02" (-1500) "Dining";
            Ex.purchase "2024-01-03" (-2500) "Fuel";
            Ex.purchase "2024-01-02" (-700) "Fuel"]).
Proof.
  split; [reflexivity|].
  apply (last_week_sorted
           [Ex.purchase "2024-01-02" (-1500) "Dining";
            Ex.purchase "2024-01-03" (-2500) "Fuel";
            Ex.purchase "2024-01-02" (-700) "Fuel"]).
  reflexivity.
Defined.

(** X7. [get_last_week_transactions] raises [KeyError] exactly when a
    transaction that passes the four tests has no date key, and [TypeError]
    exactly when all of them have the key, there are two or more, and one
    of the dates is null; it raises nothing else.  The dates of the
    excluded transactions are never read, and a single kept transaction
    with a null date is returned. *)
Theorem last_week_errors (fetched : list transaction) :
  (get_last_week_transactions fetched = Raise KeyError <->
   exists t, In t (filter actual_keep fetched) /\ date t = Absent) /\
  (get_last_week_transactions fetched = Raise TypeError <->
   (forall t, In t (filter actual_keep fetched) -> date t <> Absent) /\
   (2 <= List.length (filter actual_keep fetched))%nat /\
   exists t, In t (filter actual_keep fetched) /\ date t = Null) /\
  (forall e, get_last_week_transactions fetched = Raise e ->
             e = KeyError \/ e = TypeError).
Proof.
  unfold get_last_week_transactions. rewrite actual_transactions_filter.
  generalize (filter actual_keep fetched). intros kept.
  unfold sort_by_date_desc.
  destruct (date_keys kept) as [keyed|e] eqn:Ek; cbn [bind].
  - destruct (date_keys_ok _ _ Ek) as [-> Hall]. rewrite length_map.
    assert (Hnull : existsb (fun kt => is_none (fst kt))
                      (map (fun t => (key_of t, t)) kept) = true
                    <-> exists t, In t kept /\ date t = Null).
    { rewrite existsb_none_keys. split; intros (t & Hin & Ht); exists t;
        (split; [exact Hin|]); unfold key_of in *.
      - specialize (Hall t Hin). destruct (date t); congruence.
      - now rewrite Ht. }
    destruct ((2 <=? List.length kept)%nat) eqn:El; cbn [andb].
    + apply Nat.leb_le in El.
      destruct (existsb _ _) eqn:Ex.
      * split; [|split].
        -- split; [discriminate|]. intros (t & Hin & Ht).
           exfalso. apply (Hall t Hin Ht).
        -- split; [|reflexivity]. intros _.
           split; [exact Hall|]. split; [exact El|]. now apply Hnull.
        -- intros e [= <-]. now right.
      * split; [|split].
        -- split; [discriminate|]. intros (t & Hin & Ht).
           exfalso. apply (Hall t Hin Ht).
        -- split; [discriminate|]. intros (_ & _ & Hex).
           apply Hnull in Hex. discriminate.
        -- discriminate.
    + apply Nat.leb_gt in El. split; [|split].
      * split; [discriminate|]. intros (t & Hin & Ht).
        exfalso. apply (Hall t Hin Ht).
      * split; [discriminate|]. intros (_ & Hl & _). lia.
      * discriminate.
  - destruct (date_keys_raise _ _ Ek) as [-> (t & Hin & Ht)].
    split; [|split].
    + split; [eauto | reflexivity].
    + split; [discriminate|]. intros (Hall & _). exfalso.
      apply (Hall t Hin Ht).
    + intros e [= <-]. now left.
Qed.

(** ** The transactions of the last month *)

Lemma monthly_keep_cases (p : string) (t : transaction) (d : string) :
  date t = Val d ->
  (if negb (prefix p d) then false
   else if truthy (scheduled_transaction_id t) then false
   else if is_transfer t then false
   else if is_reconciliation t then false
   else if is_inflow (get_or (category_name t) "") then false
   else true) = monthly_keep p t.
Proof.
  intros Hd. unfold monthly_keep, actual_keep, str_value. rewrite Hd.
  destruct (prefix p d); [|reflexivity].
  destruct (truthy (scheduled_transaction_id t)); [reflexivity|].
  destruct (is_transfer t); [reflexivity|].
  destruct (is_reconciliation t); [reflexivity|].
  destruct (is_inflow _); reflexivity.
Qed.

Lemma last_month_loop_returns (p : string) (fetched r : list transaction) :
  last_month_loop p fetched = Returns r ->
  r = filter (monthly_keep p) fetched /\ forall t, In t fetched -> has_date t.
Proof.
  revert r; induction fetched as [|t fetched IH]; intros r;
    cbn [last_month_loop filter].
  - intros [= <-]. split; [reflexivity | intros t []].
  - destruct (date t) as [| |d] eqn:Ed; try discriminate.
    rewrite (monthly_keep_cases p t d Ed).
    destruct (last_month_loop p fetched) as [kept|e]; [|discriminate].
    intros [= <-]. destruct (IH kept eq_refl) as [-> Hall].
    split.
    + destruct (monthly_keep p t); reflexivity.
    + intros t' [<-|Hin]; [exists d; exact Ed | apply Hall, Hin].
Qed.

Lemma last_month_loop_total (p : string) (fetched : list transaction) :
  (forall t, In t fetched -> has_date t) ->
  last_month_loop p fetched = Returns (filter (monthly_keep p) fetched).
Proof.
  induction fetched as [|t fetched IH]; intros Hall; [reflexivity|].
  cbn [last_month_loop filter].
  destruct (Hall t (or_introl eq_refl)) as (d & Ed). rewrite Ed.
  rewrite (monthly_keep_cases p t d Ed).
  rewrite IH by (intros t' Hin; apply Hall; now right).
  destruct (monthly_keep p t); reflexivity.
Qed.

Lemma last_month_loop_raises (p : string) (fetched : list transaction)
  (e : error) :
  last_month_loop p fetched = Raises e <->
  exists (pre post : list transaction) (t : transaction),
    fetched = pre ++ t :: post /\ (forall t', In t' pre -> has_date t') /\
    date_error t = Some e.
Proof.
  induction fetched as [|t fetched IH]; cbn [last_month_loop].
  - split; [discriminate|]. intros (pre & post & t & Heq & _).
    destruct pre; discriminate.
  - split.
    + destruct (date t) as [| |d] eqn:Ed.
      * intros [= <-]. exists [], fetched, t. unfold date_error. rewrite Ed.
        split; [reflexivity|]. split; [intros t' []|reflexivity].
      * intros [= <-]. exists [], fetched, t. unfold date_error. rewrite Ed.
        split; [reflexivity|]. split; [intros t' []|reflexivity].
      * destruct (last_month_loop p fetched) as [kept|e'] eqn:El; [discriminate|].
        intros [= <-].
        destruct (proj1 IH eq_refl) as (pre & post & t0 & -> & Hpre & Ht0).
        exists (t :: pre), post, t0. split; [reflexivity|].
        split; [|exact Ht0].
        intros t' [<-|Hin]; [exists d; exact Ed | apply Hpre, Hin].
    + intros (pre & post & t0 & Heq & Hpre & Ht0).
      destruct pre as [|t1 pre]; cbn [app] in Heq; injection Heq as <- ->.
      * unfold date_error in Ht0. destruct (date t); congruence.
      * destruct (Hpre t (or_introl eq_refl)) as (d & ->).
        assert (Hr : last_month_loop p (pre ++ t0 :: post) = Raises e).
        { apply IH. exists pre, post, t0. split; [reflexivity|].
          split; [|exact Ht0].
          intros t' Hin. apply Hpre. now right. }
        now rewrite Hr.
Qed.

(** X8. When [get_last_month_transactions] returns, the list holds, in the
    order fetched, exactly the transactions whose date starts with the
    month string and that come from no schedule, are no transfer, no
    reconciliation and no inflow; and every fetched transaction, kept or
    not, has a date. *)
Theorem last_month_membership (last_month_str : string)
  (fetched r : list transaction) :
  last_month_loop last_month_str fetched = Returns r ->
  r = filter (monthly_keep last_month_str) fetched /\
  (forall t, In t r <->
             In t fetched /\ actual_rule t /\
             exists d, date t = Val d /\ prefix last_month_str d = true) /\
  (forall t, In t fetched -> has_date t).
Proof.
  intros Hr. destruct (last_month_loop_returns _ _ _ Hr) as [-> Hall].
  split; [reflexivity|]. split; [|exact Hall].
  intros t. rewrite filter_In. unfold monthly_keep.
  rewrite andb_true_iff, actual_keep_rule.
  split.
  - intros (Hin & Hp & Hrule). split; [exact Hin|]. split; [exact Hrule|].
    destruct (Hall t Hin) as (d & Hd). exists d. split; [exact Hd|].
    unfold str_value in Hp. now rewrite Hd in Hp.
  - intros (Hin & Hrule & d & Hd & Hp). split; [exact Hin|].
    split; [|exact Hrule]. unfold str_value. now rewrite Hd.
Qed.

Lemma last_month_membership_witness :
  last_month_loop "2024-01"
    [Ex.transfer; Ex.purchase "2024-01-02" (-1500) "Dining"; Ex.income;
     Ex.purchase "2024-02-01" (-2500) "Fuel"]
  = Returns [Ex.purchase "2024-01-02" (-1500) "Dining"] /\
  [Ex.purchase "2024-01-02" (-1500) "Dining"]
  = filter (monthly_keep "2024-01")
      [Ex.transfer; Ex.purchase "2024-01-02" (-1500) "Dining"; Ex.income;
       Ex.purchase "2024-02-01" (-2500) "Fuel"].
Proof.
  split; [reflexivity|].
  apply (last_month_membership "2024-01"
           [Ex.transfer; Ex.purchase "2024-01-02" (-1500) "Dining"; Ex.income;
            Ex.purchase "2024-02-01" (-2500) "Fuel"]).
  reflexivity.
Defined.

(** X9. [get_last_month_transactions] reads the date of every fetched
    transaction before any other test.  It raises exactly when some fetched
    transaction has no date string, and then what the first such
    transaction gives: [KeyError] for a missing key, [AttributeError] for a
    null; this holds for transfers, reconciliations and inflows too.
    Otherwise it returns. *)
Theorem last_month_errors (last_month_str : string)
  (fetched : list transaction) :
  (forall e : error,
     last_month_loop last_month_str fetched = Raises e <->
     exists (pre post : list transaction) (t : transaction),
       fetched = pre ++ t :: post /\ (forall t', In t' pre -> has_date t') /\
       date_error t = Some e) /\
  ((forall t, In t fetched -> has_date t) <->
   last_month_loop last_month_str fetched
   = Returns (filter (monthly_keep last_month_str) fetched)).
Proof.
  split; [intros e; apply last_month_loop_raises|].
  split; [apply last_month_loop_total|].
  intros Hr. apply (last_month_loop_returns _ _ _ Hr).
Qed.

(** ** The clock *)

Lemma month_length_range (y m : Z) : 28 <= Calendar.month_length y m <= 31.
Proof.
  unfold Calendar.month_length.
  destruct (m =? 2); [destruct (Calendar.is_leap y); lia|].
  destruct ((m =? 4) || (m =? 6) || (m =? 9) || (m =? 11)); lia.
Qed.

Lemma days_before_month_succ (y m : Z) :
  1 <= m ->
  Calendar.days_before_month y (m + 1)
  = Calendar.days_before_month y m + Calendar.month_length y m.
Proof.
  intros Hm. unfold Calendar.days_before_month.
  replace (Z.to_nat (m + 1 - 1)) with (S (Z.to_nat (m - 1))) by lia.
  cbn [Calendar.days_before_month_aux].
  replace (Z.of_nat (S (Z.to_nat (m - 1)))) with m by lia. reflexivity.
Qed.

Lemma year_length (y : Z) :
  Calendar.days_before_year (y + 1)
  = Calendar.days_before_year y + 365 + (if Calendar.is_leap y then 1 else 0).
Proof.
  unfold Calendar.days_before_year, Calendar.is_leap.
  replace (y + 1 - 1) with y by lia.
  destruct (y mod 4 =? 0) eqn:E4; destruct (y mod 100 =? 0) eqn:E100;
    destruct (y mod 400 =? 0) eqn:E400; cbn [negb orb andb];
    rewrite ?Z.eqb_eq, ?Z.eqb_neq in *;
    Z.to_euclidean_division_equations; lia.
Qed.

Lemma days_before_december (y : Z) :
  Calendar.days_before_month y 12
  = 334 + (if Calendar.is_leap y then 1 else 0).
Proof.
  unfold Calendar.days_before_month.
  change (Z.to_nat (12 - 1)) with 11%nat.
  cbn [Calendar.days_before_month_aux]. unfold Calendar.month_length.
  cbn -[Calendar.is_leap]. destruct (Calendar.is_leap y); reflexivity.
Qed.

Lemma last_month_eve (y m d : Z) :
  1 <= m ->
  Calendar.toordinal (last_month_of (y, m, d)) + 1
  = Calendar.toordinal (y, m, 1).
Proof.
  intros Hm. unfold last_month_of. destruct (m =? 1) eqn:E.
  - apply Z.eqb_eq in E. subst m. unfold Calendar.toordinal.
    pose proof (year_length (y - 1)) as Hy.
    replace (y - 1 + 1) with y in Hy by lia.
    rewrite days_before_december, Hy.
    change (Calendar.days_before_month y 1) with 0. lia.
  - apply Z.eqb_neq in E. unfold Calendar.toordinal.
    pose proof (days_before_month_succ y (m - 1) ltac:(lia)) as Hs.
    replace (m - 1 + 1) with m in Hs by lia. lia.
Qed.

Lemma days_in_month_of_length (y m d : Z) :
  exists y' m' : Z,
    last_month_of (y, m, d) = (y', m', Calendar.month_length y' m') /\
    days_in_month_of (y, m, d) = Calendar.month_length y' m'.
Proof.
  unfold days_in_month_of, last_month_of. destruct (m =? 1).
  - exists (y - 1), 12. split; reflexivity.
  - exists y, (m - 1). split; reflexivity.
Qed.

(** X10. The day the month reports call [last_month] is the eve of the first
    of the current month, and its day number, the [days_in_month] of the
    monthly report, is the length of the month it lies in: between 28 and
    31, never zero. *)
Theorem last_month_is_eve_of_first (y m d : Z) :
  1 <= m ->
  Calendar.toordinal (last_month_of (y, m, d)) + 1
  = Calendar.toordinal (y, m, 1) /\
  (exists y' m' : Z,
     last_month_of (y, m, d) = (y', m', Calendar.month_length y' m') /\
     days_in_month_of (y, m, d) = Calendar.month_length y' m') /\
  28 <= days_in_month_of (y, m, d) <= 31.
Proof.
  intros Hm. split; [apply last_month_eve, Hm|].
  split; [apply days_in_month_of_length|].
  destruct (days_in_month_of_length y m d) as (y' & m' & _ & ->).
  apply month_length_range.
Qed.

Lemma last_month_is_eve_of_first_witness :
  1 <= 3 /\
  Calendar.toordinal (last_month_of (2024, 3, 15)) + 1
  = Calendar.toordinal (2024, 3, 1) /\
  28 <= days_in_month_of (2024, 3, 15) <= 31.
Proof.
  split; [lia|].
  split; [apply (last_month_is_eve_of_first 2024 3 15); lia|].
  apply (last_month_is_eve_of_first 2024 3 15). lia.
Defined.

(** ** Dates that start with the month string *)

Lemma digit_of_digit_char (k : Z) :
  0 <= k <= 9 -> Calendar.digit_of (digit_char k) = Some k.
Proof.
  intros Hk.
  assert (Hc : k = 0 \/ k = 1 \/ k = 2 \/ k = 3 \/ k = 4 \/ k = 5 \/ k = 6
               \/ k = 7 \/ k = 8 \/ k = 9) by lia.
  repeat (destruct Hc as [->|Hc]; [reflexivity|]). subst k. reflexivity.
Qed.

Lemma prefix_cons (c : ascii) (p s : string) :
  prefix (String c p) s = true ->
  exists s', s = String c s' /\ prefix p s' = true.
Proof.
  destruct s as [|c' s']; cbn [prefix]; [discriminate|].
  destruct (ascii_dec c c') as [<-|]; [|discriminate]. eauto.
Qed.

Lemma year_digits (y : Z) :
  0 <= y <= 9999 ->
  1000 * (y / 1000 mod 10) + 100 * (y / 100 mod 10) + 10 * (y / 10 mod 10)
  + y mod 10 = y.
Proof. intros Hy. Z.to_euclidean_division_equations. lia. Qed.

Lemma month_day_padded (m : Z) (rest : string) :
  1 <= m <= 12 ->
  Calendar.month_day
    (Calendar.month_group
       (String (digit_char (m / 10 mod 10))
          (String (digit_char (m mod 10)) rest)))
  = match Calendar.dash rest with
    | Some r' =>
        match Calendar.day_group r' with
        | (dd, rest') :: _ => Some (m, dd, rest')
        | [] => None
        end
    | None => None
    end.
Proof.
  intros Hm.
  assert (Hc : m = 1 \/ m = 2 \/ m = 3 \/ m = 4 \/ m = 5 \/ m = 6 \/ m = 7
               \/ m = 8 \/ m = 9 \/ m = 10 \/ m = 11 \/ m = 12) by lia.
  repeat (destruct Hc as [->|Hc]; [reflexivity|]). subst m. reflexivity.
Qed.

(** A string that starts with the month string of [(y, m, _)] and parses as
    a date parses as a date of that month. *)
Lemma strptime_prefix (y m d0 : Z) (s : string) (y' m' d' : Z) :
  0 <= y <= 9999 -> 1 <= m <= 12 ->
  prefix (strftime_Ym (y, m, d0)) s = true ->
  Calendar.strptime_ymd s = Some (y', m', d') ->
  y' = y /\ m' = m /\ d' <= Calendar.month_length y m.
Proof.
  intros Hy Hm Hp Hs. unfold strftime_Ym in Hp.
  apply prefix_cons in Hp. destruct Hp as (s1 & -> & Hp).
  apply prefix_cons in Hp. destruct Hp as (s2 & -> & Hp).
  apply prefix_cons in Hp. destruct Hp as (s3 & -> & Hp).
  apply prefix_cons in Hp. destruct Hp as (s4 & -> & Hp).
  apply prefix_cons in Hp. destruct Hp as (s5 & -> & Hp).
  apply prefix_cons in Hp. destruct Hp as (s6 & -> & Hp).
  apply prefix_cons in Hp. destruct Hp as (s7 & -> & _).
  unfold Calendar.strptime_ymd, Calendar.year_group in Hs.
  rewrite !digit_of_digit_char in Hs
    by (Z.to_euclidean_division_equations; lia).
  rewrite (year_digits y Hy) in Hs.
  cbn [Calendar.dash Ascii.eqb Bool.eqb] in Hs.
  rewrite (month_day_padded m s7 Hm) in Hs.
  destruct (Calendar.dash s7) as [r'|]; [|discriminate].
  destruct (Calendar.day_group r') as [|[dd rest'] ?]; [discriminate|].
  destruct (PyStr.is_empty rest' && (1 <=? y)); [|discriminate].
  cbn [andb] in Hs.
  destruct (dd <=? Calendar.month_length y m) eqn:E; [|discriminate].
  apply Z.leb_le in E. injection Hs as <- <- <-. auto.
Qed.

Lemma digit_in_range (lo hi : Z) (c : ascii) (x : Z) :
  Calendar.digit_in lo hi c = Some x -> lo <= x <= hi.
Proof.
  unfold Calendar.digit_in. destruct (Calendar.digit_of c) as [d|]; [|discriminate].
  destruct ((lo <=? d) && (d <=? hi)) eqn:E; [|discriminate].
  intros [= <-]. apply andb_true_iff in E. lia.
Qed.

Lemma two_chars_range (first : ascii -> option Z) (flo fhi lo hi : Z)
  (s : string) (v : Z) (r : string) :
  (forall c x, first c = Some x -> flo <= x <= fhi) ->
  In (v, r) (Calendar.two_chars first lo hi s) ->
  10 * flo + lo <= v <= 10 * fhi + hi.
Proof.
  intros Hf. unfold Calendar.two_chars.
  destruct s as [|a [|b s]]; try (intros []).
  destruct (first a) as [x|] eqn:Ex; [|intros []].
  destruct (Calendar.digit_in lo hi b) as [y|] eqn:Ey; [|intros []].
  intros [Heq|[]]. assert (Hv : v = 10 * x + y) by congruence.
  apply Hf in Ex. apply digit_in_range in Ey. lia.
Qed.

Lemma day_group_range (s : string) (v : Z) (r : string) :
  In (v, r) (Calendar.day_group s) -> 1 <= v <= 31.
Proof.
  unfold Calendar.day_group. rewrite !in_app_iff.
  intros [Hin|[Hin|[Hin|[Hin|Hin]]]].
  - apply (two_chars_range _ 3 3) in Hin; [lia | apply digit_in_range].
  - apply (two_chars_range _ 1 2) in Hin; [lia | apply digit_in_range].
  - apply (two_chars_range _ 0 0) in Hin; [lia | apply digit_in_range].
  - unfold Calendar.one_char in Hin. destruct s as [|a s]; [destruct Hin|].
    destruct (Calendar.digit_in 1 9 a) as [x|] eqn:Ex; [|destruct Hin].
    destruct Hin as [[= <- <-]|[]]. apply digit_in_range in Ex. lia.
  - apply (two_chars_range _ 0 0) in Hin; [lia|].
    intros c x. unfold Calendar.space. destruct (Ascii.eqb c " ");
      [intros [= <-]; lia | discriminate].
Qed.

Lemma month_day_range (alts : list (Z * string)) (m d : Z) (rest : string) :
  Calendar.month_day alts = Some (m, d, rest) -> 1 <= d <= 31.
Proof.
  induction alts as [|[m0 r] alts IH]; cbn [Calendar.month_day]; [discriminate|].
  destruct (Calendar.dash r) as [r'|]; [|exact IH].
  destruct (Calendar.day_group r') as [|[dd rest'] l] eqn:Ed; [exact IH|].
  intros [= <- <- <-]. apply (day_group_range r' dd rest').
  rewrite Ed. now left.
Qed.

Lemma strptime_day_range (s : string) (y m d : Z) :
  Calendar.strptime_ymd s = Some (y, m, d) ->
  1 <= d <= Calendar.month_length y m.
Proof.
  unfold Calendar.strptime_ymd.
  destruct (Calendar.year_group s) as [[y0 r]|]; [|discriminate].
  destruct (Calendar.dash r) as [r'|]; [|discriminate].
  destruct (Calendar.month_day (Calendar.month_group r')) as [[[m0 d0] rest]|] eqn:E;
    [|discriminate].
  apply month_day_range in E.
  destruct (PyStr.is_empty rest && (1 <=? y0)); [|discriminate].
  cbn [andb]. destruct (d0 <=? Calendar.month_length y0 m0) eqn:El; [|discriminate].
  apply Z.leb_le in El. intros [= <- <- <-]. lia.
Qed.

(** X11. Every transaction [get_last_month_transactions] returns whose date
    parses as a date is dated in the calendar month before the current one:
    its year and month are those of [last_month], its day lies between 1
    and the length of that month, and it comes before the first of the
    current month. *)
Theorem last_month_dates_in_month (y m d : Z) (fetched r : list transaction)
  (t : transaction) (s : string) (y' m' d' : Z) :
  1001 <= y <= 9999 -> 1 <= m <= 12 ->
  get_last_month_transactions (y, m, d) fetched = Returns r ->
  In t r -> date t = Val s -> Calendar.strptime_ymd s = Some (y', m', d') ->
  last_month_of (y, m, d) = (y', m', days_in_month_of (y, m, d)) /\
  1 <= d' <= days_in_month_of (y, m, d) /\
  Calendar.toordinal (y', m', d') < Calendar.toordinal (y, m, 1).
Proof.
  intros Hy Hm Hr Hin Hd Hs. unfold get_last_month_transactions in Hr.
  apply last_month_loop_returns in Hr. destruct Hr as [-> _].
  apply filter_In in Hin. destruct Hin as [_ Hk].
  unfold monthly_keep in Hk. apply andb_true_iff in Hk. destruct Hk as [Hp _].
  unfold str_value in Hp. rewrite Hd in Hp.
  pose proof (last_month_eve y m d ltac:(lia)) as Heve.
  destruct (days_in_month_of_length y m d) as (y1 & m1 & Hl & Hdays).
  assert (Hrange : 0 <= y1 <= 9999 /\ 1 <= m1 <= 12).
  { unfold last_month_of in Hl. destruct (m =? 1) eqn:E; injection Hl as <- <- _.
    - lia.
    - apply Z.eqb_neq in E. lia. }
  rewrite Hl in Hp, Heve.
  destruct (strptime_prefix _ _ _ _ _ _ _ (proj1 Hrange) (proj2 Hrange) Hp Hs)
    as (-> & -> & _).
  pose proof (strptime_day_range _ _ _ _ Hs) as Hday.
  rewrite Hl, Hdays. split; [reflexivity|]. split; [exact Hday|].
  unfold Calendar.toordinal in *. lia.
Qed.

Lemma last_month_dates_in_month_witness :
  last_month_of (2024, 2, 1) = (2024, 1, days_in_month_of (2024, 2, 1)) /\
  1 <= 2 <= days_in_month_of (2024, 2, 1) /\
  Calendar.toordinal (2024, 1, 2) < Calendar.toordinal (2024, 2, 1).
Proof.
  apply (last_month_dates_in_month 2024 2 1
           [Ex.transfer; Ex.purchase "2024-01-02" (-1500) "Dining";
            Ex.purchase "2024-02-01" (-2500) "Fuel"]
           [Ex.purchase "2024-01-02" (-1500) "Dining"]
           (Ex.purchase "2024-01-02" (-1500) "Dining") "2024-01-02" 2024 1 2);
    [lia | lia | reflexivity | left; reflexivity | reflexivity | reflexivity].
Defined.

(** ** The scheduled transactions *)

Lemma sort_by_date_next_perm (l : list scheduled_transaction) :
  Permutation (sort_by_date_next l) l.
Proof. apply stable_sort_perm. Qed.

Lemma sort_by_date_next_sorted (l r1 r2 : list scheduled_transaction)
  (a b : scheduled_transaction) :
  sort_by_date_next l = r1 ++ a :: r2 -> In b r2 ->
  String.ltb (str_value (date_next b)) (str_value (date_next a)) = false.
Proof.
  intros Heq Hb.
  assert (Hs : StronglySorted
                 (fun x y => String.ltb (str_value (date_next y))
                               (str_value (date_next x)) = false)
                 (sort_by_date_next l)).
  { apply (stable_sort_sorted _ _ (fun _ => True)).
    - intros x y _ _. apply ltb_asym.
    - intros x y z _ _ _ Hxy Hyz. apply (ltb_negtrans _ _ _ Hyz Hxy).
    - apply Forall_forall. intros; exact I. }
  rewrite Heq in Hs. apply StronglySorted_split in Hs.
  rewrite Forall_forall in Hs. apply Hs, Hb.
Qed.

Lemma sort_by_date_next_stable (l : list scheduled_transaction) (d : string) :
  filter (next_dated d) (sort_by_date_next l) = filter (next_dated d) l.
Proof.
  apply stable_sort_filter. intros x y Hx Hy. unfold next_dated in *.
  apply String.eqb_eq in Hx, Hy. rewrite Hx, Hy. apply ltb_irrefl.
Qed.

Lemma upcoming_step (today : Z * Z * Z) (days_ahead : Z)
  (st : scheduled_transaction) (rest : list scheduled_transaction) :
  upcoming_loop today days_ahead (st :: rest)
  = if truthy (date_next st) then
      match Calendar.strptime_ymd (str_value (date_next st)) with
      | None => Raise ValueError
      | Some _ =>
          match upcoming_loop today days_ahead rest with
          | Ok up => Ok (if in_window today days_ahead st then st :: up else up)
          | Raise e => Raise e
          end
      end
    else upcoming_loop today days_ahead rest.
Proof.
  cbn [upcoming_loop]. unfold in_window.
  destruct (truthy (date_next st)); [|reflexivity].
  destruct (Calendar.strptime_ymd _) as [d|]; [|reflexivity].
  destruct (upcoming_loop today days_ahead rest); cbn [bind andb];
    [|reflexivity].
  destruct (_ && _); reflexivity.
Qed.

Lemma upcoming_loop_ok (today : Z * Z * Z) (days_ahead : Z)
  (scheduled up : list scheduled_transaction) :
  upcoming_loop today days_ahead scheduled = Ok up ->
  up = filter (in_window today days_ahead) scheduled.
Proof.
  revert up; induction scheduled as [|st rest IH]; intros up.
  - intros [= <-]. reflexivity.
  - rewrite upcoming_step. cbn [filter]. unfold in_window at 2.
    destruct (truthy (date_next st)) eqn:Et.
    + destruct (Calendar.strptime_ymd _) as [d|] eqn:Ep; [|discriminate].
      destruct (upcoming_loop today days_ahead rest) as [up'|]; [|discriminate].
      intros [= <-]. rewrite <- (IH up' eq_refl). unfold in_window.
      rewrite Et, Ep. reflexivity.
    + cbn [andb]. apply IH.
Qed.

Lemma upcoming_loop_raise (today : Z * Z * Z) (days_ahead : Z)
  (scheduled : list scheduled_transaction) :
  (exists st, In st scheduled /\ bad_date_next st) ->
  upcoming_loop today days_ahead scheduled = Raise ValueError.
Proof.
  induction scheduled as [|st rest IH]; intros (st0 & Hin & Ht & Hp).
  - destruct Hin.
  - rewrite upcoming_step. destruct Hin as [<-|Hin].
    + now rewrite Ht, Hp.
    + assert (Hr : upcoming_loop today days_ahead rest = Raise ValueError).
      { apply IH. exists st0. split; [exact Hin | split; assumption]. }
      rewrite Hr. destruct (truthy (date_next st)); [|reflexivity].
      destruct (Calendar.strptime_ymd (str_value (date_next st)));
        reflexivity.
Qed.

Lemma upcoming_loop_cases (today : Z * Z * Z) (days_ahead : Z)
  (scheduled : list scheduled_transaction) :
  (exists st, In st scheduled /\ bad_date_next st) \/
  upcoming_loop today days_ahead scheduled
  = Ok (filter (in_window today days_ahead) scheduled).
Proof.
  induction scheduled as [|st rest IH]; [right; reflexivity|].
  destruct IH as [(st0 & Hin & Hb)|IH].
  - left. exists st0. split; [now right | exact Hb].
  - rewrite upcoming_step, IH. cbn [filter].
    destruct (truthy (date_next st)) eqn:Et.
    + destruct (Calendar.strptime_ymd (str_value (date_next st))) eqn:Ep.
      * right. reflexivity.
      * left. exists st. split; [now left | split; assumption].
    + right. unfold in_window. rewrite Et. reflexivity.
Qed.

(** X12. When [get_upcoming_scheduled_transactions] returns, the list is a
    rearrangement of the scheduled transactions whose next date is a string
    that parses to a day from today up to [days_ahead] days later, both
    ends included. *)
Theorem upcoming_membership (today : Z * Z * Z) (days_ahead : Z)
  (scheduled r : list scheduled_transaction) :
  get_upcoming_scheduled_transactions today days_ahead scheduled = Ok r ->
  Permutation r (filter (in_window today days_ahead) scheduled) /\
  (forall st, In st r <->
     In st scheduled /\
     exists (s : string) (d : Z * Z * Z),
       date_next st = Val s /\ Calendar.strptime_ymd s = Some d /\
       Calendar.toordinal today <= Calendar.toordinal d
       <= Calendar.toordinal today + days_ahead).
Proof.
  unfold get_upcoming_scheduled_transactions.
  destruct (upcoming_loop today days_ahead scheduled) as [up|] eqn:Eu;
    cbn [bind]; [|discriminate].
  intros [= <-]. apply upcoming_loop_ok in Eu. subst up.
  assert (Hw : forall st, in_window today days_ahead st = true <->
            exists (s : string) (d : Z * Z * Z),
              date_next st = Val s /\ Calendar.strptime_ymd s = Some d /\
              Calendar.toordinal today <= Calendar.toordinal d
              <= Calendar.toordinal today + days_ahead).
  { intros st. unfold in_window. rewrite andb_true_iff. split.
    - intros [Ht Hm]. destruct (date_next st) as [| |s]; try discriminate.
      cbn [str_value] in Hm.
      destruct (Calendar.strptime_ymd s) as [d|] eqn:Ep; [|discriminate].
      apply andb_true_iff in Hm. exists s, d. split; [reflexivity|].
      split; [exact Ep | lia].
    - intros (s & d & -> & Hp & Hr). cbn [str_value]. rewrite Hp. split.
      + cbn [truthy]. destruct s; [discriminate Hp | reflexivity].
      + apply andb_true_iff. lia. }
  split; [apply sort_by_date_next_perm|].
  intros st. rewrite <- Hw, <- filter_In. split; intros Hin.
  - apply (Permutation_in _ (sort_by_date_next_perm _)), Hin.
  - apply (Permutation_in _ (Permutation_sym (sort_by_date_next_perm _))), Hin.
Qed.

Lemma upcoming_membership_witness :
  get_upcoming_scheduled_transactions (2024, 1, 10) 14
    [{| date_next := Val "2024-01-25"; frequency := Val "monthly" |};
     {| date_next := Val "2024-01-24"; frequency := Val "never" |};
     {| date_next := Val "2024-01-10"; frequency := Val "weekly" |};
     {| date_next := Null; frequency := Val "weekly" |}]
  = Ok [{| date_next := Val "2024-01-10"; frequency := Val "weekly" |};
        {| date_next := Val "2024-01-24"; frequency := Val "never" |}] /\
  Permutation
    [{| date_next := Val "2024-01-10"; frequency := Val "weekly" |};
     {| date_next := Val "2024-01-24"; frequency := Val "never" |}]
    (filter (in_window (2024, 1, 10) 14)
       [{| date_next := Val "2024-01-25"; frequency := Val "monthly" |};
        {| date_next := Val "2024-01-24"; frequency := Val "never" |};
        {| date_next := Val "2024-01-10"; frequency := Val "weekly" |};
        {| date_next := Null; frequency := Val "weekly" |}]).
Proof.
  split; [reflexivity|].
  apply (upcoming_membership (2024, 1, 10) 14
           [{| date_next := Val "2024-01-25"; frequency := Val "monthly" |};
            {| date_next := Val "2024-01-24"; frequency := Val "never" |};
            {| date_next := Val "2024-01-10"; frequency := Val "weekly" |};
            {| date_next := Null; frequency := Val "weekly" |}]).
  reflexivity.
Defined.

(** X13. The list [get_upcoming_scheduled_transactions] returns is in
    ascending order of the next-date strings, and scheduled transactions
    with the same next date keep the order in which they were fetched. *)
Theorem upcoming_sorted (today : Z * Z * Z) (days_ahead : Z)
  (scheduled r : list scheduled_transaction) :
  get_upcoming_scheduled_transactions today days_ahead scheduled = Ok r ->
  (forall (r1 r2 : list scheduled_transaction) (a b : scheduled_transaction),
     r = r1 ++ a :: r2 -> In b r2 ->
     String.ltb (str_value (date_next b)) (str_value (date_next a)) = false) /\
  (forall d : string,
     filter (next_dated d) r
     = filter (next_dated d) (filter (in_window today days_ahead) scheduled)).
Proof.
  unfold get_upcoming_scheduled_transactions.
  destruct (upcoming_loop today days_ahead scheduled) as [up|] eqn:Eu;
    cbn [bind]; [|discriminate].
  intros [= <-]. apply upcoming_loop_ok in Eu. subst up. split.
  - intros r1 r2 a b. apply sort_by_date_next_sorted.
  - intros d. apply sort_by_date_next_stable.
Qed.

Lemma upcoming_sorted_witness :
  get_upcoming_scheduled_transactions (2024, 1, 10) 14
    [{| date_next := Val "2024-01-24"; frequency := Val "never" |};
     {| date_next := Val "2024-01-10"; frequency := Val "weekly" |};
     {| date_next := Val "2024-01-24"; frequency := Val "monthly" |}]
  = Ok [{| date_next := Val "2024-01-10"; frequency := Val "weekly" |};
        {| date_next := Val "2024-01-24"; frequency := Val "never" |};
        {| date_next := Val "2024-01-24"; frequency := Val "monthly" |}] /\
  forall d : string,
    filter (next_dated d)
      [{| date_next := Val "2024-01-10"; frequency := Val "weekly" |};
       {| date_next := Val "2024-01-24"; frequency := Val "never" |};
       {| date_next := Val "2024-01-24"; frequency := Val "monthly" |}]
    = filter (next_dated d)
        (filter (in_window (2024, 1, 10) 14)
           [{| date_next := Val "2024-01-24"; frequency := Val "never" |};
            {| date_next := Val "2024-01-10"; frequency := Val "weekly" |};
            {| date_next := Val "2024-01-24"; frequency := Val "monthly" |}]).
Proof.
  split; [reflexivity|].
  apply (upcoming_sorted (2024, 1, 10) 14
           [{| date_next := Val "2024-01-24"; frequency := Val "never" |};
            {| date_next := Val "2024-01-10"; frequency := Val "weekly" |};
            {| date_next := Val "2024-01-24"; frequency := Val "monthly" |}]).
  reflexivity.
Defined.

(** X14. [get_upcoming_scheduled_transactions] raises nothing but
    [ValueError], and only when some scheduled transaction has a non-empty
    next date that does not parse as a date.  It does raise when there is
    such a next date made of ASCII characters, wherever it stands and
    whatever the window.  It returns when every non-empty next date parses;
    a missing, null or empty next date is skipped. *)
Theorem upcoming_errors (today : Z * Z * Z) (days_ahead : Z)
  (scheduled : list scheduled_transaction) :
  (forall e, get_upcoming_scheduled_transactions today days_ahead scheduled
             = Raise e ->
             e = ValueError /\ exists st, In st scheduled /\ bad_date_next st) /\
  ((exists st, In st scheduled /\ bad_date_next st /\
               ascii_only (str_value (date_next st)) = true) ->
   get_upcoming_scheduled_transactions today days_ahead scheduled
   = Raise ValueError) /\
  ((forall st, In st scheduled -> ~ bad_date_next st) ->
   exists r, get_upcoming_scheduled_transactions today days_ahead scheduled
             = Ok r) /\
  get_upcoming_scheduled_transactions (2024, 1, 10) 14
    [{| date_next := Absent; frequency := Val "monthly" |};
     {| date_next := Null; frequency := Val "monthly" |};
     {| date_next := Val ""; frequency := Val "monthly" |}] = Ok [] /\
  get_upcoming_scheduled_transactions (2024, 1, 10) 14
    [{| date_next := Val "2024-01-12"; frequency := Val "monthly" |};
     {| date_next := Val "2030-02-30"; frequency := Val "never" |}]
  = Raise ValueError.
Proof.
  split; [|split; [|split; [|split; reflexivity]]];
    unfold get_upcoming_scheduled_transactions;
    destruct (upcoming_loop_cases today days_ahead scheduled) as [Hbad|Hok].
  - rewrite (upcoming_loop_raise today days_ahead scheduled Hbad). cbn [bind].
    intros e [= <-]. split; [reflexivity | exact Hbad].
  - rewrite Hok. cbn [bind]. discriminate.
  - intros _.
    rewrite (upcoming_loop_raise today days_ahead scheduled Hbad). reflexivity.
  - intros (st & Hin & Hb & _).
    rewrite (upcoming_loop_raise today days_ahead scheduled) in Hok;
      [discriminate | exists st; auto].
  - intros Hall. destruct Hbad as (st & Hin & Hb). destruct (Hall st Hin Hb).
  - intros _. rewrite Hok. cbn [bind]. eauto.
Qed.

Lemma recurs_this_month_cases (this_month : string) (st : scheduled_transaction) :
  (recurring_frequency st = true /\ date_next st = Null /\
   recurs_this_month this_month st = Raises AttributeError) \/
  (~ (recurring_frequency st = true /\ date_next st = Null) /\
   recurs_this_month this_month st = Returns (recurring_keep this_month st)).
Proof.
  unfold recurs_this_month, recurring_keep.
  fold (recurring_frequency st).
  destruct (recurring_frequency st); cbn [andb].
  - destruct (date_next st) as [| |d]; [right|left|right]; try tauto;
      (split; [intros [_ ?]; discriminate | reflexivity]).
  - right. split; [intros [? _]; discriminate | reflexivity].
Qed.

Lemma recurring_loop_cases (this_month : string)
  (scheduled : list scheduled_transaction) :
  ((exists st, In st scheduled /\ recurring_frequency st = true
               /\ date_next st = Null) /\
   recurring_loop this_month scheduled = Raises AttributeError) \/
  ((forall st, In st scheduled ->
               ~ (recurring_frequency st = true /\ date_next st = Null)) /\
   recurring_loop this_month scheduled
   = Returns (filter (recurring_keep this_month) scheduled)).
Proof.
  induction scheduled as [|st rest IH].
  - right. split; [intros st [] | reflexivity].
  - cbn [recurring_loop filter].
    destruct (recurs_this_month_cases this_month st)
      as [(Hf & Hd & ->)|(Hn & ->)].
    + left. split; [|reflexivity]. exists st. split; [now left | auto].
    + destruct IH as [((st0 & Hin & H0) & ->)|(Hall & ->)].
      * left. split; [|reflexivity]. exists st0. split; [now right | exact H0].
      * right. split; [|destruct (recurring_keep this_month st); reflexivity].
        intros st' [<-|Hin]; [exact Hn | apply Hall, Hin].
Qed.

(** X15. When [get_recurring_scheduled_this_month] returns, the list is a
    rearrangement of the scheduled transactions whose frequency is a
    non-empty string other than ["never"] and whose next date starts with
    the current year and month; it is in ascending order of the next-date
    strings, and scheduled transactions with the same next date keep the
    order in which they were fetched. *)
Theorem recurring_membership (today : Z * Z * Z)
  (scheduled r : list scheduled_transaction) :
  get_recurring_scheduled_this_month today scheduled = Returns r ->
  Permutation r (filter (recurring_keep (strftime_Ym today)) scheduled) /\
  (forall st, In st r <->
     In st scheduled /\
     (exists f : string,
        frequency st = Val f /\ f <> "" /\ f <> "never") /\
     (exists d : string,
        date_next st = Val d /\ prefix (strftime_Ym today) d = true)) /\
  (forall (r1 r2 : list scheduled_transaction) (a b : scheduled_transaction),
     r = r1 ++ a :: r2 -> In b r2 ->
     String.ltb (str_value (date_next b)) (str_value (date_next a)) = false) /\
  (forall d : string,
     filter (next_dated d) r
     = filter (next_dated d)
         (filter (recurring_keep (strftime_Ym today)) scheduled)).
Proof.
  unfold get_recurring_scheduled_this_month.
  destruct (recurring_loop_cases (strftime_Ym today) scheduled)
    as [(_ & ->)|(_ & ->)]; [discriminate|].
  intros [= <-].
  assert (Hk : forall st, recurring_keep (strftime_Ym today) st = true <->
            (exists f : string,
               frequency st = Val f /\ f <> "" /\ f <> "never") /\
            (exists d : string,
               date_next st = Val d /\ prefix (strftime_Ym today) d = true)).
  { intros st. unfold recurring_keep, recurring_frequency.
    rewrite !andb_true_iff, negb_true_iff, String.eqb_neq, truthy_present.
    assert (He : prefix (strftime_Ym today) "" = false)
      by (destruct today as [[y m] d]; reflexivity).
    unfold present. split.
    - intros [[(f & Hf & Hne) Hnever] Hp]. split.
      + exists f. rewrite Hf in Hnever. auto.
      + destruct (date_next st) as [| |d]; cbn [str_value] in Hp;
          try congruence. eauto.
    - intros [(f & Hf & Hne & Hnever) (d & Hd & Hp)].
      rewrite Hf, Hd. cbn [str_value]. eauto. }
  split; [apply sort_by_date_next_perm|]. split; [|split].
  - intros st. rewrite <- Hk, <- filter_In. split; intros Hin.
    + apply (Permutation_in _ (sort_by_date_next_perm _)), Hin.
    + apply (Permutation_in _ (Permutation_sym (sort_by_date_next_perm _))), Hin.
  - intros r1 r2 a b. apply sort_by_date_next_sorted.
  - intros d. apply sort_by_date_next_stable.
Qed.

Lemma recurring_membership_witness :
  get_recurring_scheduled_this_month (2024, 1, 10)
    [{| date_next := Val "2024-01-25"; frequency := Val "monthly" |};
     {| date_next := Val "2024-01-24"; frequency := Val "never" |};
     {| date_next := Val "2024-01-12"; frequency := Val "weekly" |};
     {| date_next := Val "2024-02-01"; frequency := Val "weekly" |};
     {| date_next := Null; frequency := Absent |}]
  = Returns
      [{| date_next := Val "2024-01-12"; frequency := Val "weekly" |};
       {| date_next := Val "2024-01-25"; frequency := Val "monthly" |}] /\
  Permutation
    [{| date_next := Val "2024-01-12"; frequency := Val "weekly" |};
     {| date_next := Val "2024-01-25"; frequency := Val "monthly" |}]
    (filter (recurring_keep (strftime_Ym (2024, 1, 10)))
       [{| date_next := Val "2024-01-25"; frequency := Val "monthly" |};
        {| date_next := Val "2024-01-24"; frequency := Val "never" |};
        {| date_next := Val "2024-01-12"; frequency := Val "weekly" |};
        {| date_next := Val "2024-02-01"; frequency := Val "weekly" |};
        {| date_next := Null; frequency := Absent |}]).
Proof.
  split; [reflexivity|].
  apply (recurring_membership (2024, 1, 10)
           [{| date_next := Val "2024-01-25"; frequency := Val "monthly" |};
            {| date_next := Val "2024-01-24"; frequency := Val "never" |};
            {| date_next := Val "2024-01-12"; frequency := Val "weekly" |};
            {| date_next := Val "2024-02-01"; frequency := Val "weekly" |};
            {| date_next := Null; frequency := Absent |}]).
  reflexivity.
Defined.

(** X16. [get_recurring_scheduled_this_month] raises exactly when some
    scheduled transaction with a recurring frequency has a null next date,
    and what it raises is [AttributeError]; a null next date under the
    frequency ["never"], an empty or a missing frequency does no harm, and
    neither does a missing next date. *)
Theorem recurring_errors (today : Z * Z * Z)
  (scheduled : list scheduled_transaction) :
  ((exists st, In st scheduled /\ recurring_frequency st = true
               /\ date_next st = Null) <->
   get_recurring_scheduled_this_month today scheduled = Raises AttributeError) /\
  (forall e, get_recurring_scheduled_this_month today scheduled = Raises e ->
             e = AttributeError) /\
  ((forall st, In st scheduled ->
               ~ (recurring_frequency st = true /\ date_next st = Null)) <->
   exists r, get_recurring_scheduled_this_month today scheduled = Returns r).
Proof.
  unfold get_recurring_scheduled_this_month.
  destruct (recurring_loop_cases (strftime_Ym today) scheduled)
    as [(Hex & ->)|(Hall & ->)].
  - split; [tauto|]. split; [intros e [= <-]; reflexivity|].
    split.
    + intros Hall. destruct Hex as (st & Hin & H0). destruct (Hall st Hin H0).
    + intros (r & Hr). discriminate.
  - split; [|split; [discriminate|]].
    + split; [|discriminate]. intros (st & Hin & H0).
      destruct (Hall st Hin H0).
    + split; [eauto | intros _; exact Hall].
Qed.

(** ** The ranking of the monthly report *)

Section RankingFacts.
Context {num : Type} `{Number num}.

Lemma sorted_by_total_stable_sort (cs : totals num) :
  sorted_by_total cs
  = stable_sort (fun x y => nltb (total (snd x)) (total (snd y))) cs.
Proof.
  unfold sorted_by_total, stable_sort.
  induction cs as [|x cs IH]; [reflexivity|].
  cbn [fold_right]. rewrite IH.
  generalize (fold_right
                (stable_insert
                   (fun x y : string * aggregate num =>
                      nltb (total (snd x)) (total (snd y)))) [] cs).
  intros l. induction l as [|y l IHl]; [reflexivity|].
  cbn [insert_desc stable_insert]. now rewrite IHl.
Qed.

Lemma sorted_by_total_perm (cs : totals num) :
  Permutation (sorted_by_total cs) cs.
Proof. rewrite sorted_by_total_stable_sort. apply stable_sort_perm. Qed.

Context {L : NumberLaws num}.

(** What the monthly report holds when it is produced. *)
Lemma generate_monthly_recap_inv (days : Z) (txs : list transaction)
  (cs : totals num) (recurring : list scheduled_transaction) (mn : string)
  (ctx : monthly_context num) :
  generate_monthly_recap days txs cs recurring mn = Ok ctx ->
  exists ws, weekdays txs = Some ws /\
    m_top_categories ctx
    = map (annotate (py_sum (map spent txs))) (sorted_by_total cs) /\
    m_total_spent ctx = py_sum (map spent txs) /\
    m_transaction_count ctx = List.length txs /\
    m_categories_used ctx = List.length cs /\
    m_avg_per_day ctx
    = (if 0 <? days then ndiv (py_sum (map spent txs)) (of_int days)
       else zero) /\
    m_most_active_day ctx = most_active_day_of (tally ws) /\
    m_largest_transaction ctx = largest_transaction_of txs.
Proof.
  destruct (weekdays txs) as [ws|] eqn:Hw.
  - rewrite (generate_monthly_recap_ok _ _ _ _ _ ws Hw). intros [= <-].
    exists ws. cbn. repeat split.
  - intros Hr. exfalso. unfold generate_monthly_recap in Hr.
    rewrite avg_per_day_ok, avg_transaction_ok in Hr. cbn [bind] in Hr.
    pose proof (day_counts_loop txs []) as Hd. rewrite Hw in Hd.
    destruct Hd as (e & He & _). rewrite He in Hr. discriminate.
Qed.

End RankingFacts.

(** X17. The ranking of the monthly report lists every category of the
    aggregate exactly once, with the total, count and transactions of the
    aggregate and its guarded percentage; [categories_used] is its length.
    When the totals are comparable with each other (no one less than
    itself through another), the ranking is in descending order of the
    totals: no category stands before one with a larger total. *)
Theorem top_categories_ranking {num : Type} `{Number num} {L : NumberLaws num}
  (days : Z) (txs : list transaction) (cs : totals num)
  (recurring : list scheduled_transaction) (mn : string)
  (ctx : monthly_context num) :
  generate_monthly_recap days txs cs recurring mn = Ok ctx ->
  Permutation (m_top_categories ctx) (map (annotate (m_total_spent ctx)) cs) /\
  List.length (m_top_categories ctx) = m_categories_used ctx /\
  ((forall x y, In x cs -> In y cs ->
      nltb (total (snd x)) (total (snd y)) = true ->
      nltb (total (snd y)) (total (snd x)) = false) ->
   (forall x y z, In x cs -> In y cs -> In z cs ->
      nltb (total (snd x)) (total (snd y)) = false ->
      nltb (total (snd y)) (total (snd z)) = false ->
      nltb (total (snd x)) (total (snd z)) = false) ->
   forall (l1 l2 : list (string * top_category num))
     (a b : string * top_category num),
     m_top_categories ctx = l1 ++ a :: l2 -> In b l2 ->
     nltb (tc_total (snd a)) (tc_total (snd b)) = false).
Proof.
  intros Hr.
  destruct (generate_monthly_recap_inv _ _ _ _ _ _ Hr)
    as (ws & _ & Htop & Htot & _ & Hused & _).
  rewrite Htop, Htot, Hused. split; [|split].
  - apply Permutation_map, sorted_by_total_perm.
  - rewrite length_map. apply Permutation_length, sorted_by_total_perm.
  - intros Hasym Hneg l1 l2 a b Heq Hb.
    set (g := fun x y : string * aggregate num =>
                nltb (total (snd x)) (total (snd y))).
    assert (Hs : StronglySorted (fun x y => g x y = false) (sorted_by_total cs)).
    { rewrite sorted_by_total_stable_sort.
      apply (stable_sort_sorted _ g (fun x => In x cs)).
      - intros x y Hx Hy. apply Hasym; assumption.
      - intros x y z Hx Hy Hz. apply Hneg; assumption.
      - apply Forall_forall. auto. }
    apply map_eq_app in Heq. destruct Heq as (L1 & L2' & HL & _ & H2).
    apply map_eq_cons in H2. destruct H2 as (ka & L2 & -> & <- & <-).
    rewrite HL in Hs. apply StronglySorted_split in Hs.
    apply in_map_iff in Hb. destruct Hb as (kb & <- & Hkb).
    rewrite Forall_forall in Hs. apply (Hs kb Hkb).
Qed.

Lemma top_categories_ranking_witness :
  exists ctx : monthly_context float,
    generate_monthly_recap 31 Ex.january
      [("Dining", {| total := 1.5%float; count := 1; transactions := [] |});
       ("Groceries", {| total := 6%float; count := 2; transactions := [] |});
       ("Fuel", {| total := 0.5%float; count := 1; transactions := [] |})]
      [] "January 2024" = Ok ctx /\
    map fst (m_top_categories ctx) = ["Groceries"; "Dining"; "Fuel"] /\
    List.length (m_top_categories ctx) = m_categories_used ctx /\
    forall (l1 l2 : list (string * top_category float))
      (a b : string * top_category float),
      m_top_categories ctx = l1 ++ a :: l2 -> In b l2 ->
      nltb (tc_total (snd a)) (tc_total (snd b)) = false.
Proof.
  eexists. split; [vm_compute; reflexivity|]. split; [reflexivity|].
  pose proof (top_categories_ranking (num := float) (L := Binary64_laws) 31
                Ex.january
                [("Dining", {| total := 1.5%float; count := 1;
                               transactions := [] |});
                 ("Groceries", {| total := 6%float; count := 2;
                                  transactions := [] |});
                 ("Fuel", {| total := 0.5%float; count := 1;
                             transactions := [] |})]
                [] "January 2024" _ ltac:(vm_compute; reflexivity))
    as (_ & Hlen & Hsorted).
  split; [exact Hlen|]. apply Hsorted.
  - intros x y [<-|[<-|[<-|[]]]] [<-|[<-|[<-|[]]]]; vm_compute; congruence.
  - intros x y z [<-|[<-|[<-|[]]]] [<-|[<-|[<-|[]]]] [<-|[<-|[<-|[]]]];
      vm_compute; congruence.
Defined.

(** ** The three jobs *)

Lemma last_week_perm (fetched r : list transaction) :
  get_last_week_transactions fetched = Ok r ->
  Permutation r (filter actual_keep fetched).
Proof.
  unfold get_last_week_transactions. rewrite actual_transactions_filter.
  intros Hr. destruct (sort_by_date_desc_ok _ _ Hr) as [-> _].
  rewrite <- (map_snd_keyed (filter actual_keep fetched)) at 2.
  apply Permutation_map, stable_sort_perm.
Qed.

Lemma is_inflow_default (f : field string) :
  is_inflow (get_or f "Uncategorized") = is_inflow (get_or f "").
Proof.
  destruct f as [| |s]; try reflexivity.
  cbn [get_or]. destruct (PyStr.is_empty s); reflexivity.
Qed.

Lemma contributions_of_actual (t : transaction) :
  actual_keep t = true -> get_list (subtransactions t) = [] ->
  contributions_of t
  = [(get_or (category_name t) "Uncategorized", get_int (amount t))].
Proof.
  unfold actual_keep, contributions_of.
  rewrite !andb_true_iff, !negb_true_iff.
  intros [[[_ Ht] Hr] Hi] Hs. rewrite Ht, Hr, Hs, is_inflow_default, Hi.
  reflexivity.
Qed.

Lemma ledger_unsplit (txs : list transaction) :
  (forall t, In t txs -> actual_keep t = true /\ get_list (subtransactions t) = []) ->
  ledger txs
  = map (fun t => (get_or (category_name t) "Uncategorized",
                   get_int (amount t), t)) txs.
Proof.
  induction txs as [|t txs IH]; intros Hall; [reflexivity|].
  cbn [ledger flat_map map].
  destruct (Hall t (or_introl eq_refl)) as [Hk Hs].
  rewrite (contributions_of_actual t Hk Hs). cbn [map app fst snd].
  f_equal. apply IH. intros t' Hin. apply Hall. now right.
Qed.

Lemma send_weekly_recap_inv {num : Type} `{Number num} (today : Z * Z * Z)
  (thr : Z) (fetched : list transaction)
  (scheduled : list scheduled_transaction) (cats : list category)
  (ctx : weekly_context num) :
  send_weekly_recap today thr fetched scheduled cats = Ok ctx ->
  exists r, get_last_week_transactions fetched = Ok r /\
    w_transaction_count ctx = List.length r /\
    w_total_spent ctx = py_sum (map spent r) /\
    w_category_spending ctx = aggregate_by_category r /\
    get_upcoming_scheduled_transactions today 14 scheduled
    = Ok (w_upcoming_scheduled ctx) /\
    get_category_status cats thr = Ok (w_category_status ctx).
Proof.
  unfold send_weekly_recap.
  destruct (get_last_week_transactions fetched) as [r|]; cbn [bind];
    [|discriminate].
  destruct (get_upcoming_scheduled_transactions today 14 scheduled) as [up|];
    cbn [bind]; [|discriminate].
  destruct (get_category_status cats thr) as [st|]; cbn [bind]; [|discriminate].
  intros [= <-]. exists r. cbn. repeat split.
Qed.

(** X18. In the weekly report the transaction count is the number of fetched
    transactions that pass the four tests; every transaction listed under a
    category is one of them; and when none of them is split, the counts of
    the categories add up to the transaction count. *)
Theorem weekly_job_counts {num : Type} `{Number num} (today : Z * Z * Z)
  (thr : Z) (fetched : list transaction)
  (scheduled : list scheduled_transaction) (cats : list category)
  (ctx : weekly_context num) :
  send_weekly_recap today thr fetched scheduled cats = Ok ctx ->
  w_transaction_count ctx = List.length (filter actual_keep fetched) /\
  (forall k v t, In (k, v) (w_category_spending ctx) ->
                 In t (transactions v) -> In t fetched /\ actual_rule t) /\
  ((forall t, In t fetched -> actual_keep t = true ->
              get_list (subtransactions t) = []) ->
   sum_counts (w_category_spending ctx) = w_transaction_count ctx).
Proof.
  intros Hctx.
  destruct (send_weekly_recap_inv _ _ _ _ _ _ Hctx)
    as (r & Hr & Hcount & _ & Hcs & _).
  pose proof (last_week_perm _ _ Hr) as Hp.
  rewrite Hcount, Hcs. split; [apply Permutation_length, Hp|]. split.
  - intros k v t Hin Ht.
    destruct (listed_not_excluded _ _ _ _ Hin Ht) as [Hr' _].
    apply (Permutation_in _ Hp) in Hr'. apply filter_In in Hr'.
    destruct Hr' as [Hf Hk]. split; [exact Hf | apply actual_keep_rule, Hk].
  - intros Hunsplit. unfold aggregate_by_category.
    rewrite aggregate_by_category_post, sum_counts_posted.
    rewrite ledger_unsplit; [apply length_map|].
    intros t Hin. apply (Permutation_in _ Hp) in Hin. apply filter_In in Hin.
    destruct Hin as [Hf Hk]. auto.
Qed.

Lemma weekly_job_counts_witness :
  exists ctx : weekly_context float,
    send_weekly_recap (2024, 1, 10) 80
      [Ex.transfer; Ex.purchase "2024-01-08" (-1500) "Dining"; Ex.income;
       Ex.purchase "2024-01-09" (-2500) "Fuel"] [] [] = Ok ctx /\
    w_transaction_count ctx = 2%nat /\
    sum_counts (w_category_spending ctx) = w_transaction_count ctx.
Proof.
  eexists. split; [vm_compute; reflexivity|]. split; [reflexivity|].
  pose proof (weekly_job_counts (num := float) (2024, 1, 10) 80
                [Ex.transfer; Ex.purchase "2024-01-08" (-1500) "Dining";
                 Ex.income; Ex.purchase "2024-01-09" (-2500) "Fuel"] [] []
                _ ltac:(vm_compute; reflexivity))
    as (_ & _ & Hsum).
  apply Hsum. intros t [<-|[<-|[<-|[<-|[]]]]] Hk; reflexivity.
Defined.

Section ExactJobs.

Local Open Scope Qc_scope.

Lemma sum_totals_posted (l : list (string * Z * transaction)) (m : totals Qc) :
  sum_totals (fold_left post l m)
  = sum_totals m - py_sum (map (fun e => to_major (snd (fst e))) l).
Proof.
  revert m; induction l as [|e l IH]; intros m; cbn [fold_left map].
  - rewrite exact_sum_nil. ring.
  - rewrite IH, exact_sum_cons. unfold post at 1.
    rewrite sum_totals_add_contribution. ring.
Qed.

Lemma to_major_plus (a b : Z) :
  to_major (num := Qc) (a + b) = to_major a + to_major b.
Proof.
  unfold to_major. cbn [int_truediv Exact]. rewrite Qc_of_Z_plus.
  unfold Qcdiv. ring.
Qed.

Lemma to_major_abs (a : Z) :
  to_major (num := Qc) (Z.abs a) - to_major (2 * Z.max 0 a)%Z = - to_major a.
Proof.
  assert (Hz : to_major (num := Qc) 0 = 0) by (apply Qc_is_canon; reflexivity).
  assert (H1 : (Z.abs a + a = 2 * Z.max 0 a)%Z) by lia.
  pose proof (to_major_plus (Z.abs a) a) as Hp. rewrite H1 in Hp.
  rewrite Hp. ring.
Qed.

Lemma refunds_perm (l l' : list transaction) :
  Permutation l l' -> refunds l = refunds l'.
Proof.
  induction 1 as [|x l l' _ IH|x y l|l l' l'' _ IH1 _ IH2]; cbn [refunds fold_right].
  - reflexivity.
  - fold (refunds l) (refunds l'). lia.
  - lia.
  - congruence.
Qed.

(** X19. In exact arithmetic, when no transaction of the weekly report is
    split, the totals of the categories add up to the total spent less
    twice the positive amounts: a refund raises the total spent and lowers
    its category.  Without positive amounts the two figures agree. *)
Theorem weekly_totals_exact (today : Z * Z * Z) (thr : Z)
  (fetched : list transaction) (scheduled : list scheduled_transaction)
  (cats : list category) (ctx : weekly_context Qc) :
  send_weekly_recap today thr fetched scheduled cats = Ok ctx ->
  (forall t, In t fetched -> actual_keep t = true ->
             get_list (subtransactions t) = []) ->
  sum_totals (w_category_spending ctx)
  = w_total_spent ctx - to_major (2 * refunds (filter actual_keep fetched))%Z
  /\ ((forall t, In t fetched -> actual_keep t = true ->
                 (get_int (amount t) <= 0)%Z) ->
      sum_totals (w_category_spending ctx) = w_total_spent ctx).
Proof.
  intros Hctx Hunsplit.
  destruct (send_weekly_recap_inv _ _ _ _ _ _ Hctx)
    as (r & Hr & _ & Htot & Hcs & _).
  pose proof (last_week_perm _ _ Hr) as Hp.
  assert (Hall : forall t, In t r ->
                   actual_keep t = true /\ get_list (subtransactions t) = []).
  { intros t Hin. apply (Permutation_in _ Hp) in Hin. apply filter_In in Hin.
    destruct Hin as [Hf Hk]. auto. }
  assert (Hmain : sum_totals (w_category_spending ctx)
                  = w_total_spent ctx - to_major (2 * refunds r)%Z).
  { rewrite Hcs, Htot. unfold aggregate_by_category.
    rewrite aggregate_by_category_post, sum_totals_posted.
    rewrite (ledger_unsplit r Hall), map_map. cbn [fst snd].
    change (sum_totals (num := Qc) []) with (py_sum (num := Qc) []).
    rewrite exact_sum_nil. clear.
    induction r as [|t r IH]; cbn [map refunds fold_right].
    - rewrite exact_sum_nil.
      assert (Hz : to_major (num := Qc) (2 * 0) = 0)
        by (apply Qc_is_canon; reflexivity).
      rewrite Hz. ring.
    - fold (refunds r). rewrite !exact_sum_cons.
      replace (2 * (Z.max 0 (get_int (amount t)) + refunds r))%Z
        with (2 * Z.max 0 (get_int (amount t)) + 2 * refunds r)%Z by lia.
      rewrite to_major_plus.
      pose proof (to_major_abs (get_int (amount t))) as Ha.
      unfold spent at 1.
      transitivity (- to_major (get_int (amount t))
                    + (0 - py_sum (map (fun x => to_major (get_int (amount x))) r))).
      { ring. }
      rewrite IH, <- Ha. ring. }
  split.
  - rewrite Hmain, (refunds_perm _ _ Hp). reflexivity.
  - intros Hout. rewrite Hmain.
    assert (Hz : refunds r = 0%Z).
    { assert (Hr0 : forall t, In t r -> (get_int (amount t) <= 0)%Z).
      { intros t Hin. apply (Permutation_in _ Hp) in Hin.
        apply filter_In in Hin. destruct Hin as [Hf Hk]. auto. }
      clear - Hr0. induction r as [|t r IH]; [reflexivity|].
      cbn [refunds fold_right]. fold (refunds r).
      rewrite IH by (intros t' Hin; apply Hr0; now right).
      specialize (Hr0 t (or_introl eq_refl)). lia. }
    rewrite Hz.
    assert (Hz0 : to_major (num := Qc) (2 * 0) = 0)
      by (apply Qc_is_canon; reflexivity).
    rewrite Hz0. ring.
Qed.

End ExactJobs.

Lemma weekly_totals_exact_witness :
  exists ctx : weekly_context Qc,
    send_weekly_recap (2024, 1, 10) 80
      [Ex.transfer; Ex.purchase "2024-01-08" (-1500) "Dining";
       Ex.purchase "2024-01-09" 500 "Dining"] [] [] = Ok ctx /\
    sum_totals (w_category_spending ctx)
    = Qcminus (w_total_spent ctx)
        (to_major
           (2 * refunds
                  (filter actual_keep
                     [Ex.transfer; Ex.purchase "2024-01-08" (-1500) "Dining";
                      Ex.purchase "2024-01-09" 500 "Dining"]))).
Proof.
  eexists. split; [reflexivity|].
  refine (proj1 (weekly_totals_exact (2024, 1, 10) 80
                   [Ex.transfer; Ex.purchase "2024-01-08" (-1500) "Dining";
                    Ex.purchase "2024-01-09" 500 "Dining"] [] [] _ _ _)).
  - reflexivity.
  - intros t [<-|[<-|[<-|[]]]] Hk; reflexivity.
Defined.

Lemma day_counts_value_error (txs : list transaction)
  (acc : list (string * nat)) :
  (forall t, In t txs -> has_date t) -> weekdays txs = None ->
  for_each day_counts_step txs acc = Raise ValueError /\
  exists t s, In t txs /\ date t = Val s /\ Calendar.strptime_ymd s = None.
Proof.
  revert acc; induction txs as [|t txs IH]; intros acc Hall;
    cbn [weekdays for_each]; [discriminate|].
  assert (Hstep : day_counts_step acc t
                  = match weekday_of t with
                    | Ok d => Ok (incr d acc)
                    | Raise e => Raise e
                    end) by reflexivity.
  rewrite Hstep. clear Hstep.
  destruct (Hall t (or_introl eq_refl)) as (s & Hs).
  unfold weekday_of. rewrite Hs.
  destruct (Calendar.strptime_ymd s) as [dd|] eqn:Ep; cbn [bind].
  - destruct (weekdays txs) eqn:Ew; [discriminate|]. intros _.
    destruct (IH (incr (Calendar.strftime_A dd) acc)
                (fun t' Hin => Hall t' (or_intror Hin)) eq_refl)
      as (Hr & t' & s' & Hin & Hd & Hp).
    split; [exact Hr|]. exists t', s'.
    split; [now right | split; assumption].
  - intros _. split; [reflexivity|]. exists t, s.
    split; [now left | split; assumption].
Qed.

Lemma weekdays_some (txs : list transaction) :
  (forall t, In t txs ->
             exists s dd, date t = Val s /\ Calendar.strptime_ymd s = Some dd) ->
  exists ws, weekdays txs = Some ws.
Proof.
  induction txs as [|t txs IH]; intros Hall; [exists []; reflexivity|].
  destruct (Hall t (or_introl eq_refl)) as (s & dd & Hs & Hp).
  destruct (IH (fun t' Hin => Hall t' (or_intror Hin))) as (ws & Hw).
  exists (Calendar.strftime_A dd :: ws). cbn [weekdays]. unfold weekday_of.
  now rewrite Hs, Hp, Hw.
Qed.

Lemma days_in_month_of_positive (today : Z * Z * Z) :
  (0 <? days_in_month_of today) = true.
Proof.
  destruct today as [[y m] d].
  destruct (days_in_month_of_length y m d) as (y' & m' & _ & ->).
  pose proof (month_length_range y' m'). apply Z.ltb_lt. lia.
Qed.

(** X20. The monthly job.  When it produces a report, the transaction count
    is the number of fetched transactions kept for the last month and the
    average per day is the total spent divided by the length of that month:
    the guard on the day count never applies.  When it fails, it is with
    [KeyError] or [AttributeError] from a transaction or schedule without
    usable date, or with [ValueError] from a fetched transaction whose date
    starts with the month string and is no date; with amounts that are
    integers, never with [TypeError] or [ZeroDivisionError].  It succeeds
    whenever every fetched date parses and no recurring schedule has a null
    next date. *)
Theorem monthly_job_outcome {num : Type} `{Number num} {L : NumberLaws num}
  (today : Z * Z * Z) (fetched : list transaction)
  (scheduled : list scheduled_transaction) :
  (forall ctx : monthly_context num,
     send_monthly_recap today fetched scheduled = Returns ctx ->
     m_transaction_count ctx
     = List.length
         (filter (monthly_keep (strftime_Ym (last_month_of today))) fetched) /\
     m_avg_per_day ctx
     = ndiv (m_total_spent ctx) (of_int (days_in_month_of today)) /\
     m_month_name ctx = strftime_BY (last_month_of today)) /\
  (forall e : error,
     send_monthly_recap (num := num) today fetched scheduled = Raises e ->
     e = Builtin KeyError \/ e = AttributeError \/
     (e = Builtin ValueError /\
      exists t s, In t fetched /\ date t = Val s /\
                  prefix (strftime_Ym (last_month_of today)) s = true /\
                  Calendar.strptime_ymd s = None)) /\
  ((forall t, In t fetched ->
              exists s dd, date t = Val s /\ Calendar.strptime_ymd s = Some dd) ->
   (forall st, In st scheduled ->
               ~ (recurring_frequency st = true /\ date_next st = Null)) ->
   exists ctx : monthly_context num,
     send_monthly_recap today fetched scheduled = Returns ctx).
Proof.
  unfold send_monthly_recap, get_last_month_transactions,
    get_recurring_scheduled_this_month.
  set (p := strftime_Ym (last_month_of today)).
  destruct (last_month_loop p fetched) as [kept|e0] eqn:El.
  - destruct (last_month_loop_returns _ _ _ El) as [-> Hdated].
    destruct (recurring_loop_cases (strftime_Ym today) scheduled)
      as [(Hex & ->)|(Hall & ->)].
    + split; [discriminate|]. split; [intros e [= <-]; auto|].
      intros _ Hno. destruct Hex as (st & Hin & H0). destruct (Hno st Hin H0).
    + set (kept := filter (monthly_keep p) fetched).
      assert (Hkept : forall t, In t kept -> has_date t).
      { intros t Hin. apply filter_In in Hin. apply Hdated, Hin. }
      destruct (weekdays kept) as [ws|] eqn:Hw.
      * rewrite (generate_monthly_recap_ok _ _ _ _ _ ws Hw). cbn [lift].
        split; [|split; [discriminate | eauto]].
        intros ctx [= <-]. cbn. rewrite days_in_month_of_positive. auto.
      * assert (Hr : generate_monthly_recap (num := num)
                       (days_in_month_of today) kept
                       (aggregate_by_category kept)
                       (sort_by_date_next
                          (filter (recurring_keep (strftime_Ym today)) scheduled))
                       (strftime_BY (last_month_of today))
                     = Raise ValueError /\
                     exists t s, In t kept /\ date t = Val s /\
                                 Calendar.strptime_ymd s = None).
        { destruct (day_counts_value_error kept [] Hkept Hw) as [Hr Hex].
          split; [|exact Hex]. unfold generate_monthly_recap.
          rewrite avg_per_day_ok, avg_transaction_ok. cbn [bind].
          rewrite Hr. reflexivity. }
        destruct Hr as [-> (t & s & Hin & Hd & Hp)]. cbn [lift].
        split; [discriminate|]. split.
        -- intros e [= <-]. right. right. split; [reflexivity|].
           exists t, s. apply filter_In in Hin. destruct Hin as [Hf Hk].
           unfold monthly_keep in Hk. apply andb_true_iff in Hk.
           destruct Hk as [Hpre _]. unfold str_value in Hpre.
           rewrite Hd in Hpre. auto.
        -- intros Hparse _. exfalso. apply filter_In in Hin.
           destruct Hin as [Hf _].
           destruct (Hparse t Hf) as (s' & dd & Hd' & Hp'). congruence.
  - split; [discriminate|]. split.
    + intros e [= <-]. apply last_month_loop_raises in El.
      destruct El as (pre & post & t & _ & _ & He). unfold date_error in He.
      destruct (date t); injection He as <- || discriminate He; auto.
    + intros Hparse _. exfalso. apply last_month_loop_raises in El.
      destruct El as (pre & post & t & -> & _ & He).
      destruct (Hparse t) as (s & dd & Hd & _);
        [apply in_or_app; right; now left|].
      unfold date_error in He. rewrite Hd in He. discriminate.
Qed.

Section StatusLists.
Context {num : Type} `{Number num}.

Lemma placed_app (cl : status_class) (thr : Z) (cats1 cats2 : list category) :
  placed (num := num) cl thr (cats1 ++ cats2)
  = placed cl thr cats1 ++ placed cl thr cats2.
Proof. unfold placed. now rewrite filter_app, map_app. Qed.

Lemma placed_overspent_threshold (thr thr' : Z) (cats : list category) :
  placed (num := num) Overspent thr cats = placed Overspent thr' cats.
Proof.
  unfold placed. f_equal. apply filter_ext. intros c. unfold classify.
  destruct (is_inflow (category_label c)); [reflexivity|].
  destruct (neqb (budgeted_major c) zero); [reflexivity|].
  destruct (nltb (balance_major c) zero); [reflexivity|].
  destruct (nleb_int thr (percent_used c)),
    (nleb_int thr' (percent_used c)),
    (nltb (nmul (budgeted_major c) (of_int 2)) (balance_major c)); reflexivity.
Qed.

Lemma placed_lengths (thr : Z) (cats : list category) :
  (List.length (placed (num := num) Overspent thr cats)
   + List.length (placed (num := num) Warning thr cats)
   + List.length (placed (num := num) Underfunded thr cats)
   <= List.length cats)%nat.
Proof.
  induction cats as [|c cats IH]; [apply Nat.le_refl|].
  rewrite !placed_cons, !length_app. cbn [List.length].
  destruct (classify thr c); cbn [status_class_eqb List.length]; lia.
Qed.

End StatusLists.

(** X21. [get_category_status] never raises and treats the snapshots one by
    one: the three lists of a concatenation are the concatenations of the
    lists of its parts.  The overspent list is the same at every threshold,
    and the three lists together hold no more entries than there are
    snapshots. *)
Theorem category_status_lists {num : Type} `{Number num}
  (cats1 cats2 : list category) (thr thr' : Z) :
  exists s1 s2 s s' : category_status num,
    get_category_status cats1 thr = Ok s1 /\
    get_category_status cats2 thr = Ok s2 /\
    get_category_status (cats1 ++ cats2) thr = Ok s /\
    get_category_status (cats1 ++ cats2) thr' = Ok s' /\
    overspent s = overspent s1 ++ overspent s2 /\
    warning s = warning s1 ++ warning s2 /\
    underfunded s = underfunded s1 ++ underfunded s2 /\
    overspent s' = overspent s /\
    (List.length (overspent s) + List.length (warning s)
     + List.length (underfunded s) <= List.length (cats1 ++ cats2))%nat.
Proof.
  do 4 eexists.
  split; [apply get_category_status_placed|].
  split; [apply get_category_status_placed|].
  split; [apply get_category_status_placed|].
  split; [apply get_category_status_placed|].
  cbn [overspent warning underfunded]. rewrite !placed_app.
  split; [reflexivity|]. split; [reflexivity|]. split; [reflexivity|].
  split.
  - now rewrite (placed_overspent_threshold thr' thr cats1),
      (placed_overspent_threshold thr' thr cats2).
  - rewrite <- !placed_app. apply placed_lengths.
Qed.

(** X22. The daily job never raises.  Its list holds, in the order fetched,
    the transactions that pass the tests of the uncategorized rule, and its
    count is the length of that list.  A fetched transaction that would be
    in the weekly list and is uncategorized is in the daily list; the daily
    list holds in addition the uncategorized transactions that come from a
    schedule. *)
Theorem daily_job_never_fails {num : Type} `{Number num} (thr : Z)
  (fetched : list transaction) (cats : list category) :
  exists ctx : daily_context num,
    send_daily_alert thr fetched cats = Ok ctx /\
    d_uncategorized_transactions ctx = filter uncategorized_keep fetched /\
    d_uncategorized_count ctx
    = List.length (filter uncategorized_keep fetched) /\
    get_category_status cats thr = Ok (d_category_status ctx) /\
    (forall t, In t fetched -> actual_keep t = true ->
               is_uncategorized t = true ->
               In t (d_uncategorized_transactions ctx)) /\
    (forall t, In t (d_uncategorized_transactions ctx) ->
               actual_keep t = true
               \/ truthy (scheduled_transaction_id t) = true).
Proof.
  unfold send_daily_alert. rewrite get_category_status_placed. cbn [bind].
  eexists. split; [reflexivity|].
  cbn [d_uncategorized_transactions d_uncategorized_count d_category_status
       generate_daily_alert].
  rewrite get_uncategorized_filter.
  split; [reflexivity|]. split; [reflexivity|]. split; [reflexivity|].
  split; intros t; rewrite filter_In; unfold uncategorized_keep, actual_keep;
    destruct (truthy (scheduled_transaction_id t)), (is_transfer t),
      (is_reconciliation t), (is_inflow (get_or (category_name t) "")),
      (is_uncategorized t); cbn [negb andb]; intuition congruence.
Qed.

(** ** The largest transaction *)

Section FirstLargest.
Context {num : Type} `{Number num}.

Lemma py_max_In (x : num) (xs : list num) : In (py_max x xs) (x :: xs).
Proof.
  unfold py_max. revert x; induction xs as [|y xs IH]; intros x;
    cbn [fold_left]; [now left|].
  destruct (nltb x y).
  - right. apply IH.
  - destruct (IH x) as [Hx|Hx]; [now left | right; now right].
Qed.

Lemma py_max_largest (x : num) (xs : list num) :
  (forall a b, In a (x :: xs) -> In b (x :: xs) ->
               nltb a b = true -> nltb b a = false) ->
  (forall a b c, In a (x :: xs) -> In b (x :: xs) -> In c (x :: xs) ->
                 nltb a b = false -> nltb b c = false -> nltb a c = false) ->
  forall y, In y (x :: xs) -> nltb (py_max x xs) y = false.
Proof.
  intros Hasym Hneg.
  assert (Hirr : forall a, In a (x :: xs) -> nltb a a = false).
  { intros a Ha. destruct (nltb a a) eqn:E; [|reflexivity].
    now rewrite (Hasym a a Ha Ha E) in E. }
  assert (Hgen : forall (seen rest : list num) (best : num),
             x :: xs = seen ++ rest -> In best seen ->
             (forall y, In y seen -> nltb best y = false) ->
             forall y, In y (seen ++ rest) ->
                       nltb (fold_left (fun b z => if nltb b z then z else b)
                               rest best) y = false).
  { intros seen rest. revert seen.
    induction rest as [|z rest IH]; intros seen best Heq Hbest Hseen y Hy.
    - rewrite app_nil_r in Hy. apply Hseen, Hy.
    - cbn [fold_left].
      assert (Heq' : x :: xs = (seen ++ [z]) ++ rest)
        by (rewrite <- app_assoc; exact Heq).
      assert (Hin : forall a, In a (seen ++ [z]) -> In a (x :: xs)).
      { intros a Ha. rewrite Heq'. apply in_or_app. now left. }
      assert (Hy' : In y ((seen ++ [z]) ++ rest))
        by (rewrite <- app_assoc; exact Hy).
      assert (Hz : In z (seen ++ [z])) by (apply in_or_app; right; now left).
      assert (Hb : In best (seen ++ [z])) by (apply in_or_app; now left).
      destruct (nltb best z) eqn:E.
      + apply (IH (seen ++ [z]) z Heq' Hz); [|exact Hy'].
        intros w Hw. apply in_app_or in Hw. destruct Hw as [Hw|[<-|[]]].
        * assert (Hw' : In w (seen ++ [z])) by (apply in_or_app; now left).
          destruct (nltb z w) eqn:Ezw; [|reflexivity].
          pose proof (Hasym z w (Hin _ Hz) (Hin _ Hw') Ezw) as Hwz.
          pose proof (Hneg best w z (Hin _ Hb) (Hin _ Hw') (Hin _ Hz)
                        (Hseen w Hw) Hwz). congruence.
        * apply Hirr, Hin, Hz.
      + apply (IH (seen ++ [z]) best Heq' Hb); [|exact Hy'].
        intros w Hw. apply in_app_or in Hw. destruct Hw as [Hw|[<-|[]]].
        * apply Hseen, Hw.
        * exact E. }
  intros y Hy. unfold py_max.
  apply (Hgen [x] xs x eq_refl (or_introl eq_refl)); [|exact Hy].
  intros w [<-|[]]. apply Hirr. now left.
Qed.

End FirstLargest.

(** X23. For a non-empty list the largest transaction of the monthly report
    is the absolute amount in major units of one of the transactions; when
    these amounts are comparable with each other, none of them is greater
    than it. *)
Theorem largest_transaction_largest {num : Type} `{Number num}
  {L : NumberLaws num} (days : Z) (txs : list transaction) (cs : totals num)
  (recurring : list scheduled_transaction) (mn : string)
  (ctx : monthly_context num) :
  generate_monthly_recap days txs cs recurring mn = Ok ctx ->
  txs <> [] ->
  (exists t, In t txs /\ m_largest_transaction ctx = spent t) /\
  ((forall a b, In a txs -> In b txs ->
      nltb (spent a) (spent b) = true -> nltb (spent b) (spent a) = false) ->
   (forall a b c, In a txs -> In b txs -> In c txs ->
      nltb (spent a) (spent b) = false -> nltb (spent b) (spent c) = false ->
      nltb (spent a) (spent c) = false) ->
   forall t, In t txs -> nltb (m_largest_transaction ctx) (spent t) = false).
Proof.
  intros Hr Hne.
  destruct (generate_monthly_recap_inv _ _ _ _ _ _ Hr)
    as (ws & _ & _ & _ & _ & _ & _ & _ & ->).
  unfold largest_transaction_of.
  destruct txs as [|t0 txs]; [congruence|]. cbn [map]. split.
  - pose proof (py_max_In (spent t0) (map spent txs)) as Hin.
    change (spent t0 :: map spent txs) with (map (spent (num := num)) (t0 :: txs))
      in Hin.
    apply in_map_iff in Hin. destruct Hin as (t & Ht & Hin). eauto.
  - intros Hasym Hneg t Ht.
    apply py_max_largest.
    + intros a b Ha Hb.
      change (spent t0 :: map spent txs)
        with (map (spent (num := num)) (t0 :: txs)) in Ha, Hb.
      apply in_map_iff in Ha, Hb.
      destruct Ha as (ta & <- & Ha), Hb as (tb & <- & Hb). now apply Hasym.
    + intros a b c Ha Hb Hc.
      change (spent t0 :: map spent txs)
        with (map (spent (num := num)) (t0 :: txs)) in Ha, Hb, Hc.
      apply in_map_iff in Ha, Hb, Hc.
      destruct Ha as (ta & <- & Ha), Hb as (tb & <- & Hb), Hc as (tc & <- & Hc).
      now apply Hneg.
    + change (spent t0 :: map spent txs)
        with (map (spent (num := num)) (t0 :: txs)).
      now apply in_map.
Qed.

Lemma largest_transaction_largest_witness :
  exists ctx : monthly_context float,
    generate_monthly_recap 31 Ex.january [] [] "January 2024" = Ok ctx /\
    m_largest_transaction ctx = 3.5%float /\
    forall t, In t Ex.january ->
              nltb (m_largest_transaction ctx) (spent t) = false.
Proof.
  eexists. split; [vm_compute; reflexivity|]. split; [reflexivity|].
  pose proof (largest_transaction_largest (num := float) (L := Binary64_laws)
                31 Ex.january [] [] "January 2024" _
                ltac:(vm_compute; reflexivity) ltac:(discriminate))
    as (_ & Hmax).
  apply Hmax.
  - intros a b [<-|[<-|[<-|[<-|[]]]]] [<-|[<-|[<-|[<-|[]]]]];
      vm_compute; congruence.
  - intros a b c [<-|[<-|[<-|[<-|[]]]]] [<-|[<-|[<-|[<-|[]]]]]
      [<-|[<-|[<-|[<-|[]]]]]; vm_compute; congruence.
Defined.

Lemma monthly_job_outcome_witness :
  exists ctx : monthly_context float,
    send_monthly_recap (2024, 2, 1)
      [Ex.transfer; Ex.purchase "2024-01-02" (-1500) "Dining";
       Ex.purchase "2024-02-01" (-2500) "Fuel"] [] = Returns ctx /\
    m_transaction_count ctx = 1%nat /\
    m_avg_per_day ctx = ndiv (m_total_spent ctx) (of_int 31) /\
    m_month_name ctx = "January 2024".
Proof.
  eexists. split; [vm_compute; reflexivity|].
  apply (proj1 (monthly_job_outcome (num := float) (L := Binary64_laws)
                  (2024, 2, 1)
                  [Ex.transfer; Ex.purchase "2024-01-02" (-1500) "Dining";
                   Ex.purchase "2024-02-01" (-2500) "Fuel"] [])).
  vm_compute. reflexivity.
Defined.

(** ** The name of the most active day *)

Lemma strftime_A_name (d : Z * Z * Z) : In (Calendar.strftime_A d) Calendar.day_names.
Proof.
  unfold Calendar.strftime_A. apply nth_In.
  change (List.length Calendar.day_names) with 7%nat.
  unfold Calendar.weekday.
  pose proof (Z.mod_pos_bound (Calendar.toordinal d + 6) 7 ltac:(lia)). lia.
Qed.

Lemma weekdays_names (txs : list transaction) (ws : list string) :
  weekdays txs = Some ws ->
  List.length ws = List.length txs /\
  forall w, In w ws -> In w Calendar.day_names.
Proof.
  revert ws; induction txs as [|t txs IH]; intros ws; cbn [weekdays].
  - intros [= <-]. split; [reflexivity | intros w []].
  - unfold weekday_of. destruct (date t) as [| |s]; try discriminate.
    destruct (Calendar.strptime_ymd s) as [d|]; [|discriminate].
    destruct (weekdays txs) as [ds|]; [|discriminate].
    intros [= <-]. destruct (IH ds eq_refl) as [Hlen Hall].
    split; [cbn [List.length]; now rewrite Hlen|].
    intros w [<-|Hin]; [apply strftime_A_name | apply Hall, Hin].
Qed.

(** X24. The most active day of the monthly report is one of the seven
    English names of the days of the week, or ["N/A"], and it is ["N/A"]
    exactly when there is no transaction. *)
Theorem most_active_day_name {num : Type} `{Number num} {L : NumberLaws num}
  (days : Z) (txs : list transaction) (cs : totals num)
  (recurring : list scheduled_transaction) (mn : string)
  (ctx : monthly_context num) :
  generate_monthly_recap days txs cs recurring mn = Ok ctx ->
  In (m_most_active_day ctx)
    ["N/A"; "Monday"; "Tuesday"; "Wednesday"; "Thursday"; "Friday";
     "Saturday"; "Sunday"] /\
  (m_most_active_day ctx = "N/A" <-> txs = []).
Proof.
  intros Hr.
  destruct (generate_monthly_recap_inv _ _ _ _ _ _ Hr)
    as (ws & Hw & _ & _ & _ & _ & _ & -> & _).
  destruct (weekdays_names _ _ Hw) as [Hlen Hnames].
  destruct ws as [|w ws].
  - split; [now left|]. split; [|reflexivity]. intros _.
    destruct txs; [reflexivity | discriminate Hlen].
  - destruct (most_active_day_spec (w :: ws) ltac:(discriminate)) as [Hin _].
    apply Hnames in Hin. split; [right; exact Hin|]. split.
    + intros Hna. rewrite Hna in Hin. exfalso.
      repeat (destruct Hin as [Hin|Hin]; [discriminate Hin|]). destruct Hin.
    + intros ->. discriminate Hlen.
Qed.

Lemma most_active_day_name_witness :
  exists ctx : monthly_context float,
    generate_monthly_recap 31 Ex.january [] [] "January 2024" = Ok ctx /\
    (m_most_active_day ctx = "N/A" <-> Ex.january = []).
Proof.
  eexists. split; [vm_compute; reflexivity|].
  apply (most_active_day_name (num := float) (L := Binary64_laws) 31
           Ex.january [] [] "January 2024").
  vm_compute. reflexivity.
Defined.

(** ** The weekly job *)

Lemma sort_by_date_desc_total (txs : list transaction) :
  (forall t, In t txs -> has_date t) ->
  exists r, sort_by_date_desc txs = Ok r.
Proof.
  intros Hall. unfold sort_by_date_desc.
  destruct (date_keys txs) as [keyed|e] eqn:Ek; cbn [bind].
  - destruct (date_keys_ok _ _ Ek) as [-> _].
    destruct (existsb (fun kt => is_none (fst kt))
                (map (fun t => (key_of t, t)) txs)) eqn:Ex.
    + apply existsb_none_keys in Ex. destruct Ex as (t & Hin & Hn).
      destruct (Hall t Hin) as (d & Hd). unfold key_of in Hn.
      rewrite Hd in Hn. discriminate.
    + rewrite andb_false_r. eauto.
  - destruct (date_keys_raise _ _ Ek) as [_ (t & Hin & Ht)].
    destruct (Hall t Hin) as (d & Hd). congruence.
Qed.

Lemma sort_by_date_desc_raise (txs : list transaction) (e : exn) :
  sort_by_date_desc txs = Raise e ->
  (e = KeyError \/ e = TypeError) /\ exists t, In t txs /\ ~ has_date t.
Proof.
  unfold sort_by_date_desc.
  destruct (date_keys txs) as [keyed|e'] eqn:Ek; cbn [bind].
  - destruct (date_keys_ok _ _ Ek) as [-> _].
    destruct (_ && _) eqn:E; [|discriminate]. intros [= <-].
    split; [now right|]. apply andb_true_iff in E. destruct E as [_ Ex].
    apply existsb_none_keys in Ex. destruct Ex as (t & Hin & Hn).
    exists t. split; [exact Hin|]. intros (d & Hd). unfold key_of in Hn.
    rewrite Hd in Hn. discriminate.
  - intros [= <-]. destruct (date_keys_raise _ _ Ek) as [-> (t & Hin & Ht)].
    split; [now left|]. exists t. split; [exact Hin|]. intros (d & Hd).
    congruence.
Qed.

(** X25. The weekly job.  When it fails, it is with [KeyError] or
    [TypeError] from a transaction that passes the four tests and has no
    date string, or with [ValueError] from a scheduled transaction whose
    non-empty next date is no date; transactions come first.  It produces
    a report whenever every transaction that passes the four tests has a
    date string and every non-empty next date parses; the dates of the
    transactions themselves need not parse. *)
Theorem weekly_job_outcome {num : Type} `{Number num} (today : Z * Z * Z)
  (thr : Z) (fetched : list transaction)
  (scheduled : list scheduled_transaction) (cats : list category) :
  (forall e : exn,
     send_weekly_recap (num := num) today thr fetched scheduled cats = Raise e ->
     ((e = KeyError \/ e = TypeError) /\
      exists t, In t fetched /\ actual_keep t = true /\ ~ has_date t) \/
     (e = ValueError /\
      (forall t, In t fetched -> actual_keep t = true ->
                 date t <> Absent) /\
      exists st, In st scheduled /\ bad_date_next st)) /\
  ((forall t, In t fetched -> actual_keep t = true -> has_date t) ->
   (forall st, In st scheduled -> ~ bad_date_next st) ->
   exists ctx : weekly_context num,
     send_weekly_recap today thr fetched scheduled cats = Ok ctx).
Proof.
  unfold send_weekly_recap, get_last_week_transactions,
    get_upcoming_scheduled_transactions.
  rewrite actual_transactions_filter, get_category_status_placed.
  destruct (sort_by_date_desc (filter actual_keep fetched)) as [r|e0] eqn:Es;
    cbn [bind].
  - assert (Hkeys : forall t, In t fetched -> actual_keep t = true ->
                              date t <> Absent).
    { intros t Hin Hk. unfold sort_by_date_desc in Es.
      destruct (date_keys (filter actual_keep fetched)) as [keyed|] eqn:Ek;
        cbn [bind] in Es; [|discriminate].
      destruct (date_keys_ok _ _ Ek) as [_ Hall]. apply Hall.
      apply filter_In. auto. }
    destruct (upcoming_loop_cases today 14 scheduled) as [Hbad|Hok].
    + rewrite (upcoming_loop_raise today 14 scheduled Hbad). cbn [bind].
      split.
      * intros e [= <-]. right. auto.
      * intros _ Hno. destruct Hbad as (st & Hin & Hb).
        destruct (Hno st Hin Hb).
    + rewrite Hok. cbn [bind]. split; [discriminate | eauto].
  - split.
    + intros e [= <-]. left.
      destruct (sort_by_date_desc_raise _ _ Es) as [He (t & Hin & Hd)].
      split; [exact He|]. exists t. apply filter_In in Hin.
      destruct Hin as [Hf Hk]. auto.
    + intros Hall _. exfalso.
      destruct (sort_by_date_desc_total (filter actual_keep fetched))
        as (r & Hr).
      * intros t Hin. apply filter_In in Hin. destruct Hin as [Hf Hk]. auto.
      * congruence.
Qed.
